(** * The client-side synchronisation layer of the habit tracker

    A shallow embedding of [src/lib/realtime.js]: the pending-update ledger
    ([OptimisticUpdates]), the read cache ([DataCache]), the subscription
    registry ([RealtimeManager]) and the connectivity monitor
    ([ConnectionMonitor]), followed by the properties the specification
    states about them.

    Conventions of the embedding.
    - [Date.now()] is an explicit argument [now : Z] (milliseconds).
    - JavaScript numbers are integers ([Z]): the code only compares
      identifiers with [===] and subtracts millisecond timestamps.
    - Records (rows of a table) are flat objects with primitive fields.  The
      source never assigns to a property of a record (an update builds a new
      object with the spread syntax), so a record is an immutable finite map
      from field names to primitives.
    - Arrays are mutable and live in a store; [applyToHabits] and its
      siblings run in a small state-and-exception monad over that store.
    - A JavaScript [Map] iterates in insertion order: the ledger is an
      association list with at most one entry per key.
    - A callback is a handle (the identity of the function object); what it
      does when it is called is given by an environment of behaviours.  The
      registry, the monitor and the console share one [world]. *)

From stdpp Require Import gmap strings list fin_maps.

(** ** JavaScript values *)

Inductive value :=
  | VUndef
  | VNull
  | VBool (b : bool)
  | VNum (n : Z)
  | VStr (s : string).

#[global] Instance value_eq_dec : EqDecision value.
Proof. solve_decision. Defined.

(** [a === b] on primitives. *)
Definition strict_eq (a b : value) : bool := bool_decide (a = b).

(** A record: field name to primitive. *)
Abbreviation object := (gmap string value).

(** An array element, or the [data] field of an update: a record, or
    [undefined] when absent. *)
Abbreviation elem := (option object).

Inductive error :=
  | TypeError (msg : string).

Inductive outcome (A : Type) :=
  | Ok (a : A)
  | Throw (e : error).
Arguments Ok {A} a.
Arguments Throw {A} e.

(** [o.f] on a record: a missing property reads [undefined]. *)
Definition prop (o : object) (f : string) : value := default VUndef (o !! f).

(** [e.f] on an array element: reading a property of [undefined] throws. *)
Definition get_prop (e : elem) (f : string) : outcome value :=
  match e with
  | Some o => Ok (prop o f)
  | None => Throw (TypeError "Cannot read properties of undefined")
  end.

(** [{ ...a, ...b }]: the fields of [b] override those of [a]; spreading
    [undefined] contributes nothing. *)
Definition spread (a b : elem) : object := default ∅ b ∪ default ∅ a.

(** ** Insertion-ordered maps (JavaScript [Map] with string keys) *)

Module JSMap.
Abbreviation t V := (list (string * V)).

Section ordered_map.
Context {V : Type}.
Implicit Types m : t V.

Definition empty : t V := [].

Fixpoint get (k : string) (m : t V) : option V :=
match m with
| [] => None
| (k', v) :: m' => if decide (k' = k) then Some v else get k m'
end.

Definition has (k : string) (m : t V) : bool := bool_decide (is_Some (get k m)).

(** [set] keeps the position of an existing key and appends a new one. *)
Fixpoint set (k : string) (v : V) (m : t V) : t V :=
match m with
| [] => [(k, v)]
| (k', v') :: m' =>
    if decide (k' = k) then (k, v) :: m' else (k', v') :: set k v m'
end.

Definition delete (k : string) (m : t V) : t V :=
filter (λ e, e.1 ≠ k) m.

Definition entries (m : t V) : list (string * V) := m.

Definition clear (m : t V) : t V := [].

(** Representation invariant: one entry per key. *)
Definition wf (m : t V) : Prop := NoDup m.*1.
End ordered_map.
End JSMap.

(** ** The array store *)

Abbreviation loc := nat.
Abbreviation store := (gmap loc (list elem)).

(** Computations over the store that may throw. *)
Definition M (A : Type) : Type := store → store * outcome A.

#[global] Instance M_ret : MRet M := λ A a h, (h, Ok a).

#[global] Instance M_bind : MBind M := λ A B k c h,
  match c h with
  | (h', Ok a) => k a h'
  | (h', Throw e) => (h', Throw e)
  end.

Definition throw {A} (e : error) : M A := λ h, (h, Throw e).

(** Lift a pure, possibly throwing, computation. *)
Definition lift {A} (o : outcome A) : M A := λ h, (h, o).

(** [[...a]]: a fresh array with the elements of [a]. *)
Definition array_copy (a : loc) : M loc :=
  λ h, match h !! a with
       | Some l => let r := fresh (dom h) in (<[r := l]> h, Ok r)
       | None => (h, Throw (TypeError "object is not iterable"))
       end.

Definition array_read (a : loc) : M (list elem) :=
  λ h, match h !! a with
       | Some l => (h, Ok l)
       | None => (h, Throw (TypeError "not an array"))
       end.

Definition array_write (a : loc) (l : list elem) : M unit :=
  λ h, (<[a := l]> h, Ok tt).

(** [a.push(x)] *)
Definition array_push (a : loc) (x : elem) : M unit :=
  (l ← array_read a; array_write a (l ++ [x])).

(** [findIndex] on the elements: the first index whose element satisfies
    the predicate, [-1] when there is none; an exception of the predicate
    propagates. *)
Fixpoint findIndex_from (i : Z) (p : elem → outcome bool) (l : list elem)
  : outcome Z :=
  match l with
  | [] => Ok (-1)%Z
  | x :: l' =>
      match p x with
      | Throw e => Throw e
      | Ok true => Ok i
      | Ok false => findIndex_from (i + 1)%Z p l'
      end
  end.

(** [a.findIndex(p)] *)
Definition array_findIndex (a : loc) (p : elem → outcome bool) : M Z :=
  (l ← array_read a; lift (findIndex_from 0 p l)).

(** [a.splice(index, 1)] for an index returned by [findIndex]. *)
Definition array_splice1 (a : loc) (index : Z) : M unit :=
  (l ← array_read a; array_write a (delete (Z.to_nat index) l)).

(** [a[index]] for an index in range; out of range reads [undefined]. *)
Definition array_get (a : loc) (index : Z) : M elem :=
  (l ← array_read a; mret (default None (l !! Z.to_nat index))).

(** [a[index] = x] for an index in range. *)
Definition array_set (a : loc) (index : Z) (x : elem) : M unit :=
  (l ← array_read a; array_write a (<[Z.to_nat index := x]> l)).

(** [for (const e of es) body(e)] *)
Fixpoint for_of {A} (es : list A) (body : A → M unit) : M unit :=
  match es with
  | [] => mret tt
  | e :: es' => (body e ;; for_of es' body)
  end.

(** ** The pending-update ledger: class [OptimisticUpdates] *)

Module OptimisticUpdates.

(** A pending update as the methods read it. *)
Record update := {
  type : value;
  operation : value;
  id : value;
  habitId : value;
  logDate : value;
  data : elem;
  timestamp : Z
}.

(** [{ ...update, timestamp: now }] *)
Definition stamp (u : update) (now : Z) : update :=
  {| type := type u; operation := operation u; id := id u;
     habitId := habitId u; logDate := logDate u; data := data u;
     timestamp := now |}.

(** [this.pendingUpdates] *)
Abbreviation t := (JSMap.t update).

Definition addPendingUpdate (key : string) (u : update) (now : Z)
    (pendingUpdates : t) : t :=
  JSMap.set key (stamp u now) pendingUpdates.

Definition removePendingUpdate (key : string) (pendingUpdates : t) : t :=
  JSMap.delete key pendingUpdates.

Definition getPendingUpdate (key : string) (pendingUpdates : t)
  : option update :=
  JSMap.get key pendingUpdates.

(** The loop deletes entries of the map it iterates; a JavaScript [Map]
    allows it, and every entry present at the start is visited once. *)
Definition cleanOldUpdates (now : Z) (pendingUpdates : t) : t :=
  foldl (λ m e,
           if bool_decide (now - timestamp e.2 > 30000)%Z
           then JSMap.delete e.1 m else m)
        pendingUpdates (JSMap.entries pendingUpdates).

Definition cleanup (pendingUpdates : t) : t := JSMap.clear pendingUpdates.

Definition applyToHabits (pendingUpdates : t) (habits : loc) : M loc :=
  (result ← array_copy habits;
   for_of (JSMap.entries pendingUpdates) (λ e,
     let update := e.2 in
     if strict_eq (type update) (VStr "habit") then
       if strict_eq (operation update) (VStr "add") then
         array_push result (data update)
       else if strict_eq (operation update) (VStr "delete") then
         index ← array_findIndex result (λ h,
           match get_prop h "id" with
           | Ok v => Ok (strict_eq v (id update))
           | Throw err => Throw err
           end);
         if bool_decide (index ≠ (-1)%Z) then array_splice1 result index
         else mret tt
       else if strict_eq (operation update) (VStr "update") then
         index ← array_findIndex result (λ h,
           match get_prop h "id" with
           | Ok v => Ok (strict_eq v (id update))
           | Throw err => Throw err
           end);
         if bool_decide (index ≠ (-1)%Z) then
           old ← array_get result index;
           array_set result index (Some (spread old (data update)))
         else mret tt
       else mret tt
     else mret tt);;
   mret result).

Definition applyToHabitLogs (pendingUpdates : t) (habitLogs : loc) : M loc :=
  (result ← array_copy habitLogs;
   for_of (JSMap.entries pendingUpdates) (λ e,
     let update := e.2 in
     if strict_eq (type update) (VStr "habitLog") then
       if strict_eq (operation update) (VStr "add") then
         array_push result (data update)
       else if strict_eq (operation update) (VStr "delete") then
         index ← array_findIndex result (λ log,
           match get_prop log "habit_id" with
           | Ok v =>
               if strict_eq v (habitId update) then
                 match get_prop log "log_date" with
                 | Ok d => Ok (strict_eq d (logDate update))
                 | Throw err => Throw err
                 end
               else Ok false
           | Throw err => Throw err
           end);
         if bool_decide (index ≠ (-1)%Z) then array_splice1 result index
         else mret tt
       else mret tt
     else mret tt);;
   mret result).

Definition applyToTodos (pendingUpdates : t) (todos : loc) : M loc :=
  (result ← array_copy todos;
   for_of (JSMap.entries pendingUpdates) (λ e,
     let update := e.2 in
     if strict_eq (type update) (VStr "todo") then
       if strict_eq (operation update) (VStr "add") then
         array_push result (data update)
       else if strict_eq (operation update) (VStr "delete") then
         index ← array_findIndex result (λ t,
           match get_prop t "id" with
           | Ok v => Ok (strict_eq v (id update))
           | Throw err => Throw err
           end);
         if bool_decide (index ≠ (-1)%Z) then array_splice1 result index
         else mret tt
       else if strict_eq (operation update) (VStr "update") then
         index ← array_findIndex result (λ t,
           match get_prop t "id" with
           | Ok v => Ok (strict_eq v (id update))
           | Throw err => Throw err
           end);
         if bool_decide (index ≠ (-1)%Z) then
           old ← array_get result index;
           array_set result index (Some (spread old (data update)))
         else mret tt
       else mret tt
     else mret tt);;
   mret result).

End OptimisticUpdates.

(** ** Projection as the specification words it

    A second, independent definition of the overlay of pending updates on a
    collection of records, written from the specification: [add] appends
    the payload, [update] merges into the first record with the target id,
    [delete] removes the first record with the update's identity. *)

Inductive entity_class := Habit | HabitLog | Todo.

Definition class_tag (c : entity_class) : value :=
  match c with
  | Habit => VStr "habit"
  | HabitLog => VStr "habitLog"
  | Todo => VStr "todo"
  end.

(** The first record satisfying [P] is removed. *)
Fixpoint remove_first (P : object → bool) (l : list object) : list object :=
  match l with
  | [] => []
  | r :: l' => if P r then l' else r :: remove_first P l'
  end.

(** The first record satisfying [P] is replaced by its image under [f]. *)
Fixpoint replace_first (P : object → bool) (f : object → object)
    (l : list object) : list object :=
  match l with
  | [] => []
  | r :: l' => if P r then f r :: l' else r :: replace_first P f l'
  end.

(** Field-by-field merge: the update's fields override, others are kept. *)
Definition merge (d : elem) (r : object) : object :=
  default ∅ d ∪ r.

(** The record has the update's target id. *)
Definition has_target_id (u : OptimisticUpdates.update) (r : object) : bool :=
  bool_decide (prop r "id" = OptimisticUpdates.id u).

(** The record has the update's identity: the id, or for a habit log the
    composite key (habit_id, log_date). *)
Definition has_identity (c : entity_class) (u : OptimisticUpdates.update)
    (r : object) : bool :=
  match c with
  | HabitLog =>
      bool_decide (prop r "habit_id" = OptimisticUpdates.habitId u
                   ∧ prop r "log_date" = OptimisticUpdates.logDate u)
  | _ => has_target_id u r
  end.

(** One pending update applied to a collection.  An [add] without payload
    is outside the specification's words; it is left out here and excluded
    by [payloads_present] below. *)
Definition apply_pending (c : entity_class) (l : list object)
    (u : OptimisticUpdates.update) : list object :=
  if bool_decide (OptimisticUpdates.type u = class_tag c) then
    if bool_decide (OptimisticUpdates.operation u = VStr "add") then
      match OptimisticUpdates.data u with
      | Some r => l ++ [r]
      | None => l
      end
    else if bool_decide (OptimisticUpdates.operation u = VStr "update") then
      replace_first (has_target_id u) (merge (OptimisticUpdates.data u)) l
    else if bool_decide (OptimisticUpdates.operation u = VStr "delete") then
      remove_first (has_identity c u) l
    else l
  else l.

Definition project_spec (c : entity_class) (ledger : OptimisticUpdates.t)
    (base : list object) : list object :=
  foldl (apply_pending c) base ledger.*2.

(** Every [add] of the class carries a record. *)
Definition payloads_present (c : entity_class) (ledger : OptimisticUpdates.t)
  : Prop :=
  Forall (λ e : string * OptimisticUpdates.update,
            OptimisticUpdates.type e.2 = class_tag c →
            OptimisticUpdates.operation e.2 = VStr "add" →
            is_Some (OptimisticUpdates.data e.2)) ledger.

(** The ledger without its [update] operations. *)
Definition without_updates (ledger : OptimisticUpdates.t)
  : OptimisticUpdates.t :=
  filter (λ e : string * OptimisticUpdates.update,
            OptimisticUpdates.operation e.2 ≠ VStr "update") ledger.

(** The sweep as the specification words it: the entries whose age does not
    exceed [maxAge] stay, in order. *)
Definition sweep_spec (maxAge now : Z) (ledger : OptimisticUpdates.t)
  : OptimisticUpdates.t :=
  filter (λ e : string * OptimisticUpdates.update,
            (now - OptimisticUpdates.timestamp e.2 ≤ maxAge)%Z) ledger.



(** ** The read cache: class [DataCache] *)

(** Cached values: a primitive ([null] among them), a record, an array of
    records, or an object of named arrays such as
    [{ habits, tasks, habitLogs }]. *)
Inductive jsval :=
  | JPrim (v : value)
  | JObj (o : object)
  | JArr (items : list elem)
  | JData (fields : list (string * list elem)).

Definition null : jsval := JPrim VNull.

Module DataCache.

Record item := { value : jsval; timestamp : Z }.

Record t := { cache : gmap string item; ttl : Z }.

(** [new DataCache(ttl)], 5 minutes when no argument is given. *)
Definition new (ttl : option Z) : t :=
  {| cache := ∅; ttl := default (5 * 60 * 1000)%Z ttl |}.

Definition set (key : string) (v : jsval) (now : Z) (c : t) : t :=
  {| cache := <[key := {| value := v; timestamp := now |}]> (cache c);
     ttl := ttl c |}.

Definition get (key : string) (now : Z) (c : t) : t * jsval :=
  match cache c !! key with
  | None => (c, null)
  | Some item =>
      if bool_decide (now - timestamp item > ttl c)%Z then
        ({| cache := delete key (cache c); ttl := ttl c |}, null)
      else (c, value item)
  end.

Definition clear (c : t) : t := {| cache := ∅; ttl := ttl c |}.

Definition cleanup (now : Z) (c : t) : t :=
  {| cache :=
       map_fold (λ key item m,
                   if bool_decide (now - timestamp item > ttl c)%Z
                   then delete key m else m)
                (cache c) (cache c);
     ttl := ttl c |}.

End DataCache.

(** ** Sets of callbacks (JavaScript [Set]) with live iteration

    A [Set] keeps its entries in insertion order; [delete] empties the slot
    of the entry and [forEach] walks the slots by index, skipping the empty
    ones, so that an entry deleted before it is reached is not visited. *)

(** A callback is identified by the function object. *)
Abbreviation handle := nat.

Module JSSet.

Abbreviation t := (list (option handle)).

Definition empty : t := [].

(** The entries, in insertion order. *)
Definition live (s : t) : list handle := omap (λ e, e) s.

Definition has (cb : handle) (s : t) : bool := bool_decide (cb ∈ live s).

Definition add (cb : handle) (s : t) : t :=
  if has cb s then s else s ++ [Some cb].

Definition delete (cb : handle) (s : t) : t :=
  (λ e, if decide (e = Some cb) then None else e) <$> s.

Definition size (s : t) : nat := length (live s).

End JSSet.

(** ** The subscription registry and the connectivity monitor *)

(** A change event of the push transport. *)
Inductive change_event :=
  | INSERT (new : object)
  | UPDATE (new : object)
  | DELETE (old : object).

(** The channel [subscribe] opens: its name and the options of [.on]. *)
Record channel := {
  channel_name : string;
  channel_table : string;
  channel_filter : option string
}.

(** [this.subscriptions] and [this.callbacks] of [RealtimeManager]. *)
Record manager := {
  subscriptions : gmap string channel;
  callbacks : gmap string JSSet.t
}.

(** [this.isOnline] and [this.callbacks] of [ConnectionMonitor]. *)
Record monitor := {
  isOnline : bool;
  statusCallbacks : JSSet.t
}.

(** What the registry and the monitor do to the outside: channels opened
    and closed on the transport, callbacks invoked, errors logged. *)
Inductive event :=
  | ChannelSubscribed (key : string) (ch : channel)
  | ChannelUnsubscribed (key : string)
  | Called (key : string) (cb : handle) (payload : change_event)
  | StatusCalled (cb : handle) (status : bool)
  | ConsoleError (msg : string) (e : error).

Record world := {
  realtimeManager : manager;
  connectionMonitor : monitor;
  console : list event
}.

Definition initial (online : bool) : world :=
  {| realtimeManager := {| subscriptions := ∅; callbacks := ∅ |};
     connectionMonitor := {| isOnline := online; statusCallbacks := [] |};
     console := [] |}.

Definition emit (ev : event) (w : world) : world :=
  {| realtimeManager := realtimeManager w;
     connectionMonitor := connectionMonitor w;
     console := console w ++ [ev] |}.

Definition with_manager (m : manager) (w : world) : world :=
  {| realtimeManager := m;
     connectionMonitor := connectionMonitor w;
     console := console w |}.

Definition with_monitor (m : monitor) (w : world) : world :=
  {| realtimeManager := realtimeManager w;
     connectionMonitor := m;
     console := console w |}.

(** What a callback does when it is invoked: it may call detach functions
    it holds, and then returns or throws.  A callback that subscribes from
    inside a delivery is not modelled: [Set.forEach] also visits the
    entries added while it runs, so that with such callbacks an iteration
    may call a callback twice, or one that was not registered when the
    event arrived, and need not end.  What follows is about callbacks that
    do not subscribe while they are being called, as those of the
    application, which only set state. *)
Inductive action :=
  | Detach (key : string) (cb : handle)
  | DetachStatus (cb : handle).

Record behaviour := {
  actions : list action;
  throws : option error
}.

Record callbacks_env := {
  on_change : handle → change_event → behaviour;
  on_status : handle → bool → behaviour
}.

(** The same callbacks, none of which throws. *)
Definition quiet (b : behaviour) : behaviour :=
  {| actions := actions b; throws := None |}.

Definition mute (env : callbacks_env) : callbacks_env :=
  {| on_change := λ cb p, quiet (on_change env cb p);
     on_status := λ cb s, quiet (on_status env cb s) |}.

Module RealtimeManager.

(** [filter || 'all'] and [filter && { filter }]: [null] and the empty
    string are falsy. *)
Definition truthy (filter : option string) : option string :=
  match filter with
  | Some s => if decide (s = "") then None else Some s
  | None => None
  end.

Definition subscriptionKey (table : string) (filter : option string)
  : string :=
  table +:+ "-" +:+ default "all" (truthy filter).

(** The function [subscribe] returns, for [subscriptionKey] and
    [callback]. *)
Definition unsubscribe (subscriptionKey : string) (callback : handle)
    (w : world) : world :=
  let m := realtimeManager w in
  let cbs := alter (JSSet.delete callback) subscriptionKey (callbacks m) in
  if bool_decide (JSSet.size <$> cbs !! subscriptionKey = Some 0) then
    let w' :=
      match subscriptions m !! subscriptionKey with
      | Some _ => emit (ChannelUnsubscribed subscriptionKey) w
      | None => w
      end in
    with_manager
      {| subscriptions := delete subscriptionKey (subscriptions m);
         callbacks := delete subscriptionKey cbs |} w'
  else
    with_manager {| subscriptions := subscriptions m; callbacks := cbs |} w.

(** [subscribe(table, callback, filter)]; the result is the world and
    the arguments of the returned unsubscribe function. *)
Definition subscribe (table : string) (callback : handle)
    (filter : option string) (w : world) : world * (string * handle) :=
  let m := realtimeManager w in
  let subscriptionKey := subscriptionKey table filter in
  let cbs0 :=
    match callbacks m !! subscriptionKey with
    | Some _ => callbacks m
    | None => <[subscriptionKey := JSSet.empty]> (callbacks m)
    end in
  let cbs := alter (JSSet.add callback) subscriptionKey cbs0 in
  match subscriptions m !! subscriptionKey with
  | Some _ =>
      (with_manager {| subscriptions := subscriptions m; callbacks := cbs |} w,
       (subscriptionKey, callback))
  | None =>
      let query :=
        {| channel_name := "realtime:" +:+ subscriptionKey;
           channel_table := table;
           channel_filter := truthy filter |} in
      (with_manager
         {| subscriptions := <[subscriptionKey := query]> (subscriptions m);
            callbacks := cbs |}
         (emit (ChannelSubscribed subscriptionKey query) w),
       (subscriptionKey, callback))
  end.

Definition subscribeToHabits (callback : handle) (userId : string) :=
  subscribe "habits" callback (Some ("user_id=eq." +:+ userId)).

Definition subscribeToHabitLogs (callback : handle) (userId : string) :=
  subscribe "habit_logs" callback (Some ("user_id=eq." +:+ userId)).

Definition subscribeToTodos (callback : handle) (userId : string) :=
  subscribe "todos" callback (Some ("user_id=eq." +:+ userId)).

(** [cleanup()]: every channel is closed, both maps are cleared.  (The
    channels are closed in the order of the finite map, not in insertion
    order.) *)
Definition cleanup (w : world) : world :=
  let m := realtimeManager w in
  with_manager {| subscriptions := ∅; callbacks := ∅ |}
    (foldl (λ w kc, emit (ChannelUnsubscribed kc.1) w) w
           (map_to_list (subscriptions m))).

End RealtimeManager.

Module ConnectionMonitor.

(** The function [subscribe] returns, for [callback]. *)
Definition unsubscribe (callback : handle) (w : world) : world :=
  let m := connectionMonitor w in
  with_monitor
    {| isOnline := isOnline m;
       statusCallbacks := JSSet.delete callback (statusCallbacks m) |} w.

Definition subscribe (callback : handle) (w : world) : world * handle :=
  let m := connectionMonitor w in
  (with_monitor
     {| isOnline := isOnline m;
        statusCallbacks := JSSet.add callback (statusCallbacks m) |} w,
   callback).

Definition getStatus (w : world) : bool := isOnline (connectionMonitor w).

End ConnectionMonitor.

(** ** Invoking callbacks *)

Definition run_action (w : world) (a : action) : world :=
  match a with
  | Detach key cb => RealtimeManager.unsubscribe key cb w
  | DetachStatus cb => ConnectionMonitor.unsubscribe cb w
  end.

(** A call of a callback: the call is recorded, the callback runs, and the
    call returns or throws. *)
Definition invoke (ev : event) (b : behaviour) (w : world)
  : world * outcome unit :=
  let w' := foldl run_action (emit ev w) (actions b) in
  match throws b with
  | Some e => (w', Throw e)
  | None => (w', Ok tt)
  end.

(** [try { body } catch (error) { handler(error) }] *)
Definition try_catch (body : world → world * outcome unit)
    (handler : error → world → world * outcome unit) (w : world)
  : world * outcome unit :=
  match body w with
  | (w', Throw e) => handler e w'
  | r => r
  end.

(** [console.error(msg, error)] *)
Definition console_error (msg : string) (e : error) (w : world)
  : world * outcome unit :=
  (emit (ConsoleError msg e) w, Ok tt).

(** [set.forEach(f)] from slot [i], with [n] slots left.  The set is read
    again at every step ([read]), so deletions made by [f] are seen; a set
    whose key has been dropped from the registry has only empty slots.
    An exception of [f] ends the iteration and propagates. *)
Fixpoint forEach_from (n i : nat) (read : world → option JSSet.t)
    (f : handle → world → world * outcome unit) (w : world)
  : world * outcome unit :=
  match n with
  | 0 => (w, Ok tt)
  | S n' =>
      match read w ≫= (λ s, s !! i) with
      | Some (Some cb) =>
          match f cb w with
          | (w', Ok _) => forEach_from n' (S i) read f w'
          | (w', Throw e) => (w', Throw e)
          end
      | _ => forEach_from n' (S i) read f w
      end
  end.

Section delivery.
Variable env : callbacks_env.

(** The body of the handler's [forEach] in [RealtimeManager.subscribe]. *)
Definition notify (subscriptionKey : string) (payload : change_event)
    (cb : handle) : world → world * outcome unit :=
  try_catch
    (invoke (Called subscriptionKey cb payload) (on_change env cb payload))
    (console_error "Realtime callback error:").

Definition registry_set (subscriptionKey : string) (w : world)
  : option JSSet.t :=
  callbacks (realtimeManager w) !! subscriptionKey.

(** The handler registered with [.on('postgres_changes', ...)] for
    [subscriptionKey], called by the transport with [payload]. *)
Definition handler (subscriptionKey : string) (payload : change_event)
    (w : world) : world * outcome unit :=
  match registry_set subscriptionKey w with
  | Some s =>
      forEach_from (length s) 0 (registry_set subscriptionKey)
        (notify subscriptionKey payload) w
  | None => (w, Ok tt)
  end.

(** The body of the [forEach] in [ConnectionMonitor.setOnlineStatus]. *)
Definition notify_status (status : bool) (cb : handle)
  : world → world * outcome unit :=
  try_catch
    (invoke (StatusCalled cb status) (on_status env cb status))
    (console_error "Connection status callback error:").

Definition monitor_set (w : world) : option JSSet.t :=
  Some (statusCallbacks (connectionMonitor w)).

Definition setOnlineStatus (status : bool) (w : world)
  : world * outcome unit :=
  let m := connectionMonitor w in
  let w1 :=
    with_monitor
      {| isOnline := status; statusCallbacks := statusCallbacks m |} w in
  forEach_from (length (statusCallbacks m)) 0 monitor_set
    (notify_status status) w1.

(** Histories of the registry and the monitor, as the application and
    the platform drive them. *)
Inductive op :=
  | Subscribe (table : string) (cb : handle) (filter : option string)
  | Unsubscribe (key : string) (cb : handle)
  | ChangeArrives (key : string) (payload : change_event)
  | Cleanup
  | StatusSubscribe (cb : handle)
  | StatusUnsubscribe (cb : handle)
  | Connectivity (status : bool).

Definition step (w : world) (o : op) : world :=
  match o with
  | Subscribe table cb filter => (RealtimeManager.subscribe table cb filter w).1
  | Unsubscribe key cb => RealtimeManager.unsubscribe key cb w
  | ChangeArrives key payload => (handler key payload w).1
  | Cleanup => RealtimeManager.cleanup w
  | StatusSubscribe cb => (ConnectionMonitor.subscribe cb w).1
  | StatusUnsubscribe cb => ConnectionMonitor.unsubscribe cb w
  | Connectivity status => (setOnlineStatus status w).1
  end.

Definition run (ops : list op) (w : world) : world := foldl step w ops.
End delivery.

(** ** Reading the record of effects *)

Definition is_call (key : string) (cb : handle) (ev : event) : bool :=
  match ev with
  | Called k c _ => bool_decide (k = key ∧ c = cb)
  | _ => false
  end.

(** How often [cb] was invoked for an event of [key]. *)
Definition calls (key : string) (cb : handle) (tr : list event) : nat :=
  length (filter (λ ev, is_call key cb ev) tr).

(** The callbacks invoked, in order: for change events of a key, and for
    connectivity transitions. *)
Definition called (tr : list event) : list (string * handle) :=
  omap (λ ev, match ev with Called k c _ => Some (k, c) | _ => None end) tr.

Definition status_called (tr : list event) : list handle :=
  omap (λ ev, match ev with StatusCalled c _ => Some c | _ => None end) tr.

Definition errors_logged (tr : list event) : list error :=
  omap (λ ev, match ev with ConsoleError _ e => Some e | _ => None end) tr.

(** Channels opened and closed for a key. *)
Definition is_open (key : string) (ev : event) : bool :=
  match ev with
  | ChannelSubscribed k _ => bool_decide (k = key)
  | _ => false
  end.

Definition is_close (key : string) (ev : event) : bool :=
  match ev with
  | ChannelUnsubscribed k => bool_decide (k = key)
  | _ => false
  end.

Definition opened (key : string) (tr : list event) : nat :=
  length (filter (λ ev, is_open key ev) tr).

Definition closed (key : string) (tr : list event) : nat :=
  length (filter (λ ev, is_close key ev) tr).



(** ** The projection loops read as functions on the array contents

    What one iteration of the loops of [applyToHabits], [applyToHabitLogs]
    and [applyToTodos] does to the contents of [result]; the lemmas below
    show that the loops in the store compute exactly this. *)

Definition supports_update (c : entity_class) : bool :=
  match c with
  | HabitLog => false
  | _ => true
  end.

Definition id_test (u : OptimisticUpdates.update) (h : elem) : outcome bool :=
  match get_prop h "id" with
  | Ok v => Ok (strict_eq v (OptimisticUpdates.id u))
  | Throw err => Throw err
  end.

Definition log_test (u : OptimisticUpdates.update) (log : elem)
  : outcome bool :=
  match get_prop log "habit_id" with
  | Ok v =>
      if strict_eq v (OptimisticUpdates.habitId u) then
        match get_prop log "log_date" with
        | Ok d => Ok (strict_eq d (OptimisticUpdates.logDate u))
        | Throw err => Throw err
        end
      else Ok false
  | Throw err => Throw err
  end.

Definition identity_test (c : entity_class) (u : OptimisticUpdates.update)
  : elem → outcome bool :=
  match c with
  | HabitLog => log_test u
  | _ => id_test u
  end.

Definition apply_one (c : entity_class) (u : OptimisticUpdates.update)
    (l : list elem) : outcome (list elem) :=
  if strict_eq (OptimisticUpdates.type u) (class_tag c) then
    if strict_eq (OptimisticUpdates.operation u) (VStr "add") then
      Ok (l ++ [OptimisticUpdates.data u])
    else if strict_eq (OptimisticUpdates.operation u) (VStr "delete") then
      match findIndex_from 0 (identity_test c u) l with
      | Ok index =>
          Ok (if bool_decide (index ≠ (-1)%Z)
              then delete (Z.to_nat index) l else l)
      | Throw err => Throw err
      end
    else if supports_update c
            && strict_eq (OptimisticUpdates.operation u) (VStr "update") then
      match findIndex_from 0 (id_test u) l with
      | Ok index =>
          Ok (if bool_decide (index ≠ (-1)%Z)
              then <[Z.to_nat index :=
                       Some (spread (default None (l !! Z.to_nat index))
                                    (OptimisticUpdates.data u))]> l
              else l)
      | Throw err => Throw err
      end
    else Ok l
  else Ok l.

(** The steps in order, until one throws: the contents reached, and how the
    loop ended. *)
Fixpoint run_steps {A} (stepf : A → list elem → outcome (list elem))
    (es : list A) (l : list elem) : list elem * outcome unit :=
  match es with
  | [] => (l, Ok tt)
  | e :: es' =>
      match stepf e l with
      | Ok l' => run_steps stepf es' l'
      | Throw err => (l, Throw err)
      end
  end.

Definition apply_all (c : entity_class) (ledger : OptimisticUpdates.t)
    (l : list elem) : list elem * outcome unit :=
  run_steps (λ e : string * OptimisticUpdates.update, apply_one c e.2) ledger l.

(** What a projection returns on a store, given the loop's reading. *)
Definition projection_result (c : entity_class) (ledger : OptimisticUpdates.t)
    (base : loc) (h : store) : store * outcome loc :=
  match h !! base with
  | None => (h, Throw (TypeError "object is not iterable"))
  | Some l =>
      let r := fresh (dom h) in
      (<[r := (apply_all c ledger l).1]> h,
       match (apply_all c ledger l).2 with
       | Ok _ => Ok r
       | Throw err => Throw err
       end)
  end.

(** Two projections in a row, the second on the store the first left: the
    base array reads the same, both end the same way, and when they return
    the two results are distinct arrays with equal contents. *)
Definition repeatable (project : loc → M loc) (base : loc) (h : store)
  : Prop :=
  let first := project base h in
  let second := project base first.1 in
  second.1 !! base = h !! base ∧
  match first.2, second.2 with
  | Ok r1, Ok r2 =>
      r1 ≠ r2 ∧ is_Some (first.1 !! r1) ∧
      second.1 !! r2 = first.1 !! r1 ∧ second.1 !! r1 = first.1 !! r1
  | Throw e1, Throw e2 => e1 = e2
  | _, _ => False
  end.

(** ** Sample data *)

Module Sample.
Import OptimisticUpdates.

Definition pending (ty op : string) (target : value) (payload : elem)
  : update :=
  {| type := VStr ty; operation := VStr op; id := target;
     habitId := VUndef; logDate := VUndef; data := payload;
     timestamp := 0 |}.

Definition read : object := {[ "id" := VNum 1; "name" := VStr "Read" ]}.
Definition run : object := {[ "id" := VNum 2; "name" := VStr "Run" ]}.
Definition write : object :=
  {[ "id" := VStr "temp-1"; "name" := VStr "Write" ]}.

Definition habits : list object := [read; run].

Definition habit_store : store := {[ 0 := Some <$> habits ]}.

(** Delete habit 1, rename habit 2, add a temporary habit. *)
Definition ledger : t :=
  addPendingUpdate "temp-1" (pending "habit" "add" VUndef (Some write)) 30
    (addPendingUpdate "habit-2"
       (pending "habit" "update" (VNum 2) (Some {[ "name" := VStr "Walk" ]}))
       20
       (addPendingUpdate "delete-1"
          (pending "habit" "delete" (VNum 1) None) 10 JSMap.empty)).

Definition log : object :=
  {[ "id" := VNum 1; "habit_id" := VNum 7;
     "log_date" := VStr "2024-01-01"; "completed" := VBool false ]}.

Definition log_store : store := {[ 0 := [Some log] ]}.

(** A pending update of a habit log. *)
Definition log_ledger : t :=
  addPendingUpdate "log-1"
    (pending "habitLog" "update" (VNum 1)
       (Some {[ "completed" := VBool true ]}))
    10 JSMap.empty.
End Sample.

(** ** Consistency of the registry, and what the console shows *)

(** For every key: a channel is recorded exactly when callbacks are, a
    recorded set of callbacks is not empty, and the channels opened for the
    key exceed those closed by one when a channel is recorded and by none
    otherwise. *)
Definition registry_consistent (w : world) : Prop :=
  ∀ key,
    (subscriptions (realtimeManager w) !! key = None
     ↔ callbacks (realtimeManager w) !! key = None)
    ∧ (∀ s, callbacks (realtimeManager w) !! key = Some s → 0 < JSSet.size s)
    ∧ opened key (console w)
      = closed key (console w)
        + (if subscriptions (realtimeManager w) !! key is Some _ then 1 else 0).

Definition is_error (ev : event) : bool :=
  match ev with
  | ConsoleError _ _ => true
  | _ => false
  end.

(** The console without the logged errors. *)
Definition without_errors (tr : list event) : list event :=
  filter (λ ev, ¬ is_error ev) tr.

(** The exceptions thrown by the calls the console records, in order. *)
Definition thrown (env : callbacks_env) (tr : list event) : list error :=
  omap (λ ev, match ev with
              | Called _ cb payload => throws (on_change env cb payload)
              | StatusCalled cb status => throws (on_status env cb status)
              | _ => None
              end) tr.

(** The same callbacks, none of which calls a detach function. *)
Definition passive (env : callbacks_env) : callbacks_env :=
  {| on_change := λ cb p,
       {| actions := []; throws := throws (on_change env cb p) |};
     on_status := λ cb s,
       {| actions := []; throws := throws (on_status env cb s) |} |}.

(** One call per callback, each followed by the log of its exception. *)
Definition deliveries (env : callbacks_env) (key : string)
    (payload : change_event) (cbs : list handle) : list event :=
  cb ← cbs;
  Called key cb payload ::
    match throws (on_change env cb payload) with
    | Some e => [ConsoleError "Realtime callback error:" e]
    | None => []
    end.

Definition status_deliveries (env : callbacks_env) (status : bool)
    (cbs : list handle) : list event :=
  cb ← cbs;
  StatusCalled cb status ::
    match throws (on_status env cb status) with
    | Some e => [ConsoleError "Connection status callback error:" e]
    | None => []
    end.

(** The events a detach function can cause: channels being closed. *)
Definition only_closes (evs : list event) : Prop :=
  Forall (λ ev, match ev with ChannelUnsubscribed _ => True | _ => False end)
         evs.

(** Several callbacks subscribed to one table and filter, one after the
    other, and several unsubscribe functions of a key called in a row. *)
Definition subscribe_all (table : string) (filter : option string)
    (cbs : list handle) (w : world) : world :=
  foldl (λ w cb, (RealtimeManager.subscribe table cb filter w).1) w cbs.

Definition unsubscribe_all (key : string) (cbs : list handle) (w : world)
  : world :=
  foldl (λ w cb, RealtimeManager.unsubscribe key cb w) w cbs.

Module SampleRegistry.
(** The key of the habits of user [u1]. *)
Definition key : string :=
  RealtimeManager.subscriptionKey "habits" (Some "user_id=eq.u1").

(** Callback 1 throws; callback 2 detaches callback 3 when it is called;
    the others just return. *)
Definition env : callbacks_env :=
  {| on_change := λ cb _,
       match cb with
       | 1 => {| actions := []; throws := Some (TypeError "boom") |}
       | 2 => {| actions := [Detach key 3]; throws := None |}
       | _ => {| actions := []; throws := None |}
       end;
     on_status := λ cb _,
       match cb with
       | 1 => {| actions := []; throws := Some (TypeError "boom") |}
       | _ => {| actions := []; throws := None |}
       end |}.

(** Callbacks 1, 2, 3 subscribed to the habits of [u1] and to the
    connectivity monitor. *)
Definition subscribed : world :=
  run env
    [Subscribe "habits" 1 (Some "user_id=eq.u1");
     Subscribe "habits" 2 (Some "user_id=eq.u1");
     Subscribe "habits" 3 (Some "user_id=eq.u1");
     StatusSubscribe 1; StatusSubscribe 2; StatusSubscribe 3]
    (initial true).

Definition inserted : change_event := INSERT Sample.read.
End SampleRegistry.

(** [cb] is not registered under [key], and has been called [n] times for
    events of [key]. *)
Definition detached (key : string) (cb : handle) (n : nat) (w : world)
  : Prop :=
  (cb ∉ JSSet.live (default [] (callbacks (realtimeManager w) !! key)))
  ∧ calls key cb (console w) = n.

(** Two worlds that differ at most in the errors logged. *)
Definition same_but_errors (w1 w2 : world) : Prop :=
  realtimeManager w1 = realtimeManager w2
  ∧ connectionMonitor w1 = connectionMonitor w2
  ∧ without_errors (console w1) = without_errors (console w2).

(** Every exception thrown by a recorded call has been logged, and nothing
    else has: the errors on the console are the exceptions of the calls,
    in order. *)
Definition errors_accounted (env : callbacks_env) (w : world) : Prop :=
  errors_logged (console w) = thrown env (console w).

(** [w] with more events on its console. *)
Definition log_all (evs : list event) (w : world) : world :=
  {| realtimeManager := realtimeManager w;
     connectionMonitor := connectionMonitor w;
     console := console w ++ evs |}.

(** ** The observers of a key, as the specification words them

    The specification speaks of the set of observers of a key: a subscribe
    call adds its callback, an unsubscribe call removes it, and callbacks
    are told apart by identity, so that subscribing one that is present
    adds nothing.  The set is followed here along a history of calls of
    the registry, with no reference to the maps of the registry. *)

Definition observe (key : string) (s : list handle) (o : op) : list handle :=
  match o with
  | Subscribe table cb filter =>
      if decide (RealtimeManager.subscriptionKey table filter = key) then
        if decide (cb ∈ s) then s else s ++ [cb]
      else s
  | Unsubscribe k cb =>
      if decide (k = key) then filter (λ c, c ≠ cb) s else s
  | Cleanup => []
  | _ => s
  end.

Definition observers (key : string) (ops : list op) : list handle :=
  foldl (observe key) [] ops.

(** A call of the registry or of the monitor by the application: no event
    is delivered, so no callback runs. *)
Definition is_registry_call (o : op) : Prop :=
  match o with
  | ChangeArrives _ _ | Connectivity _ => False
  | _ => True
  end.

(** How often the set of observers of [key] becomes non-empty, and how
    often it becomes empty, along a history that starts with the
    observers [s]. *)
Fixpoint becomes_nonempty (key : string) (s : list handle) (ops : list op)
  : nat :=
  match ops with
  | [] => 0
  | o :: ops' =>
      (if bool_decide (s = [] ∧ observe key s o ≠ []) then 1 else 0)
      + becomes_nonempty key (observe key s o) ops'
  end.

Fixpoint becomes_empty (key : string) (s : list handle) (ops : list op)
  : nat :=
  match ops with
  | [] => 0
  | o :: ops' =>
      (if bool_decide (s ≠ [] ∧ observe key s o = []) then 1 else 0)
      + becomes_empty key (observe key s o) ops'
  end.

(** The set of observers is not empty after any call of a history that
    starts with the observers [s]. *)
Fixpoint stays_nonempty (key : string) (s : list handle) (ops : list op)
  : Prop :=
  match ops with
  | [] => True
  | o :: ops' =>
      observe key s o ≠ [] ∧ stays_nonempty key (observe key s o) ops'
  end.

(** The callbacks registered under [key] in a state of the registry, in
    insertion order, and whether there is any. *)
Definition registered (key : string) (w : world) : list handle :=
  JSSet.live (default [] (callbacks (realtimeManager w) !! key)).

Definition has_observers (key : string) (w : world) : bool :=
  bool_decide (registered key w ≠ []).

(** The call recorded by [ev] runs the unsubscribe function of [cb] for
    [key]: a callback called for a change event, or for a connectivity
    transition, that detaches [cb] among what it does. *)
Definition detaches (env : callbacks_env) (key : string) (cb : handle)
    (ev : event) : Prop :=
  match ev with
  | Called k c payload => Detach key cb ∈ actions (on_change env c payload)
  | StatusCalled c status => Detach key cb ∈ actions (on_status env c status)
  | _ => False
  end.

(** From [w] to [w'] the console has grown, and the unsubscribe function
    of [cb] for [key] has been respected: a callback that was out of the
    set of [key] has stayed out and has not been called, and after a call
    that detaches [cb] there is no call of [cb] for [key], [cb] being out
    of the set at the end. *)
Definition detach_respected (env : callbacks_env) (key : string)
    (cb : handle) (w w' : world) : Prop :=
  ∃ evs, console w' = console w ++ evs
    ∧ (cb ∉ registered key w →
       calls key cb evs = 0 ∧ cb ∉ registered key w')
    ∧ (∀ e1 ev e2, evs = e1 ++ ev :: e2 → detaches env key cb ev →
       calls key cb e2 = 0 ∧ cb ∉ registered key w').

(** ** More of the ledger *)

(** The projection of a class. *)
Definition applyTo (c : entity_class)
  : OptimisticUpdates.t → loc → M loc :=
  match c with
  | Habit => OptimisticUpdates.applyToHabits
  | HabitLog => OptimisticUpdates.applyToHabitLogs
  | Todo => OptimisticUpdates.applyToTodos
  end.

(** The projection returns a new array holding the records [recs]. *)
Definition projects_to (c : entity_class) (ledger : OptimisticUpdates.t)
    (base : loc) (h : store) (recs : list object) : Prop :=
  applyTo c ledger base h
  = (<[fresh (dom h) := Some <$> recs]> h, Ok (fresh (dom h))).

(** The entries of a class. *)
Definition of_class (c : entity_class) (ledger : OptimisticUpdates.t)
  : OptimisticUpdates.t :=
  filter (λ e : string * OptimisticUpdates.update,
            OptimisticUpdates.type e.2 = class_tag c) ledger.

(** The update scans the array for a record: a [delete], or an [update] of
    a class that applies updates. *)
Definition scans (c : entity_class) (u : OptimisticUpdates.update) : Prop :=
  OptimisticUpdates.operation u = VStr "delete"
  ∨ (supports_update c = true ∧ OptimisticUpdates.operation u = VStr "update").

(** The record the update looks for: by identity for a [delete], by target
    id for an [update]. *)
Definition targets (c : entity_class) (u : OptimisticUpdates.update)
    (r : object) : bool :=
  if bool_decide (OptimisticUpdates.operation u = VStr "delete")
  then has_identity c u r else has_target_id u r.

Module SampleMore.
(** What the sample ledger makes of the sample habits. *)
Definition projected : list object :=
  [ <["name" := VStr "Walk"]> Sample.run; Sample.write ].

Definition swim : object := {[ "id" := VNum 9; "name" := VStr "Swim" ]}.
End SampleMore.

(** ** More of the registry and the monitor *)

(** No callback occurs twice in a set: in the sets of the registry and in
    the set of the monitor. *)
Definition sets_nodup (w : world) : Prop :=
  (∀ key s, callbacks (realtimeManager w) !! key = Some s →
            NoDup (JSSet.live s))
  ∧ NoDup (JSSet.live (statusCallbacks (connectionMonitor w))).

(** [s] is [s0] with some more slots emptied. *)
Definition shrunk (s s0 : JSSet.t) : Prop :=
  length s = length s0 ∧ ∀ j, s !! j = s0 !! j ∨ s !! j = Some None.

Definition is_status_call (cb : handle) (ev : event) : bool :=
  match ev with
  | StatusCalled c _ => bool_decide (c = cb)
  | _ => false
  end.

(** How often [cb] was told of a connectivity transition. *)
Definition status_calls (cb : handle) (tr : list event) : nat :=
  length (filter (λ ev, is_status_call cb ev) tr).

(** [cb] is not registered with the monitor, and has been called [n]
    times. *)
Definition status_detached (cb : handle) (n : nat) (w : world) : Prop :=
  (cb ∉ JSSet.live (statusCallbacks (connectionMonitor w)))
  ∧ status_calls cb (console w) = n.

(** The channel a helper subscription opens for a user. *)
Definition user_channel (table userId : string) : channel :=
  {| channel_name :=
       "realtime:" +:+ RealtimeManager.subscriptionKey table
                         (Some ("user_id=eq." +:+ userId));
     channel_table := table;
     channel_filter := Some ("user_id=eq." +:+ userId) |}.

Definition user_key (table userId : string) : string :=
  RealtimeManager.subscriptionKey table (Some ("user_id=eq." +:+ userId)).

(** ** Timers: [debounce] and [throttle]

    The host keeps the pending timers: [setTimeout] adds one, due after the
    delay (a negative delay counts as none), [clearTimeout] drops it, and
    the host runs a pending timer once, at some time not before it is due
    and never while a function is running.  A history is a list of
    events, each with the time at which it happens.  The calls of the
    wrapped function [func] are recorded with their time and arguments.

    For a debounced function the events are the calls of the wrapper and
    the timers the host runs.  [func] is the last thing the timer does, so
    that nothing of the wrapper depends on how [func] ends; a call of the
    wrapper by [func] itself is a call of the wrapper right after the
    timer. *)

Inductive timer_event (A : Type) :=
  | Invoke (now : Z) (args : A)
  | TimerRuns (now : Z) (id : nat).
Arguments Invoke {A} now args.
Arguments TimerRuns {A} now id.

(** The calls of the wrapper in a history, with their times. *)
Definition invocations {A} (tr : list (timer_event A)) : list (Z * A) :=
  omap (λ ev, match ev with
              | Invoke now args => Some (now, args)
              | TimerRuns _ _ => None
              end) tr.

(** [clearTimeout(id)]; clearing [undefined] does nothing. *)
Definition clearTimeout {T} (id : option nat) (timers : gmap nat T)
  : gmap nat T :=
  match id with
  | Some i => delete i timers
  | None => timers
  end.

Module Debounce.
Section debounce.
Context {A : Type}.
Variable wait : Z.

(** The variable [timeout] of the closure, the timers of the host (due
    time and the arguments [later] has captured), and the calls of
    [func]. *)
Record state := {
  timeout : option nat;
  timers : gmap nat (Z * A);
  next_id : nat;
  funcCalls : list (Z * A)
}.

Definition initial : state :=
  {| timeout := None; timers := ∅; next_id := 0; funcCalls := [] |}.

(** [executedFunction(...args)] at time [now]. *)
Definition executedFunction (now : Z) (args : A) (st : state) : state :=
  let id := next_id st in
  {| timeout := Some id;
     timers := <[id := ((now + Z.max 0 wait)%Z, args)]>
                 (clearTimeout (timeout st) (timers st));
     next_id := S id;
     funcCalls := funcCalls st |}.

(** The host runs timer [id] at time [now]: [later] clears [timeout] and
    calls [func] with the arguments it has captured. *)
Definition later (now : Z) (id : nat) (st : state) : state :=
  match timers st !! id with
  | Some (due, args) =>
      if bool_decide (due ≤ now)%Z then
        {| timeout := timeout st;
           timers := clearTimeout (timeout st) (delete id (timers st));
           next_id := next_id st;
           funcCalls := funcCalls st ++ [(now, args)] |}
      else st
  | None => st
  end.

Definition step (st : state) (ev : timer_event A) : state :=
  match ev with
  | Invoke now args => executedFunction now args st
  | TimerRuns now id => later now id st
  end.

Definition run (tr : list (timer_event A)) : state := foldl step initial tr.
End debounce.
End Debounce.

(** What holds after every history of a debounced function: the only timer
    that can be pending is the one [timeout] names, it carries the time and
    the arguments of the last call of the wrapper, and timers are numbered
    by the calls. *)
Definition debounce_inv {A} (wait : Z) (tr : list (timer_event A))
    (st : Debounce.state (A:=A)) : Prop :=
  Debounce.next_id st = length (invocations tr)
  ∧ (∀ id, Debounce.timeout st = Some id → id < Debounce.next_id st)
  ∧ (∀ id due args, Debounce.timers st !! id = Some (due, args) →
       Debounce.timeout st = Some id
       ∧ ∃ t0, last (invocations tr) = Some (t0, args)
               ∧ due = (t0 + Z.max 0 wait)%Z).

Module Throttle.

(** What happens to a throttled function: the wrapper is called, by the
    application or by [func] while it runs; the call of [func] that is
    under way ends, returning or throwing; or the host runs a timer. *)
Inductive event (A : Type) :=
  | Call (now : Z) (args : A)
  | Ends (now : Z) (throws : bool)
  | TimerRuns (now : Z) (id : nat).
Arguments Call {A} now args.
Arguments Ends {A} now throws.
Arguments TimerRuns {A} now id.

Definition time {A} (ev : event A) : Z :=
  match ev with
  | Call now _ => now
  | Ends now _ => now
  | TimerRuns now _ => now
  end.

(** The calls of the wrapper in a history, with their times. *)
Definition wrapper_calls {A} (tr : list (event A)) : list (Z * A) :=
  omap (λ ev, match ev with
              | Call now args => Some (now, args)
              | _ => None
              end) tr.

(** [func] never throws. *)
Definition func_returns {A} (tr : list (event A)) : Prop :=
  Forall (λ ev, match ev with Ends _ true => False | _ => True end) tr.

Section throttle.
Context {A : Type}.
Variable limit : Z.

(** The variable [inThrottle] of the closure ([undefined] at first, which
    is falsy), the timers of the host with their due times, the calls of
    [func], and how many of them are under way. *)
Record state := {
  inThrottle : bool;
  timers : gmap nat Z;
  next_id : nat;
  funcCalls : list (Z * A);
  running : nat
}.

Definition initial : state :=
  {| inThrottle := false; timers := ∅; next_id := 0; funcCalls := [];
     running := 0 |}.

(** The returned function is called with [args] at time [now]: unless
    [inThrottle] is set, [func] is called. *)
Definition called (now : Z) (args : A) (st : state) : state :=
  if inThrottle st then st
  else
    {| inThrottle := inThrottle st;
       timers := timers st;
       next_id := next_id st;
       funcCalls := funcCalls st ++ [(now, args)];
       running := S (running st) |}.

(** The innermost call of [func] under way ends at time [now].  When it
    returns, the wrapper that called it goes on: [inThrottle = true] and
    [setTimeout(..., limit)].  When it throws, the exception leaves the
    wrapper, which does neither. *)
Definition ended (now : Z) (throws : bool) (st : state) : state :=
  match running st with
  | 0 => st
  | S n =>
      if throws then
        {| inThrottle := inThrottle st;
           timers := timers st;
           next_id := next_id st;
           funcCalls := funcCalls st;
           running := n |}
      else
        {| inThrottle := true;
           timers := <[next_id st := (now + Z.max 0 limit)%Z]> (timers st);
           next_id := S (next_id st);
           funcCalls := funcCalls st;
           running := n |}
  end.

(** The host runs timer [id] at time [now], no call of [func] being
    under way: [inThrottle = false]. *)
Definition release (now : Z) (id : nat) (st : state) : state :=
  match running st with
  | 0 =>
      match timers st !! id with
      | Some due =>
          if bool_decide (due ≤ now)%Z then
            {| inThrottle := false;
               timers := delete id (timers st);
               next_id := next_id st;
               funcCalls := funcCalls st;
               running := 0 |}
          else st
      | None => st
      end
  | S _ => st
  end.

Definition step (st : state) (ev : event A) : state :=
  match ev with
  | Call now args => called now args st
  | Ends now throws => ended now throws st
  | TimerRuns now id => release now id st
  end.

Definition run (tr : list (event A)) : state := foldl step initial tr.

(** The wrapper is not called while [func] runs: [func] does not call it. *)
Fixpoint not_reentered_from (st : state) (tr : list (event A)) : Prop :=
  match tr with
  | [] => True
  | ev :: tr' =>
      match ev with
      | Call _ _ => running st = 0
      | _ => True
      end
      ∧ not_reentered_from (step st ev) tr'
  end.

Definition not_reentered (tr : list (event A)) : Prop :=
  not_reentered_from initial tr.
End throttle.
End Throttle.

(** What holds after every history of a throttled function whose [func]
    returns and does not call the wrapper: at most one call of [func] is
    under way, with [inThrottle] not set and no timer pending; when none
    is and [inThrottle] is set, exactly one timer is pending, due [limit]
    after the last call of [func] has returned; when none is and
    [inThrottle] is not set, no timer is pending and some event has
    happened [limit] after the last call of [func] or later. *)
Definition throttle_inv {A} (limit : Z) (tr : list (Throttle.event A))
    (st : Throttle.state (A:=A)) : Prop :=
  match Throttle.running st with
  | 0 =>
      if Throttle.inThrottle st then
        ∃ id t', Throttle.timers st = {[id := (t' + Z.max 0 limit)%Z]}
                 ∧ ∀ t a, last (Throttle.funcCalls st) = Some (t, a) →
                          (t ≤ t')%Z
      else
        Throttle.timers st = ∅
        ∧ ∀ t a, last (Throttle.funcCalls st) = Some (t, a) →
                 ∃ e, e ∈ tr ∧ (t + Z.max 0 limit ≤ Throttle.time e)%Z
  | 1 =>
      Throttle.inThrottle st = false
      ∧ Throttle.timers st = ∅
      ∧ ∀ t a, last (Throttle.funcCalls st) = Some (t, a) →
               ∃ e, e ∈ tr ∧ (t ≤ Throttle.time e)%Z
  | _ => False
  end.

(** The times of a history do not go back. *)
Definition clock_monotone {A} (tr : list (Throttle.event A)) : Prop :=
  ∀ i j ei ej, i ≤ j → tr !! i = Some ei → tr !! j = Some ej →
               (Throttle.time ei ≤ Throttle.time ej)%Z.

(** Consecutive entries are at least [gap] apart in time. *)
Fixpoint spaced {A} (gap : Z) (l : list (Z * A)) : Prop :=
  match l with
  | [] => True
  | (t1, _) :: l' =>
      match l' with
      | [] => True
      | (t2, _) :: _ => (t1 + gap ≤ t2)%Z ∧ spaced gap l'
      end
  end.
(** ** The component [Tracker]: the callers of the module

    The lists [habits], [tasks] and [habitLogs] of the component are React
    state; each [setX(prev => ...)] is the function of the previous list
    given here.  The rows of the lists are records.  An action handler
    that awaits the database is given by its updaters, in the order in
    which it queues them; the guards it starts with (a signed-in user, a
    name that is not blank and not too long) are taken to have passed. *)

Module Tracker.

(** Truthiness of a primitive. *)
Definition truthy_value (v : value) : bool :=
  match v with
  | VUndef | VNull => false
  | VBool b => b
  | VNum n => negb (n =? 0)%Z
  | VStr s => negb (bool_decide (s = ""))
  end.

(** [a || b]. *)
Definition or_else (a b : value) : value := if truthy_value a then a else b.

(** [{ ...task, name: task.title || task.name || fallback }]. *)
Definition withName (fallback : value) (task : object) : object :=
  <["name" := or_else (or_else (prop task "title") (prop task "name"))
                fallback]> task.

(** [payload.new] or [payload.old], whichever the event carries. *)
Definition payload_record (payload : change_event) : object :=
  match payload with
  | INSERT new => new
  | UPDATE new => new
  | DELETE old => old
  end.

(** [prev.map(h => h.id === id ? r : h)]. *)
Definition replace_id (id : value) (r : object) (prev : list object)
  : list object :=
  (λ h, if strict_eq (prop h "id") id then r else h) <$> prev.

(** [prev.filter(h => h.id !== id)]. *)
Definition remove_id (id : value) (prev : list object) : list object :=
  filter (λ h, prop h "id" ≠ id) prev.

(** The callback given to [subscribeToHabits]. *)
Definition onHabits (payload : change_event) (prev : list object)
  : list object :=
  match payload with
  | INSERT new => prev ++ [new]
  | UPDATE new => replace_id (prop new "id") new prev
  | DELETE old => remove_id (prop old "id") prev
  end.

(** [log.habit_id === habitId && log.log_date === logDate]. *)
Definition same_log (habitId logDate : value) (log : object) : Prop :=
  prop log "habit_id" = habitId ∧ prop log "log_date" = logDate.

#[global] Instance same_log_dec habitId logDate log :
  Decision (same_log habitId logDate log).
Proof. unfold same_log. apply _. Defined.

(** The callback given to [subscribeToHabitLogs]; an update event is not
    handled. *)
Definition onHabitLogs (payload : change_event) (prev : list object)
  : list object :=
  match payload with
  | INSERT new => prev ++ [new]
  | UPDATE _ => prev
  | DELETE old =>
      filter (λ log, ¬ same_log (prop old "habit_id") (prop old "log_date")
                       log) prev
  end.

(** The callback given to [subscribeToTodos]. *)
Definition onTodos (payload : change_event) (prev : list object)
  : list object :=
  match payload with
  | INSERT new => prev ++ [withName (VStr "") new]
  | UPDATE new => replace_id (prop new "id") (withName (VStr "") new) prev
  | DELETE old => remove_id (prop old "id") prev
  end.

(** The realtime events of a table, applied in the order they arrive. *)
Definition deliver (on : change_event → list object → list object)
    (evs : list change_event) (prev : list object) : list object :=
  foldl (λ s ev, on ev s) prev evs.

(** *** [addHabit] *)

Definition tempHabit (tempId name userId : string) : object :=
  {[ "id" := VStr tempId; "name" := VStr name; "user_id" := VStr userId ]}.

(** Before the database is asked. *)
Definition addHabit_optimistic (tempHabit : object) (prev : list object)
  : list object :=
  prev ++ [tempHabit].

(** After [dbAddHabit] has settled: with the new row, or rejected. *)
Definition addHabit_settled (tempId : string) (result : option object)
    (prev : list object) : list object :=
  match result with
  | Some newHabit => replace_id (VStr tempId) newHabit prev
  | None => remove_id (VStr tempId) prev
  end.

(** *** [deleteHabit] *)

(** [habits.find(h => h.id === id)]. *)
Definition find_id (id : value) (habits : list object) : option object :=
  snd <$> list_find (λ h, prop h "id" = id) habits.

Definition deleteHabit_optimistic (id : value) (prev : list object)
  : list object :=
  remove_id id prev.

(** After [dbDeleteHabit] has been rejected. *)
Definition deleteHabit_rollback (habitToDelete : object)
    (prev : list object) : list object :=
  prev ++ [habitToDelete].

(** *** [toggleTask] *)

(** [{ ...t, completed: !t.completed }]. *)
Definition flipped (t : object) : object :=
  <["completed" := VBool (negb (truthy_value (prop t "completed")))]> t.

(** The updater of [toggleTask], queued before the database is asked and
    once more when it rejects. *)
Definition toggleTask_update (id : value) (prev : list object)
  : list object :=
  (λ t, if strict_eq (prop t "id") id then flipped t else t) <$> prev.

(** *** [toggleHabit] and [isHabitCompleted]

    [logDate] is the date string both build from the month shown and the
    day. *)

(** [habitLogs.find(...)], and [habitLogs.some(...)]. *)
Definition isHabitCompleted (habitId logDate : value)
    (habitLogs : list object) : bool :=
  bool_decide (Exists (same_log habitId logDate) habitLogs).

Definition logEntry (habitId logDate : value) : object :=
  {[ "habit_id" := habitId; "log_date" := logDate ]}.

(** Before the database is asked; [existingLog] says whether [find] has
    found a log of that habit and day. *)
Definition toggleHabit_optimistic (existingLog : bool)
    (habitId logDate : value) (prev : list object) : list object :=
  if existingLog then filter (λ log, ¬ same_log habitId logDate log) prev
  else prev ++ [logEntry habitId logDate].

(** After [uncheckHabit] or [checkHabit] has been rejected. *)
Definition toggleHabit_rollback (existingLog : bool)
    (habitId logDate : value) (prev : list object) : list object :=
  if existingLog then prev ++ [logEntry habitId logDate]
  else filter (λ log, ¬ same_log habitId logDate log) prev.

(** [toggleHabit] when nothing else touches the list meanwhile; [ok] says
    whether the database accepted. *)
Definition toggleHabit (habitId logDate : value) (ok : bool)
    (habitLogs : list object) : list object :=
  let existingLog := isHabitCompleted habitId logDate habitLogs in
  let shown := toggleHabit_optimistic existingLog habitId logDate habitLogs in
  if ok then shown
  else toggleHabit_rollback existingLog habitId logDate shown.

(** *** The effect that subscribes, and its cleanup *)

(** The four detach functions the effect keeps. *)
Record detachers := {
  unsubscribeConnection : handle;
  unsubscribeHabits : string * handle;
  unsubscribeHabitLogs : string * handle;
  unsubscribeTodos : string * handle
}.

(** The body of the effect, for the callbacks [setIsOnline], [onHabits],
    [onHabitLogs] and [onTodos] of this render. *)
Definition subscribeAll (userId : string)
    (setIsOnline habitsCb logsCb todosCb : handle) (w : world)
  : world * detachers :=
  let '(w, c) := ConnectionMonitor.subscribe setIsOnline w in
  let '(w, h) := RealtimeManager.subscribeToHabits habitsCb userId w in
  let '(w, l) := RealtimeManager.subscribeToHabitLogs logsCb userId w in
  let '(w, t) := RealtimeManager.subscribeToTodos todosCb userId w in
  (w, {| unsubscribeConnection := c; unsubscribeHabits := h;
         unsubscribeHabitLogs := l; unsubscribeTodos := t |}).

(** The function the effect returns. *)
Definition unsubscribeAll (d : detachers) (w : world) : world :=
  let w := ConnectionMonitor.unsubscribe (unsubscribeConnection d) w in
  let w := RealtimeManager.unsubscribe (unsubscribeHabits d).1
             (unsubscribeHabits d).2 w in
  let w := RealtimeManager.unsubscribe (unsubscribeHabitLogs d).1
             (unsubscribeHabitLogs d).2 w in
  RealtimeManager.unsubscribe (unsubscribeTodos d).1
    (unsubscribeTodos d).2 w.

(** *** [loadData] *)

(** A value of the cache as a condition: only primitives can be falsy. *)
Definition truthy_jsval (d : jsval) : bool :=
  match d with
  | JPrim v => truthy_value v
  | _ => true
  end.

(** [cachedData.f || []]. *)
Definition member_or_empty (d : jsval) (f : string) : jsval :=
  match d with
  | JData fields =>
      match JSMap.get f fields with
      | Some items => JArr items
      | None => JArr []
      end
  | JObj o => if truthy_value (prop o f) then JPrim (prop o f) else JArr []
  | _ => JArr []
  end.

(** What the three fetches of [Promise.all] give: the rows of each table
    ([null] for none), or a rejection. *)
Inductive fetched :=
  | Rows (habitsData tasksData habitLogsData : option (list object))
  | Rejected.

(** The lists the component shows. *)
Record lists := { habits : jsval; tasks : jsval; habitLogs : jsval }.

Definition rows (l : list object) : list elem := Some <$> l.

(** [loadData] for the cache key of the user and month: the cache is read
    at [t_read] and, after the fetches, written at [t_write].  The result
    is the cache, the lists set, and whether the server was asked. *)
Definition loadData (cacheKey : string) (isOnline : bool)
    (t_read t_write : Z) (server : fetched) (c : DataCache.t)
  : DataCache.t * lists * bool :=
  let '(c, cachedData) := DataCache.get cacheKey t_read c in
  if truthy_jsval cachedData && isOnline then
    (c, {| habits := member_or_empty cachedData "habits";
           tasks := member_or_empty cachedData "tasks";
           habitLogs := member_or_empty cachedData "habitLogs" |}, false)
  else
    match server with
    | Rows habitsData tasksData habitLogsData =>
        let processedHabits := rows (default [] habitsData) in
        let processedHabitLogs := rows (default [] habitLogsData) in
        let mappedTasks :=
          rows (withName (VStr "") <$> default [] tasksData) in
        (DataCache.set cacheKey
           (JData [("habits", processedHabits); ("tasks", mappedTasks);
                   ("habitLogs", processedHabitLogs)])
           t_write c,
         {| habits := JArr processedHabits; tasks := JArr mappedTasks;
            habitLogs := JArr processedHabitLogs |}, true)
    | Rejected =>
        (c, {| habits := JArr []; tasks := JArr [];
               habitLogs := JArr [] |}, true)
    end.

End Tracker.

(** Nothing is registered under [key]: no channel and no set of
    callbacks. *)
Definition unregistered (key : string) (w : world) : Prop :=
  subscriptions (realtimeManager w) !! key = None
  ∧ callbacks (realtimeManager w) !! key = None.

(** * Properties *)

(** ** Insertion-ordered maps *)

Section jsmap_facts.
Context {V : Type}.
Implicit Types (m : JSMap.t V) (k : string) (v : V).


Lemma jsmap_get_set_ne k k' v m :
  k ≠ k' → JSMap.get k' (JSMap.set k v m) = JSMap.get k' m.
Proof.
  intros Hne. induction m as [|[k0 v0] m IH]; simpl.
  - by rewrite decide_False.
  - destruct (decide (k0 = k)) as [->|Hne0]; simpl.
    + by rewrite !decide_False.
    + by rewrite IH.
Qed.


Lemma jsmap_keys_set k v m :
  (JSMap.set k v m).*1 = if decide (k ∈ m.*1) then m.*1 else m.*1 ++ [k].
Proof.
  induction m as [|[k' v'] m IH].
  - cbn [JSMap.set fmap list_fmap fst]. case_decide as Hin; [|done].
    by apply elem_of_nil in Hin.
  - cbn [JSMap.set]. destruct (decide (k' = k)) as [->|Hne].
    + cbn [fmap list_fmap fst]. rewrite decide_True; [done|]. left.
    + rewrite fmap_cons, IH. cbn [fmap list_fmap fst].
      destruct (decide (k ∈ m.*1)) as [Hin|Hnin].
      * rewrite decide_True; [done|]. by right.
      * rewrite decide_False; [done|].
        intros [?|?]%elem_of_cons; congruence.
Qed.

Lemma jsmap_wf_set k v m : JSMap.wf m → JSMap.wf (JSMap.set k v m).
Proof.
  unfold JSMap.wf. rewrite jsmap_keys_set. intros Hm.
  destruct (decide (k ∈ m.*1)); [done|].
  apply NoDup_app. split_and!; [done| |apply NoDup_singleton].
  intros x Hx ->%list_elem_of_singleton. done.
Qed.

Lemma jsmap_keys_delete k m :
  (JSMap.delete k m).*1 = filter (λ k', k' ≠ k) m.*1.
Proof.
  unfold JSMap.delete. induction m as [|[k' v'] m IH]; [done|].
  rewrite fmap_cons. cbn [fst].
  destruct (decide (k' ≠ k)).
  - rewrite !filter_cons_True by done. rewrite fmap_cons. by rewrite IH.
  - by rewrite !filter_cons_False by done.
Qed.

Lemma jsmap_wf_filter (P : string * V → Prop) `{!∀ e, Decision (P e)} m :
  JSMap.wf m → JSMap.wf (filter P m).
Proof.
  unfold JSMap.wf. induction m as [|[k v] m IH]; [done|].
  rewrite fmap_cons, filter_cons. simpl. intros [Hk Hm]%NoDup_cons.
  destruct (decide (P (k, v))); [|by apply IH].
  rewrite fmap_cons. simpl. apply NoDup_cons. split; [|by apply IH].
  intros Hin. apply Hk. apply list_elem_of_fmap in Hin as [e [-> He]].
  apply list_elem_of_filter in He as [_ He].
  by apply list_elem_of_fmap_2.
Qed.


Lemma jsmap_get_None k m : k ∉ m.*1 → JSMap.get k m = None.
Proof.
  induction m as [|[k' v'] m IH]; [done|]. simpl.
  intros Hk. rewrite decide_False.
  - apply IH. intros ?. apply Hk. by right.
  - intros ->. apply Hk. left.
Qed.

Lemma jsmap_get_elem k v m : JSMap.wf m → (k, v) ∈ m → JSMap.get k m = Some v.
Proof.
  unfold JSMap.wf. induction m as [|[k' v'] m IH]; simpl.
  - intros _ ?%elem_of_nil. done.
  - intros [Hk Hm]%NoDup_cons [Heq|Hin]%elem_of_cons.
    + injection Heq as -> ->. by rewrite decide_True.
    + rewrite decide_False; [by apply IH|].
      intros ->. apply Hk. by apply (list_elem_of_fmap_2 fst) in Hin.
Qed.

Lemma jsmap_get_Some k v m : JSMap.get k m = Some v → (k, v) ∈ m.
Proof.
  induction m as [|[k' v'] m IH]; [done|]. simpl.
  destruct (decide (k' = k)) as [->|Hne].
  - intros [= ->]. left.
  - intros ?. right. by apply IH.
Qed.

(** With one entry per key, a key determines its entry. *)
Lemma jsmap_wf_functional k v1 v2 m :
  JSMap.wf m → (k, v1) ∈ m → (k, v2) ∈ m → v1 = v2.
Proof.
  intros Hwf H1 H2.
  apply (jsmap_get_elem _ _ _ Hwf) in H1, H2. congruence.
Qed.

End jsmap_facts.

Lemma filter_ext_elem {A} (P Q : A → Prop) `{!∀ x, Decision (P x)}
    `{!∀ x, Decision (Q x)} (l : list A) :
  (∀ x, x ∈ l → P x ↔ Q x) → filter P l = filter Q l.
Proof.
  induction l as [|x l IH]; [done|]. intros HPQ.
  rewrite !filter_cons.
  assert (filter P l = filter Q l) as ->.
  { apply IH. intros y Hy. apply HPQ. by right. }
  apply decide_ext. apply HPQ. left.
Qed.

(** ** The ledger: sweep and replacement *)

Section ledger_facts.
Import OptimisticUpdates.
Implicit Types (m : OptimisticUpdates.t) (u : update).

Lemma clean_fold now (es acc : OptimisticUpdates.t) :
  foldl (λ m e,
           if bool_decide (now - timestamp e.2 > 30000)%Z
           then JSMap.delete e.1 m else m) acc es
  = filter (λ e, e.1 ∉ (filter (λ e' : string * update,
                                  (now - timestamp e'.2 > 30000)%Z) es).*1)
           acc.
Proof.
  revert acc. induction es as [|e es IH]; intros acc.
  - cbn [foldl]. symmetry.
    induction acc as [|a acc IHa]; [done|].
    rewrite filter_cons_True; [by rewrite IHa|]. apply not_elem_of_nil.
  - cbn [foldl]. rewrite IH, filter_cons.
    case_bool_decide as Hold.
    + rewrite decide_True by done. unfold JSMap.delete.
      rewrite list_filter_filter. apply list_filter_iff.
      intros x. rewrite fmap_cons, not_elem_of_cons. tauto.
    + by rewrite decide_False.
Qed.

Lemma cleanOldUpdates_filter now m :
  JSMap.wf m → cleanOldUpdates now m = sweep_spec 30000 now m.
Proof.
  intros Hwf. unfold cleanOldUpdates, JSMap.entries, sweep_spec.
  rewrite clean_fold. apply filter_ext_elem. intros [k u] Hin. simpl.
  split.
  - intros Hk. apply Z.nlt_ge. intros Hlt. apply Hk.
    apply list_elem_of_fmap. exists (k, u). split; [done|].
    apply list_elem_of_filter. split; [|done]. simpl. lia.
  - intros Hle Hk. apply list_elem_of_fmap in Hk as [[k' u'] [Heq He]].
    simpl in Heq. subst k'.
    apply list_elem_of_filter in He as [Hexp He]. simpl in Hexp. rewrite (jsmap_wf_functional k u u' m Hwf Hin He) in Hle.
    lia.
Qed.


End ledger_facts.

(** ** The projections in the store *)

Lemma for_of_pure {A} (r : loc) (stepf : A → list elem → outcome (list elem))
    (body : A → M unit) :
  (∀ e l h, h !! r = Some l →
     body e h = match stepf e l with
                | Ok l' => (<[r := l']> h, Ok tt)
                | Throw err => (h, Throw err)
                end) →
  ∀ es l h, h !! r = Some l →
    for_of es body h
    = (<[r := (run_steps stepf es l).1]> h, (run_steps stepf es l).2).
Proof.
  intros Hbody es. induction es as [|e es IH]; intros l h Hl.
  - cbn. by rewrite insert_id.
  - cbn [for_of run_steps]. unfold mbind, M_bind.
    rewrite (Hbody e l h Hl). destruct (stepf e l) as [l'|err].
    + rewrite (IH l' (<[r := l']> h)) by apply lookup_insert_eq.
      by rewrite insert_insert_eq.
    + cbn. by rewrite insert_id.
Qed.

Ltac store_ops Hl :=
  unfold array_push, array_findIndex, array_splice1, array_get, array_set,
    array_read, array_write, lift, mbind, mret, M_bind, M_ret;
  rewrite ?Hl.

Lemma applyToHabits_run ledger base h :
  OptimisticUpdates.applyToHabits ledger base h
  = projection_result Habit ledger base h.
Proof.
  unfold OptimisticUpdates.applyToHabits, projection_result, apply_all.
  unfold mbind at 1. unfold M_bind at 1. unfold array_copy.
  destruct (h !! base) as [l|] eqn:Hbase; [|done].
  cbv zeta. unfold mbind at 1. unfold M_bind at 1.
  erewrite (for_of_pure (fresh (dom h))
              (λ e : string * OptimisticUpdates.update, apply_one Habit e.2));
    [| |apply lookup_insert_eq].
  - rewrite insert_insert_eq. unfold JSMap.entries.
    by destruct (run_steps _ ledger l).2.
  - intros [k u] l0 h0 Hl. cbn [snd]. unfold apply_one, identity_test.
    cbn [class_tag supports_update andb].
    destruct (strict_eq (OptimisticUpdates.type u) _);
      [|by rewrite insert_id].
    destruct (strict_eq (OptimisticUpdates.operation u) (VStr "add")).
    { store_ops Hl. done. }
    destruct (strict_eq (OptimisticUpdates.operation u) (VStr "delete")).
    { store_ops Hl. fold (id_test u).
      destruct (findIndex_from 0 (id_test u) l0) as [i|err]; [|done].
      case_bool_decide; rewrite ?Hl; [done|by rewrite insert_id]. }
    destruct (strict_eq (OptimisticUpdates.operation u) (VStr "update")).
    { store_ops Hl. fold (id_test u).
      destruct (findIndex_from 0 (id_test u) l0) as [i|err]; [|done].
      case_bool_decide; rewrite ?Hl; [done|by rewrite insert_id]. }
    unfold mret, M_ret. by rewrite insert_id.
Qed.

Lemma applyToTodos_run ledger base h :
  OptimisticUpdates.applyToTodos ledger base h
  = projection_result Todo ledger base h.
Proof.
  unfold OptimisticUpdates.applyToTodos, projection_result, apply_all.
  unfold mbind at 1. unfold M_bind at 1. unfold array_copy.
  destruct (h !! base) as [l|] eqn:Hbase; [|done].
  cbv zeta. unfold mbind at 1. unfold M_bind at 1.
  erewrite (for_of_pure (fresh (dom h))
              (λ e : string * OptimisticUpdates.update, apply_one Todo e.2));
    [| |apply lookup_insert_eq].
  - rewrite insert_insert_eq. unfold JSMap.entries.
    by destruct (run_steps _ ledger l).2.
  - intros [k u] l0 h0 Hl. cbn [snd]. unfold apply_one, identity_test.
    cbn [class_tag supports_update andb].
    destruct (strict_eq (OptimisticUpdates.type u) _);
      [|by rewrite insert_id].
    destruct (strict_eq (OptimisticUpdates.operation u) (VStr "add")).
    { store_ops Hl. done. }
    destruct (strict_eq (OptimisticUpdates.operation u) (VStr "delete")).
    { store_ops Hl. fold (id_test u).
      destruct (findIndex_from 0 (id_test u) l0) as [i|err]; [|done].
      case_bool_decide; rewrite ?Hl; [done|by rewrite insert_id]. }
    destruct (strict_eq (OptimisticUpdates.operation u) (VStr "update")).
    { store_ops Hl. fold (id_test u).
      destruct (findIndex_from 0 (id_test u) l0) as [i|err]; [|done].
      case_bool_decide; rewrite ?Hl; [done|by rewrite insert_id]. }
    unfold mret, M_ret. by rewrite insert_id.
Qed.

Lemma applyToHabitLogs_run ledger base h :
  OptimisticUpdates.applyToHabitLogs ledger base h
  = projection_result HabitLog ledger base h.
Proof.
  unfold OptimisticUpdates.applyToHabitLogs, projection_result, apply_all.
  unfold mbind at 1. unfold M_bind at 1. unfold array_copy.
  destruct (h !! base) as [l|] eqn:Hbase; [|done].
  cbv zeta. unfold mbind at 1. unfold M_bind at 1.
  erewrite (for_of_pure (fresh (dom h))
              (λ e : string * OptimisticUpdates.update,
                 apply_one HabitLog e.2));
    [| |apply lookup_insert_eq].
  - rewrite insert_insert_eq. unfold JSMap.entries.
    by destruct (run_steps _ ledger l).2.
  - intros [k u] l0 h0 Hl. cbn [snd]. unfold apply_one, identity_test.
    cbn [class_tag supports_update andb].
    destruct (strict_eq (OptimisticUpdates.type u) _);
      [|by rewrite insert_id].
    destruct (strict_eq (OptimisticUpdates.operation u) (VStr "add")).
    { store_ops Hl. done. }
    destruct (strict_eq (OptimisticUpdates.operation u) (VStr "delete")).
    { store_ops Hl. fold (log_test u).
      destruct (findIndex_from 0 (log_test u) l0) as [i|err]; [|done].
      case_bool_decide; rewrite ?Hl; [done|by rewrite insert_id]. }
    unfold mret, M_ret. by rewrite insert_id.
Qed.

(** A projection leaves every array of the store as it was, and its result
    is an array that was not there. *)
Lemma projection_result_frame c ledger base h a :
  is_Some (h !! a) → (projection_result c ledger base h).1 !! a = h !! a.
Proof.
  intros Ha. unfold projection_result. destruct (h !! base); [|done].
  cbn [fst]. apply lookup_insert_ne. intros <-.
  apply elem_of_dom in Ha. by apply is_fresh in Ha.
Qed.

Lemma fresh_loc_unused (h : store) : h !! fresh (dom h) = None.
Proof. apply not_elem_of_dom. apply is_fresh. Qed.

(** ** The loops against the specification's projection *)

Section loops_refine_spec.
Import OptimisticUpdates.

Lemma id_test_record u r : id_test u (Some r) = Ok (has_target_id u r).
Proof. done. Qed.

Lemma identity_test_record c u r :
  identity_test c u (Some r) = Ok (has_identity c u r).
Proof.
  destruct c; try done. cbn. unfold strict_eq.
  repeat case_bool_decide; try done; tauto.
Qed.

(** On an array of records, [findIndex] followed by [splice] removes the
    first record that passes the test. *)
Lemma splice_found (p : elem → outcome bool) (P : object → bool)
    (recs : list object) (i0 : Z) :
  (∀ r, p (Some r) = Ok (P r)) → (0 ≤ i0)%Z →
  ∃ index, findIndex_from i0 p (Some <$> recs) = Ok index
    ∧ (index = (-1)%Z ∨ (i0 ≤ index)%Z)
    ∧ (if bool_decide (index ≠ (-1)%Z)
       then delete (Z.to_nat (index - i0)) (Some <$> recs)
       else Some <$> recs) = Some <$> remove_first P recs.
Proof.
  intros Hp. revert i0. induction recs as [|r recs IH]; intros i0 Hi0.
  - exists (-1)%Z. cbn. split_and!; [done|by left|done].
  - cbn [fmap list_fmap findIndex_from remove_first]. rewrite Hp.
    destruct (P r).
    + exists i0. split_and!; [done|right; lia|].
      rewrite bool_decide_true by lia. by rewrite Z.sub_diag.
    + destruct (IH (i0 + 1)%Z ltac:(lia)) as (index & Hf & Hrange & Hdel).
      exists index. split_and!; [done|destruct Hrange; [by left|right; lia]|].
      rewrite fmap_cons, <- Hdel. case_bool_decide as Hidx; [|done].
      destruct Hrange as [?|Hge]; [done|].
      replace (Z.to_nat (index - i0)) with (S (Z.to_nat (index - (i0 + 1))))
        by lia.
      done.
Qed.

(** [findIndex] followed by the assignment of the merged record replaces
    the first record that passes the test. *)
Lemma assign_found (p : elem → outcome bool) (P : object → bool)
    (d : elem) (recs : list object) (i0 : Z) :
  (∀ r, p (Some r) = Ok (P r)) → (0 ≤ i0)%Z →
  ∃ index, findIndex_from i0 p (Some <$> recs) = Ok index
    ∧ (index = (-1)%Z ∨ (i0 ≤ index)%Z)
    ∧ (if bool_decide (index ≠ (-1)%Z)
       then <[Z.to_nat (index - i0) :=
                Some (spread (default None
                                ((Some <$> recs) !! Z.to_nat (index - i0)))
                             d)]> (Some <$> recs)
       else Some <$> recs) = Some <$> replace_first P (merge d) recs.
Proof.
  intros Hp. revert i0. induction recs as [|r recs IH]; intros i0 Hi0.
  - exists (-1)%Z. cbn. split_and!; [done|by left|done].
  - cbn [fmap list_fmap findIndex_from replace_first]. rewrite Hp.
    destruct (P r).
    + exists i0. split_and!; [done|right; lia|].
      rewrite bool_decide_true by lia. by rewrite Z.sub_diag.
    + destruct (IH (i0 + 1)%Z ltac:(lia)) as (index & Hf & Hrange & Hset).
      exists index. split_and!; [done|destruct Hrange; [by left|right; lia]|].
      rewrite fmap_cons, <- Hset. case_bool_decide as Hidx; [|done].
      destruct Hrange as [?|Hge]; [done|].
      replace (Z.to_nat (index - i0)) with (S (Z.to_nat (index - (i0 + 1))))
        by lia.
      done.
Qed.

(** One iteration on records, when the class supports the operation. *)
Lemma apply_one_spec c u (recs : list object) :
  (type u = class_tag c → operation u = VStr "add" → is_Some (data u)) →
  (supports_update c = true ∨ operation u ≠ VStr "update") →
  apply_one c u (Some <$> recs) = Ok (Some <$> apply_pending c recs u).
Proof.
  intros Hdata Hupd. unfold apply_one, apply_pending, strict_eq.
  case_bool_decide as Hty; [|done].
  case_bool_decide as Hadd.
  { destruct (Hdata Hty Hadd) as [r ->]. by rewrite fmap_app. }
  case_bool_decide as Hdel.
  { rewrite bool_decide_false by congruence.
    destruct (splice_found (identity_test c u) (has_identity c u) recs 0)
      as (index & -> & _ & Hres); [apply identity_test_record|done|].
    by rewrite Z.sub_0_r in Hres; rewrite Hres. }
  case_bool_decide as Hup; [|by rewrite andb_false_r].
  destruct Hupd as [->|?]; [|done]. cbn [andb].
  destruct (assign_found (id_test u) (has_target_id u) (data u) recs 0)
    as (index & -> & _ & Hres); [apply id_test_record|done|].
  by rewrite Z.sub_0_r in Hres; rewrite Hres.
Qed.

(** An [update] of a class without update support changes nothing. *)
Lemma apply_one_unsupported c u l :
  supports_update c = false → operation u = VStr "update" →
  apply_one c u l = Ok l.
Proof.
  intros Hc Hop. unfold apply_one, strict_eq. rewrite Hc, Hop. cbn [andb].
  case_bool_decide; [|done].
  rewrite !bool_decide_false by done. done.
Qed.

Lemma apply_all_spec c ledger (recs : list object) :
  supports_update c = true → payloads_present c ledger →
  apply_all c ledger (Some <$> recs)
  = (Some <$> project_spec c ledger recs, Ok tt).
Proof.
  intros Hc. unfold apply_all, project_spec, payloads_present.
  revert recs. induction ledger as [|[k u] ledger IH]; intros recs Hp.
  - done.
  - apply Forall_cons in Hp as [Hu Hp]. cbn [run_steps snd].
    rewrite apply_one_spec by (done || by left).
    rewrite fmap_cons. cbn [foldl snd]. by apply IH.
Qed.

Lemma apply_all_without_updates c ledger (recs : list object) :
  supports_update c = false → payloads_present c ledger →
  apply_all c ledger (Some <$> recs)
  = (Some <$> project_spec c (without_updates ledger) recs, Ok tt).
Proof.
  intros Hc. unfold apply_all, project_spec, payloads_present,
    without_updates.
  revert recs. induction ledger as [|[k u] ledger IH]; intros recs Hp.
  - done.
  - apply Forall_cons in Hp as [Hu Hp]. cbn [run_steps snd].
    rewrite filter_cons. cbn [snd].
    destruct (decide (operation u ≠ VStr "update")) as [Hop|Hop].
    + rewrite apply_one_spec by (done || by right).
      rewrite fmap_cons. cbn [foldl snd]. by apply IH.
    + apply dec_stable in Hop.
      rewrite apply_one_unsupported by done. by apply IH.
Qed.
End loops_refine_spec.

(** ** The ledger: the stated properties *)

Section ledger_claims.
Import OptimisticUpdates.

Lemma projection_result_base c ledger base h :
  (projection_result c ledger base h).1 !! base = h !! base.
Proof.
  destruct (h !! base) as [l|] eqn:Hbase.
  - rewrite <- Hbase. by apply projection_result_frame.
  - unfold projection_result. by rewrite Hbase.
Qed.

Lemma projection_result_Some c ledger base h l :
  h !! base = Some l →
  projection_result c ledger base h
  = (<[fresh (dom h) := (apply_all c ledger l).1]> h,
     match (apply_all c ledger l).2 with
     | Ok _ => Ok (fresh (dom h))
     | Throw err => Throw err
     end).
Proof. intros Hbase. unfold projection_result. by rewrite Hbase. Qed.

Lemma projection_result_None c ledger base h :
  h !! base = None →
  projection_result c ledger base h
  = (h, Throw (TypeError "object is not iterable")).
Proof. intros Hbase. unfold projection_result. by rewrite Hbase. Qed.

Lemma projection_result_repeatable c ledger base h :
  repeatable (projection_result c ledger) base h.
Proof.
  unfold repeatable. cbv zeta. split.
  { by rewrite !projection_result_base. }
  destruct (h !! base) as [l|] eqn:Hbase.
  - rewrite (projection_result_Some c ledger base h l Hbase). cbn [fst snd].
    assert (fresh (dom h) ≠ base) as Hne.
    { intros Heq. pose proof (fresh_loc_unused h) as Hf.
      rewrite Heq in Hf. congruence. }
    set (h1 := <[fresh (dom h) := (apply_all c ledger l).1]> h).
    assert (h1 !! base = Some l) as Hbase1.
    { unfold h1. by rewrite lookup_insert_ne. }
    rewrite (projection_result_Some c ledger base h1 l Hbase1).
    cbn [fst snd].
    assert (fresh (dom h1) ≠ fresh (dom h)) as Hne2.
    { intros Heq. pose proof (fresh_loc_unused h1) as Hf.
      rewrite Heq in Hf. unfold h1 in Hf.
      by rewrite lookup_insert_eq in Hf. }
    destruct (apply_all c ledger l).2 as [[]|err]; [|done].
    split_and!; [done| | |].
    + unfold h1. rewrite lookup_insert_eq. by eexists.
    + rewrite lookup_insert_eq. unfold h1. by rewrite lookup_insert_eq.
    + by rewrite lookup_insert_ne.
  - rewrite (projection_result_None c ledger base h Hbase). cbn [fst snd].
    by rewrite (projection_result_None c ledger base h Hbase).
Qed.

Lemma swept_key_absent (P : string * update → Prop)
    `{!∀ e, Decision (P e)} (m : OptimisticUpdates.t) k u :
  JSMap.wf m → (k, u) ∈ m → ¬ P (k, u) → JSMap.get k (filter P m) = None.
Proof.
  intros Hwf Hin HnP. apply jsmap_get_None.
  intros Hk. apply list_elem_of_fmap in Hk as [[k' u'] [Heq He]].
  simpl in Heq. subst k'. apply list_elem_of_filter in He as [HP He].
  by rewrite (jsmap_wf_functional k u u' m Hwf Hin He) in HnP.
Qed.

Lemma swept_key_kept (P : string * update → Prop)
    `{!∀ e, Decision (P e)} (m : OptimisticUpdates.t) k u :
  JSMap.wf m → (k, u) ∈ m → P (k, u) → JSMap.get k (filter P m) = Some u.
Proof.
  intros Hwf Hin HP. apply jsmap_get_elem; [by apply jsmap_wf_filter|].
  by apply list_elem_of_filter.
Qed.
End ledger_claims.

(** C1 (as amended).  On a collection of records and a ledger whose [add]
    updates carry their payload, each projection returns a new array that
    holds the base collection with the pending updates of its class applied
    in ledger order: for habits and todos every [add], [update] and [delete]
    as the specification words them; for habit logs the [add] and [delete]
    updates only, a pending [update] of a habit log being ignored. *)
Theorem project_applies_pending_updates
    (h : store) (ledger : OptimisticUpdates.t) (base : loc)
    (recs : list object) :
  h !! base = Some (Some <$> recs) →
  ∃ r : loc, h !! r = None ∧
    (payloads_present Habit ledger →
     OptimisticUpdates.applyToHabits ledger base h
       = (<[r := Some <$> project_spec Habit ledger recs]> h, Ok r)) ∧
    (payloads_present Todo ledger →
     OptimisticUpdates.applyToTodos ledger base h
       = (<[r := Some <$> project_spec Todo ledger recs]> h, Ok r)) ∧
    (payloads_present HabitLog ledger →
     OptimisticUpdates.applyToHabitLogs ledger base h
       = (<[r := Some <$> project_spec HabitLog (without_updates ledger)
                            recs]> h,
          Ok r)).
Proof.
  intros Hbase. exists (fresh (dom h)).
  split; [apply fresh_loc_unused|].
  rewrite applyToHabits_run, applyToTodos_run, applyToHabitLogs_run.
  unfold projection_result. rewrite Hbase. cbv zeta.
  split_and!; intros Hp.
  - by rewrite apply_all_spec.
  - by rewrite apply_all_spec.
  - by rewrite apply_all_without_updates.
Qed.

Lemma project_applies_pending_updates_witness :
  ∃ r : loc, Sample.habit_store !! r = None ∧
    OptimisticUpdates.applyToHabits Sample.ledger 0 Sample.habit_store
      = (<[r := Some <$> project_spec Habit Sample.ledger Sample.habits]>
           Sample.habit_store, Ok r) ∧
    OptimisticUpdates.applyToTodos Sample.ledger 0 Sample.habit_store
      = (<[r := Some <$> project_spec Todo Sample.ledger Sample.habits]>
           Sample.habit_store, Ok r) ∧
    OptimisticUpdates.applyToHabitLogs Sample.ledger 0 Sample.habit_store
      = (<[r := Some <$> project_spec HabitLog
                          (without_updates Sample.ledger) Sample.habits]>
           Sample.habit_store, Ok r).
Proof.
  destruct (project_applies_pending_updates Sample.habit_store Sample.ledger
              0 Sample.habits) as (r & Hr & Hh & Ht & Hl); [reflexivity|].
  exists r. split; [exact Hr|].
  split_and!; [apply Hh|apply Ht|apply Hl];
    repeat apply Forall_cons_2; try apply Forall_nil_2;
    cbn; intros; try discriminate; eauto.
Defined.

(** The projection of the sample ledger: habit 1 deleted, habit 2 renamed,
    the temporary habit appended. *)
Example project_sample_habits :
  project_spec Habit Sample.ledger Sample.habits
  = [ <["name" := VStr "Walk"]> Sample.run; Sample.write ].
Proof. vm_compute. reflexivity. Qed.

(** C1, the claim as stated fails for a pending [update] of a habit log:
    [applyToHabitLogs] returns the log as it was, where the stated rule
    would merge the update's data into it. *)
Lemma habit_log_update_not_applied :
  (OptimisticUpdates.applyToHabitLogs Sample.log_ledger 0 Sample.log_store).2
    = Ok 1
  ∧ (OptimisticUpdates.applyToHabitLogs Sample.log_ledger 0
       Sample.log_store).1 !! 1
    = Some [Some Sample.log]
  ∧ project_spec HabitLog Sample.log_ledger [Sample.log]
    = [ <["completed" := VBool true]> Sample.log ]
  ∧ (OptimisticUpdates.applyToHabitLogs Sample.log_ledger 0
       Sample.log_store).1 !! 1
    ≠ Some (Some <$> project_spec HabitLog Sample.log_ledger [Sample.log]).
Proof.
  split_and!; [by vm_compute..|].
  intros Heq.
  assert (project_spec HabitLog Sample.log_ledger [Sample.log]
          = [ <["completed" := VBool true]> Sample.log ]) as Hs
    by (by vm_compute).
  assert ((OptimisticUpdates.applyToHabitLogs Sample.log_ledger 0
             Sample.log_store).1 !! 1 = Some [Some Sample.log]) as Hc
    by (by vm_compute).
  rewrite Hc, Hs in Heq. cbn [fmap list_fmap] in Heq.
  assert (Sample.log = <["completed" := VBool true]> Sample.log) as Hm
    by congruence.
  apply (f_equal (λ o : object, prop o "completed")) in Hm.
  vm_compute in Hm. discriminate.
Qed.

(** C6.  Projection is repeatable: a second call with the same base and the
    same ledger, on the store the first call left, ends as the first did;
    when the calls return, the two results are distinct arrays with equal
    contents, and the first result and the base are as they were. *)
Theorem project_is_repeatable
    (ledger : OptimisticUpdates.t) (base : loc) (h : store) :
  repeatable (OptimisticUpdates.applyToHabits ledger) base h
  ∧ repeatable (OptimisticUpdates.applyToHabitLogs ledger) base h
  ∧ repeatable (OptimisticUpdates.applyToTodos ledger) base h.
Proof.
  unfold repeatable.
  rewrite !applyToHabits_run, !applyToHabitLogs_run, !applyToTodos_run.
  split_and!; apply projection_result_repeatable.
Qed.

(** C9.  A projection does not change the base array, nor any other array
    of the store: whatever updates are pending, and whether the projection
    returns or throws, every array reads afterwards as it did before. *)
Theorem project_leaves_base_unchanged
    (ledger : OptimisticUpdates.t) (base : loc) (h : store) :
  (OptimisticUpdates.applyToHabits ledger base h).1 !! base = h !! base
  ∧ (OptimisticUpdates.applyToHabitLogs ledger base h).1 !! base = h !! base
  ∧ (OptimisticUpdates.applyToTodos ledger base h).1 !! base = h !! base
  ∧ ∀ a : loc, is_Some (h !! a) →
      (OptimisticUpdates.applyToHabits ledger base h).1 !! a = h !! a
      ∧ (OptimisticUpdates.applyToHabitLogs ledger base h).1 !! a = h !! a
      ∧ (OptimisticUpdates.applyToTodos ledger base h).1 !! a = h !! a.
Proof.
  rewrite !applyToHabits_run, !applyToHabitLogs_run, !applyToTodos_run.
  split_and!; try apply projection_result_base.
  intros a Ha. split_and!; by apply projection_result_frame.
Qed.

Lemma project_leaves_base_unchanged_witness :
  (OptimisticUpdates.applyToHabits Sample.ledger 0 Sample.habit_store).1 !! 0
  = Sample.habit_store !! 0.
Proof.
  destruct (project_leaves_base_unchanged Sample.ledger 0 Sample.habit_store)
    as (_ & _ & _ & Hall).
  destruct (Hall 0) as [Hhabits _]; [|exact Hhabits].
  eexists. reflexivity.
Defined.

(** C7.  After [cleanOldUpdates] the ledger holds exactly the entries whose
    age is at most 30 seconds, in their order and unchanged: an entry older
    than that is gone (its key has no pending update) and so takes no part
    in any later projection; a younger entry is still returned for its
    key. *)
Theorem sweep_evicts_old_entries (now : Z) (m : OptimisticUpdates.t) :
  JSMap.wf m →
  OptimisticUpdates.cleanOldUpdates now m = sweep_spec 30000 now m
  ∧ (∀ k u, (k, u) ∈ m → (now - OptimisticUpdates.timestamp u > 30000)%Z →
       OptimisticUpdates.getPendingUpdate k
         (OptimisticUpdates.cleanOldUpdates now m) = None)
  ∧ (∀ k u, (k, u) ∈ m → (now - OptimisticUpdates.timestamp u ≤ 30000)%Z →
       OptimisticUpdates.getPendingUpdate k
         (OptimisticUpdates.cleanOldUpdates now m) = Some u)
  ∧ (∀ base h,
       OptimisticUpdates.applyToHabits
         (OptimisticUpdates.cleanOldUpdates now m) base h
       = OptimisticUpdates.applyToHabits (sweep_spec 30000 now m) base h
       ∧ OptimisticUpdates.applyToHabitLogs
           (OptimisticUpdates.cleanOldUpdates now m) base h
         = OptimisticUpdates.applyToHabitLogs (sweep_spec 30000 now m) base h
       ∧ OptimisticUpdates.applyToTodos
           (OptimisticUpdates.cleanOldUpdates now m) base h
         = OptimisticUpdates.applyToTodos (sweep_spec 30000 now m) base h).
Proof.
  intros Hwf. rewrite (cleanOldUpdates_filter now m Hwf).
  split_and!; [done| | |done].
  - intros k u Hin Hold. unfold OptimisticUpdates.getPendingUpdate, sweep_spec.
    apply swept_key_absent with u; [done..|]. simpl. lia.
  - intros k u Hin Hyoung.
    unfold OptimisticUpdates.getPendingUpdate, sweep_spec.
    by apply swept_key_kept.
Qed.

Lemma sample_ledger_wf : JSMap.wf Sample.ledger.
Proof.
  unfold Sample.ledger, OptimisticUpdates.addPendingUpdate.
  repeat apply jsmap_wf_set. apply NoDup_nil_2.
Qed.

Lemma sweep_evicts_old_entries_witness :
  OptimisticUpdates.cleanOldUpdates 30015 Sample.ledger
  = sweep_spec 30000 30015 Sample.ledger
  ∧ OptimisticUpdates.getPendingUpdate "delete-1"
      (OptimisticUpdates.cleanOldUpdates 30015 Sample.ledger) = None.
Proof.
  destruct (sweep_evicts_old_entries 30015 Sample.ledger sample_ledger_wf)
    as (Heq & Hold & _).
  split; [exact Heq|].
  apply (Hold "delete-1"
           (OptimisticUpdates.stamp
              (Sample.pending "habit" "delete" (VNum 1) None) 10)).
  - vm_compute. left.
  - vm_compute. reflexivity.
Defined.



(** ** The read cache *)

(** C3.  After [set(k, v)] at time [t0], a [get(k)] at time [now] returns
    [v] and leaves the cache as it is when [now - t0 <= ttl]; when
    [now - t0 > ttl] it returns [null] and the entry of [k] is removed
    (the other entries stay).  In particular one millisecond before the
    time-to-live has elapsed the value is returned, one millisecond after
    it the entry is absent. *)
Theorem cache_ttl_boundary
    (c : DataCache.t) (k : string) (v : jsval) (t0 now : Z) :
  let c1 := DataCache.set k v t0 c in
  ((now - t0 ≤ DataCache.ttl c)%Z → DataCache.get k now c1 = (c1, v))
  ∧ ((now - t0 > DataCache.ttl c)%Z →
       (DataCache.get k now c1).2 = null
       ∧ DataCache.cache (DataCache.get k now c1).1 !! k = None
       ∧ DataCache.cache (DataCache.get k now c1).1
         = delete k (DataCache.cache c)
       ∧ DataCache.ttl (DataCache.get k now c1).1 = DataCache.ttl c)
  ∧ DataCache.get k (t0 + (DataCache.ttl c - 1)) c1 = (c1, v)
  ∧ (DataCache.get k (t0 + (DataCache.ttl c + 1)) c1).2 = null
  ∧ DataCache.cache (DataCache.get k (t0 + (DataCache.ttl c + 1)) c1).1 !! k
    = None.
Proof.
  intros c1.
  assert (∀ t, (t - t0 ≤ DataCache.ttl c)%Z → DataCache.get k t c1 = (c1, v))
    as Hlive.
  { intros t Ht. unfold DataCache.get, c1, DataCache.set. cbn.
    rewrite lookup_insert_eq. cbn. by rewrite bool_decide_false by lia. }
  assert (∀ t, (t - t0 > DataCache.ttl c)%Z →
            DataCache.get k t c1
            = ({| DataCache.cache := delete k (DataCache.cache c);
                  DataCache.ttl := DataCache.ttl c |}, null)) as Hdead.
  { intros t Ht. unfold DataCache.get, c1, DataCache.set. cbn.
    rewrite lookup_insert_eq. cbn. rewrite bool_decide_true by lia.
    by rewrite delete_insert_eq. }
  split_and!.
  - apply Hlive.
  - intros Ht. rewrite (Hdead now Ht). cbn.
    split_and!; [done|apply lookup_delete_eq|done|done].
  - apply Hlive. lia.
  - rewrite Hdead by lia. done.
  - rewrite Hdead by lia. cbn. apply lookup_delete_eq.
Qed.

Lemma cache_ttl_boundary_witness :
  DataCache.get "data-u1-2024-01" 300000
    (DataCache.set "data-u1-2024-01" (JArr [Some Sample.read]) 0
       (DataCache.new None))
  = (DataCache.set "data-u1-2024-01" (JArr [Some Sample.read]) 0
       (DataCache.new None),
     JArr [Some Sample.read])
  ∧ (DataCache.get "data-u1-2024-01" 300001
       (DataCache.set "data-u1-2024-01" (JArr [Some Sample.read]) 0
          (DataCache.new None))).2 = null.
Proof.
  pose proof (cache_ttl_boundary (DataCache.new None) "data-u1-2024-01"
                (JArr [Some Sample.read]) 0 300000) as (Hlive & _).
  pose proof (cache_ttl_boundary (DataCache.new None) "data-u1-2024-01"
                (JArr [Some Sample.read]) 0 300001) as (_ & Hdead & _).
  split.
  - apply Hlive. vm_compute. discriminate.
  - apply Hdead. vm_compute. reflexivity.
Defined.

(** C10.  [get] returns [null] when the key has no entry (never set, or
    cleared), when its entry has expired, and when the live entry holds the
    value [null]: the result of [get] is the same for a key that is cached
    with [null] and for a key that is not cached. *)
Theorem cache_null_is_ambiguous
    (c : DataCache.t) (k : string) (t0 now : Z) :
  (DataCache.cache c !! k = None → DataCache.get k now c = (c, null))
  ∧ (DataCache.get k now (DataCache.clear c)).2 = null
  ∧ (∀ item, DataCache.cache c !! k = Some item →
       (now - DataCache.timestamp item > DataCache.ttl c)%Z →
       (DataCache.get k now c).2 = null)
  ∧ ((now - t0 ≤ DataCache.ttl c)%Z →
       (DataCache.get k now (DataCache.set k null t0 c)).2 = null
       ∧ DataCache.cache (DataCache.get k now (DataCache.set k null t0 c)).1
           !! k
         = Some {| DataCache.value := null; DataCache.timestamp := t0 |})
  ∧ (DataCache.get k t0 (DataCache.set k null t0 (DataCache.new None))).2
    = (DataCache.get k t0 (DataCache.new None)).2.
Proof.
  split_and!.
  - intros Hk. unfold DataCache.get. by rewrite Hk.
  - done.
  - intros item Hk Hold. unfold DataCache.get. rewrite Hk.
    by rewrite bool_decide_true.
  - intros Hlive. unfold DataCache.get, DataCache.set. cbn.
    rewrite lookup_insert_eq. cbn. rewrite bool_decide_false by lia.
    cbn. by rewrite lookup_insert_eq.
  - unfold DataCache.get, DataCache.set. cbn.
    rewrite lookup_insert_eq. cbn. by rewrite bool_decide_false by lia.
Qed.

Lemma cache_null_is_ambiguous_witness :
  DataCache.get "k" 5 (DataCache.new None) = (DataCache.new None, null)
  ∧ (DataCache.get "k" 5 (DataCache.set "k" null 0 (DataCache.new None))).2
    = null.
Proof.
  pose proof (cache_null_is_ambiguous (DataCache.new None) "k" 0 5)
    as (Habsent & _ & _ & Hnull & _).
  split.
  - apply Habsent. reflexivity.
  - apply Hnull. vm_compute. discriminate.
Defined.

(** ** Sets of callbacks *)

Lemma live_app (s1 s2 : JSSet.t) :
  JSSet.live (s1 ++ s2) = JSSet.live s1 ++ JSSet.live s2.
Proof. apply omap_app. Qed.

Lemma live_cons (e : option handle) (s : JSSet.t) :
  JSSet.live (e :: s)
  = match e with Some cb => cb :: JSSet.live s | None => JSSet.live s end.
Proof. by destruct e. Qed.

Lemma live_delete (cb : handle) (s : JSSet.t) :
  JSSet.live (JSSet.delete cb s) = filter (λ c, c ≠ cb) (JSSet.live s).
Proof.
  unfold JSSet.delete. induction s as [|[c|] s IH]; [done| |done].
  rewrite fmap_cons, !live_cons, filter_cons.
  destruct (decide (Some c = Some cb)) as [[= ->]|Hne].
  - by rewrite decide_False by naive_solver.
  - rewrite decide_True by congruence. by rewrite IH.
Qed.

Lemma live_lookup (s : JSSet.t) (i : nat) (cb : handle) :
  s !! i = Some (Some cb) → cb ∈ JSSet.live s.
Proof.
  intros Hi. apply list_elem_of_omap. exists (Some cb). split; [|done].
  by apply list_elem_of_lookup_2 in Hi.
Qed.

Lemma live_add (cb : handle) (s : JSSet.t) :
  JSSet.live (JSSet.add cb s)
  = if decide (cb ∈ JSSet.live s) then JSSet.live s else JSSet.live s ++ [cb].
Proof.
  unfold JSSet.add, JSSet.has. case_bool_decide.
  - by rewrite decide_True.
  - rewrite decide_False by done. by rewrite live_app.
Qed.

Lemma size_add_pos (cb : handle) (s : JSSet.t) : 0 < JSSet.size (JSSet.add cb s).
Proof.
  unfold JSSet.size. rewrite live_add. destruct (decide (cb ∈ JSSet.live s)) as [Hin|].
  - destruct (JSSet.live s); [by apply elem_of_nil in Hin|simpl; lia].
  - rewrite length_app. simpl. lia.
Qed.

Lemma not_live_delete (cb c : handle) (s : JSSet.t) :
  c ∉ JSSet.live s → c ∉ JSSet.live (JSSet.delete cb s).
Proof. rewrite live_delete, list_elem_of_filter. tauto. Qed.

Lemma not_live_deleted (cb : handle) (s : JSSet.t) :
  cb ∉ JSSet.live (JSSet.delete cb s).
Proof. rewrite live_delete, list_elem_of_filter. tauto. Qed.

(** ** Counting on the console *)

Lemma opened_app key tr1 tr2 :
  opened key (tr1 ++ tr2) = opened key tr1 + opened key tr2.
Proof. unfold opened. by rewrite filter_app, length_app. Qed.

Lemma closed_app key tr1 tr2 :
  closed key (tr1 ++ tr2) = closed key tr1 + closed key tr2.
Proof. unfold closed. by rewrite filter_app, length_app. Qed.

Lemma calls_app key cb tr1 tr2 :
  calls key cb (tr1 ++ tr2) = calls key cb tr1 + calls key cb tr2.
Proof. unfold calls. by rewrite filter_app, length_app. Qed.

Lemma opened_one key ev :
  opened key [ev] = if is_open key ev then 1 else 0.
Proof. unfold opened. rewrite filter_cons. by destruct (is_open key ev). Qed.

Lemma closed_one key ev :
  closed key [ev] = if is_close key ev then 1 else 0.
Proof. unfold closed. rewrite filter_cons. by destruct (is_close key ev). Qed.

Lemma calls_one key cb ev :
  calls key cb [ev] = if is_call key cb ev then 1 else 0.
Proof. unfold calls. rewrite filter_cons. by destruct (is_call key cb ev). Qed.

(** ** The unsubscribe function, case by case *)

Section unsubscribe_cases.
Variables (key : string) (cb : handle) (w : world).

Lemma unsubscribe_absent :
  callbacks (realtimeManager w) !! key = None →
  RealtimeManager.unsubscribe key cb w = w.
Proof.
  intros Hk. unfold RealtimeManager.unsubscribe. cbv zeta.
  rewrite lookup_alter_eq, Hk. cbn. rewrite bool_decide_false by done.
  rewrite alter_id by (intros ?; congruence).
  by destruct w as [[] ? ?].
Qed.

Lemma unsubscribe_keep (s : JSSet.t) :
  callbacks (realtimeManager w) !! key = Some s →
  JSSet.size (JSSet.delete cb s) ≠ 0 →
  RealtimeManager.unsubscribe key cb w
  = with_manager
      {| subscriptions := subscriptions (realtimeManager w);
         callbacks := <[key := JSSet.delete cb s]>
                        (callbacks (realtimeManager w)) |} w.
Proof.
  intros Hk Hsize. unfold RealtimeManager.unsubscribe. cbv zeta.
  rewrite lookup_alter_eq, Hk. cbn.
  rewrite bool_decide_false by congruence.
  f_equal. f_equal. apply map_eq. intros k.
  destruct (decide (key = k)) as [<-|Hne].
  - by rewrite lookup_alter_eq, lookup_insert_eq, Hk.
  - by rewrite lookup_alter_ne, lookup_insert_ne.
Qed.

Lemma unsubscribe_last (s : JSSet.t) :
  callbacks (realtimeManager w) !! key = Some s →
  JSSet.size (JSSet.delete cb s) = 0 →
  RealtimeManager.unsubscribe key cb w
  = with_manager
      {| subscriptions := delete key (subscriptions (realtimeManager w));
         callbacks := delete key (callbacks (realtimeManager w)) |}
      (match subscriptions (realtimeManager w) !! key with
       | Some _ => emit (ChannelUnsubscribed key) w
       | None => w
       end).
Proof.
  intros Hk Hsize. unfold RealtimeManager.unsubscribe. cbv zeta.
  rewrite lookup_alter_eq, Hk. cbn.
  rewrite bool_decide_true by congruence.
  by rewrite delete_alter_eq.
Qed.
End unsubscribe_cases.

(** ** [subscribe], case by case *)

Section subscribe_cases.
Variables (table : string) (cb : handle) (filter : option string).
Variable w : world.
Local Abbreviation key := (RealtimeManager.subscriptionKey table filter).

Lemma subscribe_callbacks :
  callbacks (realtimeManager (RealtimeManager.subscribe table cb filter w).1)
  = <[key := JSSet.add cb
               (default JSSet.empty (callbacks (realtimeManager w) !! key))]>
      (callbacks (realtimeManager w)).
Proof.
  unfold RealtimeManager.subscribe. cbv zeta.
  assert (∀ cbs0 : gmap string JSSet.t,
            cbs0 = match callbacks (realtimeManager w) !! key with
                   | Some _ => callbacks (realtimeManager w)
                   | None => <[key := JSSet.empty]>
                               (callbacks (realtimeManager w))
                   end →
            alter (JSSet.add cb) key cbs0
            = <[key := JSSet.add cb
                         (default JSSet.empty
                            (callbacks (realtimeManager w) !! key))]>
                (callbacks (realtimeManager w))) as Halter.
  { intros cbs0 ->. apply map_eq. intros k.
    destruct (decide (key = k)) as [<-|Hne].
    - rewrite lookup_alter_eq, lookup_insert_eq.
      destruct (callbacks (realtimeManager w) !! key) as [s|] eqn:Hk.
      + by rewrite Hk.
      + by rewrite lookup_insert_eq.
    - rewrite lookup_alter_ne, lookup_insert_ne by done.
      destruct (callbacks (realtimeManager w) !! key);
        [done|by rewrite lookup_insert_ne]. }
  destruct (subscriptions (realtimeManager w) !! key); cbn;
    by apply Halter.
Qed.

Lemma subscribe_subscriptions :
  subscriptions
    (realtimeManager (RealtimeManager.subscribe table cb filter w).1)
  = match subscriptions (realtimeManager w) !! key with
    | Some _ => subscriptions (realtimeManager w)
    | None =>
        <[key := {| channel_name := "realtime:" +:+ key;
                    channel_table := table;
                    channel_filter := RealtimeManager.truthy filter |}]>
          (subscriptions (realtimeManager w))
    end.
Proof.
  unfold RealtimeManager.subscribe. cbv zeta.
  by destruct (subscriptions (realtimeManager w) !! key).
Qed.

Lemma subscribe_console :
  console (RealtimeManager.subscribe table cb filter w).1
  = console w
    ++ match subscriptions (realtimeManager w) !! key with
       | Some _ => []
       | None =>
           [ChannelSubscribed key
              {| channel_name := "realtime:" +:+ key;
                 channel_table := table;
                 channel_filter := RealtimeManager.truthy filter |}]
       end.
Proof.
  unfold RealtimeManager.subscribe. cbv zeta.
  destruct (subscriptions (realtimeManager w) !! key); cbn;
    [by rewrite app_nil_r|done].
Qed.

Lemma subscribe_monitor :
  connectionMonitor (RealtimeManager.subscribe table cb filter w).1
  = connectionMonitor w.
Proof.
  unfold RealtimeManager.subscribe. cbv zeta.
  by destruct (subscriptions (realtimeManager w) !! _).
Qed.
End subscribe_cases.

(** ** What the detach functions add to the console *)

Lemma unsubscribe_console key cb w :
  ∃ evs, only_closes evs
    ∧ console (RealtimeManager.unsubscribe key cb w) = console w ++ evs.
Proof.
  destruct (callbacks (realtimeManager w) !! key) as [s|] eqn:Hk.
  - destruct (decide (JSSet.size (JSSet.delete cb s) = 0)) as [Hz|Hnz].
    + rewrite (unsubscribe_last key cb w s Hk Hz).
      destruct (subscriptions (realtimeManager w) !! key).
      * exists [ChannelUnsubscribed key]. split; [|done].
        by apply Forall_singleton.
      * exists []. split; [apply Forall_nil_2|by rewrite app_nil_r].
    + rewrite (unsubscribe_keep key cb w s Hk Hnz).
      exists []. split; [apply Forall_nil_2|by rewrite app_nil_r].
  - rewrite (unsubscribe_absent key cb w Hk).
    exists []. split; [apply Forall_nil_2|by rewrite app_nil_r].
Qed.

Lemma run_action_console w a :
  ∃ evs, only_closes evs ∧ console (run_action w a) = console w ++ evs.
Proof.
  destruct a as [key cb|cb]; cbn.
  - apply unsubscribe_console.
  - exists []. split; [apply Forall_nil_2|by rewrite app_nil_r].
Qed.

Lemma run_actions_console acts w :
  ∃ evs, only_closes evs
    ∧ console (foldl run_action w acts) = console w ++ evs.
Proof.
  revert w. induction acts as [|a acts IH]; intros w.
  - exists []. split; [apply Forall_nil_2|by rewrite app_nil_r].
  - cbn [foldl]. destruct (IH (run_action w a)) as (evs2 & H2 & ->).
    destruct (run_action_console w a) as (evs1 & H1 & ->).
    exists (evs1 ++ evs2). split; [by apply Forall_app|by rewrite app_assoc].
Qed.

Lemma only_closes_omap {B} (f : event → option B) evs :
  (∀ k, f (ChannelUnsubscribed k) = None) → only_closes evs → omap f evs = [].
Proof.
  intros Hf. induction 1 as [|ev evs Hev _ IH]; [done|].
  destruct ev; try done. cbn. by rewrite Hf.
Qed.

Lemma only_closes_filter (P : event → Prop) `{!∀ ev, Decision (P ev)} evs :
  (∀ k, ¬ P (ChannelUnsubscribed k)) → only_closes evs → filter P evs = [].
Proof.
  intros HP. induction 1 as [|ev evs Hev _ IH]; [done|].
  destruct ev; try done. by rewrite filter_cons_False.
Qed.

(** ** Invariants of a delivery *)

Section delivery_invariants.
Variable env : callbacks_env.

Lemma forEach_from_invariant (P : world → Prop) read f :
  (∀ cb w s i, P w → read w = Some s → s !! i = Some (Some cb) →
     P (f cb w).1) →
  ∀ n i w, P w → P (forEach_from n i read f w).1.
Proof.
  intros Hf n. induction n as [|n IH]; intros i w Hw; [done|].
  cbn [forEach_from].
  destruct (read w) as [s|] eqn:Hread; cbn; [|by apply IH].
  destruct (s !! i) as [[cb|]|] eqn:Hi; [|by apply IH..].
  pose proof (Hf cb w s i Hw Hread Hi) as Hw'.
  destruct (f cb w) as [w' [[]|e]]; [by apply IH|done].
Qed.

Lemma forEach_from_returns read f :
  (∀ cb w, (f cb w).2 = Ok tt) →
  ∀ n i w, (forEach_from n i read f w).2 = Ok tt.
Proof.
  intros Hf n. induction n as [|n IH]; intros i w; [done|].
  cbn [forEach_from].
  destruct (read w ≫= _) as [[cb|]|]; [|by apply IH..].
  pose proof (Hf cb w) as Hr.
  destruct (f cb w) as [w' [[]|e]]; [by apply IH|done].
Qed.

Lemma try_catch_logged ev b msg w :
  try_catch (invoke ev b) (console_error msg) w
  = (match throws b with
     | Some e => emit (ConsoleError msg e)
                   (foldl run_action (emit ev w) (actions b))
     | None => foldl run_action (emit ev w) (actions b)
     end, Ok tt).
Proof. unfold try_catch, invoke, console_error. by destruct (throws b). Qed.

Lemma notify_returns key payload cb w :
  (notify env key payload cb w).2 = Ok tt.
Proof. unfold notify. by rewrite try_catch_logged. Qed.

Lemma notify_status_returns status cb w :
  (notify_status env status cb w).2 = Ok tt.
Proof. unfold notify_status. by rewrite try_catch_logged. Qed.

(** A property kept by detaching, by logging and by recording the call
    is kept by the body of the fan-out. *)
Lemma try_catch_invariant (P : world → Prop) ev b msg w :
  (∀ w a, P w → P (run_action w a)) →
  (∀ w e, P w → P (emit (ConsoleError msg e) w)) →
  P (emit ev w) →
  P (try_catch (invoke ev b) (console_error msg) w).1.
Proof.
  intros Hact Herr Hev. rewrite try_catch_logged. cbn [fst].
  assert (P (foldl run_action (emit ev w) (actions b))) as Hrun.
  { generalize (emit ev w) Hev. induction (actions b) as [|a acts IH];
      intros w0 Hw0; [done|]. cbn [foldl]. apply IH. by apply Hact. }
  destruct (throws b); [by apply Herr|done].
Qed.

Section stable.
Variable P : world → Prop.
Variable allowed : op → Prop.
Hypothesis Hact : ∀ w a, P w → P (run_action w a).
Hypothesis Herr : ∀ w msg e, P w → P (emit (ConsoleError msg e) w).
Hypothesis Hcall : ∀ w key cb payload s i,
  P w → registry_set key w = Some s → s !! i = Some (Some cb) →
  P (emit (Called key cb payload) w).
Hypothesis Hstatus : ∀ w cb status, P w → P (emit (StatusCalled cb status) w).
Hypothesis Hmon : ∀ w m, P w → P (with_monitor m w).
Hypothesis Hsub : ∀ w table cb filter,
  allowed (Subscribe table cb filter) → P w →
  P (RealtimeManager.subscribe table cb filter w).1.
Hypothesis Hclean : ∀ w, P w → P (RealtimeManager.cleanup w).

Lemma forEach_registry_stable key payload n i w :
  P w →
  P (forEach_from n i (registry_set key) (notify env key payload) w).1.
Proof.
  apply forEach_from_invariant. intros cb w0 s j Hw0 Hread Hj.
  unfold notify. apply try_catch_invariant; eauto.
Qed.

Lemma handler_stable key payload w : P w → P (handler env key payload w).1.
Proof.
  intros Hw. unfold handler. destruct (registry_set key w); [|done].
  by apply forEach_registry_stable.
Qed.

Lemma setOnlineStatus_stable status w :
  P w → P (setOnlineStatus env status w).1.
Proof.
  intros Hw. unfold setOnlineStatus. cbv zeta.
  apply forEach_from_invariant; [|by apply Hmon].
  intros cb w0 s j Hw0 _ _. unfold notify_status.
  apply try_catch_invariant; eauto.
Qed.

Lemma step_stable w o : allowed o → P w → P (step env w o).
Proof.
  intros Ho Hw. destruct o; cbn.
  - by apply Hsub.
  - by apply (Hact w (Detach key cb)).
  - by apply handler_stable.
  - by apply Hclean.
  - by apply Hmon.
  - by apply (Hact w (DetachStatus cb)).
  - by apply setOnlineStatus_stable.
Qed.

Lemma run_stable ops w : Forall allowed ops → P w → P (run env ops w).
Proof.
  unfold run. revert w. induction ops as [|o ops IH]; intros w Hops Hw;
    [done|].
  apply Forall_cons in Hops as [Ho Hops]. cbn [foldl].
  apply IH; [done|]. by apply step_stable.
Qed.
End stable.
End delivery_invariants.

(** ** The registry stays consistent *)

Ltac world_simpl :=
  cbn [emit with_manager with_monitor console realtimeManager
       connectionMonitor subscriptions callbacks isOnline statusCallbacks
       initial fst snd log_all].

Lemma consistent_initial online : registry_consistent (initial online).
Proof. intros key. world_simpl. split_and!; [by rewrite !lookup_empty| |done].
  intros s. by rewrite lookup_empty. Qed.

Lemma consistent_emit ev w :
  (∀ key, is_open key ev = false ∧ is_close key ev = false) →
  registry_consistent w → registry_consistent (emit ev w).
Proof.
  intros Hev Hw key. destruct (Hw key) as (Hdom & Hpos & Hcount).
  destruct (Hev key) as [Ho Hc]. world_simpl.
  split_and!; [done..|].
  by rewrite opened_app, closed_app, opened_one, closed_one, Ho, Hc,
    !Nat.add_0_r.
Qed.

Lemma consistent_with_monitor m w :
  registry_consistent w → registry_consistent (with_monitor m w).
Proof. intros Hw key. apply (Hw key). Qed.

Lemma consistent_unsubscribe key cb w :
  registry_consistent w →
  registry_consistent (RealtimeManager.unsubscribe key cb w).
Proof.
  intros Hw.
  destruct (callbacks (realtimeManager w) !! key) as [s|] eqn:Hk;
    [|by rewrite unsubscribe_absent].
  destruct (decide (JSSet.size (JSSet.delete cb s) = 0)) as [Hz|Hnz].
  - rewrite (unsubscribe_last key cb w s Hk Hz).
    destruct (Hw key) as (Hdom & _ & Hcount).
    destruct (subscriptions (realtimeManager w) !! key) as [ch|] eqn:Hs;
      [|destruct Hdom as [Hdom _]; specialize (Hdom eq_refl); congruence].
    intros k. destruct (Hw k) as (Hdomk & Hposk & Hcountk). world_simpl.
    destruct (decide (key = k)) as [<-|Hne].
    + rewrite !lookup_delete_eq. split_and!; [done|done|].
      rewrite opened_app, closed_app, opened_one, closed_one. cbn [is_open is_close].
      rewrite bool_decide_true by done. lia.
    + rewrite !lookup_delete_ne by done. split_and!; [done..|].
      rewrite opened_app, closed_app, opened_one, closed_one. cbn [is_open is_close].
      rewrite bool_decide_false by done. lia.
  - rewrite (unsubscribe_keep key cb w s Hk Hnz).
    intros k. destruct (Hw k) as (Hdomk & Hposk & Hcountk). world_simpl.
    destruct (decide (key = k)) as [<-|Hne].
    + rewrite lookup_insert_eq. split_and!; [|intros ? [= <-]; lia|done].
      split; [|done]. intros Hs. apply Hdomk in Hs. congruence.
    + by rewrite lookup_insert_ne.
Qed.

Lemma consistent_subscribe table cb filter w :
  registry_consistent w →
  registry_consistent (RealtimeManager.subscribe table cb filter w).1.
Proof.
  intros Hw k. destruct (Hw k) as (Hdomk & Hposk & Hcountk).
  rewrite subscribe_callbacks, subscribe_subscriptions, subscribe_console.
  set (key := RealtimeManager.subscriptionKey table filter).
  destruct (decide (key = k)) as [<-|Hne].
  - rewrite lookup_insert_eq.
    destruct (subscriptions (realtimeManager w) !! key) as [ch|] eqn:Hs.
    + rewrite Hs, app_nil_r. split_and!; [done| |done].
      intros ? [= <-]. apply size_add_pos.
    + rewrite lookup_insert_eq.
      split_and!; [done| |].
      * intros ? [= <-]. apply size_add_pos.
      * rewrite opened_app, closed_app, opened_one, closed_one. cbn [is_open is_close].
        rewrite bool_decide_true by done. lia.
  - rewrite lookup_insert_ne by done.
    destruct (subscriptions (realtimeManager w) !! key) as [ch|] eqn:Hs.
    + by rewrite app_nil_r.
    + rewrite lookup_insert_ne by done. split_and!; [done..|].
      rewrite opened_app, closed_app, opened_one, closed_one. cbn [is_open is_close].
      rewrite bool_decide_false by done. lia.
Qed.

Lemma cleanup_console (l : list (string * channel)) w :
  console (foldl (λ w kc, emit (ChannelUnsubscribed kc.1) w) w l)
  = console w ++ ((λ kc, ChannelUnsubscribed kc.1) <$> l).
Proof.
  revert w. induction l as [|kc l IH]; intros w; cbn [foldl].
  - by rewrite app_nil_r.
  - rewrite IH. cbn. by rewrite <- app_assoc.
Qed.

Lemma closes_counted key (l : list (string * channel)) :
  NoDup l.*1 →
  opened key ((λ kc, ChannelUnsubscribed kc.1) <$> l) = 0
  ∧ closed key ((λ kc, ChannelUnsubscribed kc.1) <$> l)
    = if decide (key ∈ l.*1) then 1 else 0.
Proof.
  induction l as [|[k ch] l IH]; intros Hnd.
  - split; [done|]. by rewrite decide_False by apply not_elem_of_nil.
  - rewrite fmap_cons in Hnd. apply NoDup_cons in Hnd as [Hk Hnd].
    destruct (IH Hnd) as [IHo IHc]. rewrite !fmap_cons. cbn [fst].
    change (?x :: ?l') with ([x] ++ l') at 1 2.
    rewrite opened_app, closed_app, opened_one, closed_one, IHo, IHc.
    split; [done|]. cbn [is_close].
    destruct (decide (k = key)) as [->|Hne].
    + rewrite bool_decide_true by done.
      rewrite decide_False by done. rewrite decide_True; [done|left].
    + rewrite bool_decide_false by done. cbn.
      destruct (decide (key ∈ l.*1)) as [Hin|Hnin].
      * rewrite decide_True; [done|by right].
      * rewrite decide_False; [done|].
        intros [?|?]%elem_of_cons; congruence.
Qed.

Lemma consistent_cleanup w :
  registry_consistent w → registry_consistent (RealtimeManager.cleanup w).
Proof.
  intros Hw key. destruct (Hw key) as (Hdom & Hpos & Hcount).
  unfold RealtimeManager.cleanup. cbv zeta. world_simpl.
  split_and!; [done|done|].
  rewrite cleanup_console, opened_app, closed_app.
  destruct (closes_counted key
              (map_to_list (subscriptions (realtimeManager w))))
    as [-> ->]; [apply NoDup_fst_map_to_list|].
  rewrite Hcount.
  destruct (subscriptions (realtimeManager w) !! key) as [ch|] eqn:Hs.
  - rewrite decide_True; [done|].
    apply list_elem_of_fmap. exists (key, ch). split; [done|].
    by apply elem_of_map_to_list.
  - rewrite decide_False; [done|].
    intros Hin. apply list_elem_of_fmap in Hin as [[k ch] [-> Hin]].
    apply elem_of_map_to_list in Hin. cbn in Hs. congruence.
Qed.

Lemma consistent_run env ops w :
  registry_consistent w → registry_consistent (run env ops w).
Proof.
  apply (run_stable env registry_consistent (λ _, True)).
  - intros w0 [key cb|cb] Hw0; cbn.
    + by apply consistent_unsubscribe.
    + by apply consistent_with_monitor.
  - intros w0 msg e Hw0. by apply consistent_emit.
  - intros w0 key cb payload s i Hw0 _ _. by apply consistent_emit.
  - intros w0 cb status Hw0. by apply consistent_emit.
  - intros w0 m Hw0. by apply consistent_with_monitor.
  - intros w0 table cb filter _ Hw0. by apply consistent_subscribe.
  - apply consistent_cleanup.
  - by apply Forall_true.
Qed.

(** ** Subscribing and detaching several callbacks *)

Section one_key.
Variables (table : string) (filter : option string).
Local Abbreviation key := (RealtimeManager.subscriptionKey table filter).

Lemma subscribe_all_more cbs w s ch :
  callbacks (realtimeManager w) !! key = Some s →
  subscriptions (realtimeManager w) !! key = Some ch →
  NoDup cbs → (∀ c, c ∈ cbs → c ∉ JSSet.live s) →
  callbacks (realtimeManager (subscribe_all table filter cbs w)) !! key
  = Some (s ++ (Some <$> cbs))
  ∧ subscriptions (realtimeManager (subscribe_all table filter cbs w)) !! key
    = Some ch
  ∧ console (subscribe_all table filter cbs w) = console w.
Proof.
  unfold subscribe_all. revert w s.
  induction cbs as [|cb cbs IH]; intros w s Hk Hs Hnd Hfresh.
  - cbn. by rewrite app_nil_r.
  - apply NoDup_cons in Hnd as [Hcb Hnd]. cbn [foldl].
    set (w' := (RealtimeManager.subscribe table cb filter w).1).
    assert (JSSet.add cb s = s ++ [Some cb]) as Hadd.
    { unfold JSSet.add, JSSet.has. rewrite bool_decide_false; [done|].
      apply Hfresh. left. }
    destruct (IH w' (s ++ [Some cb]) ) as (Hk' & Hs' & Hc'); [| |done| |].
    + unfold w'. rewrite subscribe_callbacks.
      by rewrite lookup_insert_eq, Hk, <- Hadd.
    + unfold w'. rewrite subscribe_subscriptions.
      by rewrite Hs.
    + intros c Hc. rewrite live_app, elem_of_app. intros [Hin|Hin].
      * eapply Hfresh; [by right|done].
      * cbn in Hin. apply list_elem_of_singleton in Hin as ->. done.
    + rewrite Hk', Hs', Hc'. split_and!; [|done|].
      * by rewrite <- app_assoc.
      * unfold w'. rewrite subscribe_console.
        by rewrite Hs, app_nil_r.
Qed.

Lemma subscribe_all_first cb cbs w :
  callbacks (realtimeManager w) !! key = None →
  subscriptions (realtimeManager w) !! key = None →
  NoDup (cb :: cbs) →
  ∃ ch,
    callbacks (realtimeManager (subscribe_all table filter (cb :: cbs) w))
      !! key = Some (Some <$> cb :: cbs)
    ∧ subscriptions
        (realtimeManager (subscribe_all table filter (cb :: cbs) w)) !! key
      = Some ch
    ∧ console (subscribe_all table filter (cb :: cbs) w)
      = console w ++ [ChannelSubscribed key ch].
Proof.
  intros Hk Hs [Hcb Hnd]%NoDup_cons.
  eexists. unfold subscribe_all. cbn [foldl].
  set (w' := (RealtimeManager.subscribe table cb filter w).1).
  destruct (subscribe_all_more cbs w' [Some cb]
              {| channel_name := "realtime:" +:+ key;
                 channel_table := table;
                 channel_filter := RealtimeManager.truthy filter |})
    as (Hk' & Hs' & Hc'); [| |done| |].
  - unfold w'. rewrite subscribe_callbacks.
    by rewrite lookup_insert_eq, Hk.
  - unfold w'. rewrite subscribe_subscriptions.
    by rewrite Hs, lookup_insert_eq.
  - intros c Hc. cbn. intros ->%list_elem_of_singleton. done.
  - unfold subscribe_all in Hk', Hs', Hc'. rewrite Hk', Hs', Hc'.
    split_and!; [done|done|].
    unfold w'. rewrite subscribe_console. by rewrite Hs.
Qed.
End one_key.

Lemma unsubscribe_all_keep key pre w s c :
  callbacks (realtimeManager w) !! key = Some s →
  c ∈ JSSet.live s → c ∉ pre →
  ∃ s', callbacks (realtimeManager (unsubscribe_all key pre w)) !! key
        = Some s'
    ∧ JSSet.live s' = filter (λ x, x ∉ pre) (JSSet.live s)
    ∧ subscriptions (realtimeManager (unsubscribe_all key pre w))
      = subscriptions (realtimeManager w)
    ∧ console (unsubscribe_all key pre w) = console w.
Proof.
  unfold unsubscribe_all. revert w s.
  induction pre as [|cb pre IH]; intros w s Hk Hc Hpre.
  - exists s. split_and!; [done| |done|done].
    generalize (JSSet.live s). intros l. symmetry.
    induction l as [|x l IHl]; [done|].
    rewrite filter_cons_True by apply not_elem_of_nil. by rewrite IHl.
  - apply not_elem_of_cons in Hpre as [Hne Hpre]. cbn [foldl].
    assert (c ∈ JSSet.live (JSSet.delete cb s)) as Hc'.
    { rewrite live_delete. by apply list_elem_of_filter. }
    assert (JSSet.size (JSSet.delete cb s) ≠ 0) as Hnz.
    { unfold JSSet.size. destruct (JSSet.live (JSSet.delete cb s));
        [by apply elem_of_nil in Hc'|done]. }
    rewrite (unsubscribe_keep key cb w s Hk Hnz).
    edestruct (IH (with_manager
                     {| subscriptions := subscriptions (realtimeManager w);
                        callbacks := <[key := JSSet.delete cb s]>
                                       (callbacks (realtimeManager w)) |} w)
                 (JSSet.delete cb s)) as (s' & Hk' & Hlive & Hs' & Hc'');
      [by cbn; rewrite lookup_insert_eq|done|done|].
    exists s'. split_and!; [done| |done|done].
    rewrite Hlive, live_delete, list_filter_filter.
    apply list_filter_iff. intros x. rewrite not_elem_of_cons. tauto.
Qed.


Lemma live_fmap_Some (l : list handle) : JSSet.live (Some <$> l) = l.
Proof. induction l as [|x l IH]; [done|]. rewrite fmap_cons, live_cons. by rewrite IH. Qed.

Lemma filter_none {A} (P : A → Prop) `{!∀ x, Decision (P x)} (l : list A) :
  (∀ x, x ∈ l → ¬ P x) → filter P l = [].
Proof.
  induction l as [|x l IH]; intros HP; [done|].
  rewrite filter_cons_False by (apply HP; left).
  apply IH. intros y Hy. apply HP. by right.
Qed.

(** ** Channels open and close with the set of observers *)

Lemma opened_only_closes key evs : only_closes evs → opened key evs = 0.
Proof.
  intros Hevs. unfold opened.
  rewrite only_closes_filter; [done|by intros k ?|done].
Qed.

Lemma console_grows env w o :
  ∃ evs, console (step env w o) = console w ++ evs.
Proof.
  apply (step_stable env (λ w', ∃ evs, console w' = console w ++ evs)
           (λ _, True)); [..|done|by exists []; rewrite app_nil_r].
  - intros w0 a [evs Hw0].
    destruct (run_action_console w0 a) as (evs' & _ & ->).
    exists (evs ++ evs'). by rewrite Hw0, app_assoc.
  - intros w0 msg e [evs Hw0]. world_simpl.
    eexists. by rewrite Hw0, <- app_assoc.
  - intros w0 k c payload s i [evs Hw0] _ _. world_simpl.
    eexists. by rewrite Hw0, <- app_assoc.
  - intros w0 c status [evs Hw0]. world_simpl.
    eexists. by rewrite Hw0, <- app_assoc.
  - by intros w0 m Hw0.
  - intros w0 table c filter _ [evs Hw0]. rewrite subscribe_console, Hw0.
    eexists. by rewrite <- app_assoc.
  - intros w0 [evs Hw0]. unfold RealtimeManager.cleanup. cbv zeta.
    world_simpl. rewrite cleanup_console, Hw0.
    eexists. by rewrite <- app_assoc.
Qed.

(** Only [subscribe] opens a channel, and [subscribe] closes none. *)
Lemma step_opens_nothing env key w o :
  (∀ table cb filter, o ≠ Subscribe table cb filter) →
  opened key (console (step env w o)) = opened key (console w).
Proof.
  intros Ho.
  apply (step_stable env
           (λ w', opened key (console w') = opened key (console w))
           (λ o, ∀ table cb filter, o ≠ Subscribe table cb filter));
    [..|done|done].
  - intros w0 a Hw0. destruct (run_action_console w0 a) as (evs & Hevs & ->).
    rewrite opened_app, (opened_only_closes key evs Hevs). lia.
  - intros w0 msg e Hw0. world_simpl.
    rewrite opened_app, opened_one. cbn [is_open]. lia.
  - intros w0 k c payload s i Hw0 _ _. world_simpl.
    rewrite opened_app, opened_one. cbn [is_open]. lia.
  - intros w0 c status Hw0. world_simpl.
    rewrite opened_app, opened_one. cbn [is_open]. lia.
  - by intros w0 m Hw0.
  - intros w0 table c filter Hal. by destruct (Hal table c filter).
  - intros w0 Hw0. unfold RealtimeManager.cleanup. cbv zeta. world_simpl.
    rewrite cleanup_console, opened_app, (opened_only_closes key (_ <$> _));
      [lia|].
    apply Forall_fmap. by apply Forall_true.
Qed.

Lemma subscribe_closes_nothing key table cb filter w :
  closed key (console (RealtimeManager.subscribe table cb filter w).1)
  = closed key (console w).
Proof.
  rewrite subscribe_console, closed_app.
  destruct (subscriptions (realtimeManager w) !! _).
  - change (closed key []) with 0. lia.
  - rewrite closed_one. cbn [is_close]. lia.
Qed.

(** In a consistent registry a key has observers exactly when it has a
    channel. *)
Lemma has_observers_channel key w :
  registry_consistent w →
  has_observers key w
  = bool_decide (is_Some (subscriptions (realtimeManager w) !! key)).
Proof.
  intros Hw. destruct (Hw key) as (Hdom & Hpos & _).
  unfold has_observers, registered.
  destruct (callbacks (realtimeManager w) !! key) as [s|] eqn:Hk.
  - specialize (Hpos s eq_refl). unfold JSSet.size in Hpos. cbn [default from_option id].
    assert (JSSet.live s ≠ []) as Hne.
    { intros He. rewrite He in Hpos. cbn in Hpos. lia. }
    rewrite (bool_decide_eq_true_2 _ Hne).
    symmetry. apply bool_decide_eq_true_2.
    destruct (subscriptions (realtimeManager w) !! key) eqn:Hs; [done|].
    destruct Hdom as [Hd _]. discriminate (Hd eq_refl).
  - destruct Hdom as [_ Hd]. by rewrite (Hd eq_refl).
Qed.

Lemma consistent_step env w o :
  registry_consistent w → registry_consistent (step env w o).
Proof. apply (consistent_run env [o] w). Qed.

(** A call or a delivery opens a channel for a key exactly when the key
    gets its first observer with it, and closes one exactly when the key
    loses its last. *)
Lemma step_counts env key w o :
  registry_consistent w →
  opened key (console (step env w o))
  = opened key (console w)
    + (if negb (has_observers key w) && has_observers key (step env w o)
       then 1 else 0)
  ∧ closed key (console (step env w o))
    = closed key (console w)
      + (if has_observers key w && negb (has_observers key (step env w o))
         then 1 else 0).
Proof.
  intros Hw. pose proof (consistent_step env w o Hw) as Hw'.
  rewrite (has_observers_channel key w Hw).
  rewrite (has_observers_channel key (step env w o) Hw').
  destruct (Hw key) as (_ & _ & Hc). destruct (Hw' key) as (_ & _ & Hc').
  destruct (console_grows env w o) as [evs Hevs].
  assert (opened key (console w) ≤ opened key (console (step env w o))
          ∧ closed key (console w) ≤ closed key (console (step env w o)))
    as [Hlo Hlc].
  { rewrite Hevs, opened_app, closed_app. lia. }
  assert (closed key (console (step env w o)) = closed key (console w)
          ∨ opened key (console (step env w o)) = opened key (console w))
    as Hmono.
  { destruct o as [table cb filter| | | | | |];
      [left; apply subscribe_closes_nothing
      |right; by apply step_opens_nothing..]. }
  destruct (subscriptions (realtimeManager w) !! key);
    destruct (subscriptions (realtimeManager (step env w o)) !! key);
    cbn in *; lia.
Qed.

(** The callbacks registered under a key follow the observers of the
    specification, call by call. *)
Lemma registered_step env key w o :
  is_registry_call o →
  registered key (step env w o) = observe key (registered key w) o.
Proof.
  intros Ho. unfold registered.
  destruct o as [table cb filter|k cb|k payload| |cb|cb|status];
    try done; cbn [step observe].
  - rewrite subscribe_callbacks.
    destruct (decide (RealtimeManager.subscriptionKey table filter = key))
      as [->|Hne].
    + rewrite lookup_insert_eq. cbn [default from_option id]. apply live_add.
    + by rewrite lookup_insert_ne.
  - destruct (callbacks (realtimeManager w) !! k) as [s|] eqn:Hk.
    + destruct (decide (JSSet.size (JSSet.delete cb s) = 0)) as [Hz|Hnz].
      * rewrite (unsubscribe_last k cb w s Hk Hz). world_simpl.
        destruct (decide (k = key)) as [->|Hne].
        -- rewrite lookup_delete_eq, Hk. cbn [default from_option id].
           rewrite <- live_delete. unfold JSSet.size in Hz.
           destruct (JSSet.live (JSSet.delete cb s)) as [|x l];
             [reflexivity|cbn in Hz; lia].
        -- rewrite lookup_delete_ne by done.
           by destruct (subscriptions (realtimeManager w) !! k).
      * rewrite (unsubscribe_keep k cb w s Hk Hnz). world_simpl.
        destruct (decide (k = key)) as [->|Hne].
        -- rewrite lookup_insert_eq, Hk. cbn [default from_option id]. apply live_delete.
        -- by rewrite lookup_insert_ne.
    + rewrite unsubscribe_absent by done.
      destruct (decide (k = key)) as [->|Hne]; [|done].
      by rewrite Hk.
Qed.

Lemma becomes_nonempty_app key s ops1 ops2 :
  becomes_nonempty key s (ops1 ++ ops2)
  = becomes_nonempty key s ops1
    + becomes_nonempty key (foldl (observe key) s ops1) ops2.
Proof.
  revert s. induction ops1 as [|o ops1 IH]; intros s; [done|].
  cbn [app becomes_nonempty foldl]. rewrite IH. lia.
Qed.

Lemma becomes_empty_app key s ops1 ops2 :
  becomes_empty key s (ops1 ++ ops2)
  = becomes_empty key s ops1
    + becomes_empty key (foldl (observe key) s ops1) ops2.
Proof.
  revert s. induction ops1 as [|o ops1 IH]; intros s; [done|].
  cbn [app becomes_empty foldl]. rewrite IH. lia.
Qed.

Lemma run_snoc env ops o w : run env (ops ++ [o]) w = step env (run env ops w) o.
Proof. unfold run. by rewrite foldl_app. Qed.

Lemma observers_snoc key ops o :
  observers key (ops ++ [o]) = observe key (observers key ops) o.
Proof. unfold observers. by rewrite foldl_app. Qed.

(** Along a history of calls, from the initial state: the registered
    callbacks are the observers, and the channels opened and closed count
    how often the set of observers became non-empty and empty. *)
Lemma registry_follows_observers env key ops online :
  Forall is_registry_call ops →
  registered key (run env ops (initial online)) = observers key ops
  ∧ opened key (console (run env ops (initial online)))
    = becomes_nonempty key [] ops
  ∧ closed key (console (run env ops (initial online)))
    = becomes_empty key [] ops.
Proof.
  induction ops as [|o ops IH] using rev_ind; intros Hops.
  - by split_and!.
  - apply Forall_app in Hops as [Hops Ho].
    apply (proj1 (Forall_singleton _ _)) in Ho.
    destruct (IH Hops) as (Hreg & Hopen & Hclose).
    pose proof (consistent_run env ops (initial online)
                  (consistent_initial online)) as Hw.
    rewrite run_snoc.
    destruct (step_counts env key _ o Hw) as [Ho1 Hc1].
    pose proof (registered_step env key (run env ops (initial online)) o Ho)
      as Hreg'.
    rewrite Ho1, Hc1, becomes_nonempty_app, becomes_empty_app, Hopen, Hclose.
    unfold has_observers. rewrite Hreg', Hreg, observers_snoc.
    split; [done|].
    cbn [becomes_nonempty becomes_empty].
    fold (observers key ops).
    destruct (decide (observers key ops = [])) as [He|He];
      destruct (decide (observe key (observers key ops) o = []))
        as [He'|He'].
    + rewrite !(bool_decide_eq_false_2 (_ ≠ [])) by (by intros ?).
      rewrite !(bool_decide_eq_false_2 (_ ∧ _)) by tauto. cbn. lia.
    + rewrite (bool_decide_eq_false_2 (observers key ops ≠ []))
        by (by intros ?).
      rewrite (bool_decide_eq_true_2 (observe _ _ _ ≠ [])) by done.
      rewrite (bool_decide_eq_true_2 (_ = [] ∧ _)) by done.
      rewrite (bool_decide_eq_false_2 (_ ≠ [] ∧ _)) by tauto. cbn. lia.
    + rewrite (bool_decide_eq_true_2 (observers key ops ≠ [])) by done.
      rewrite (bool_decide_eq_false_2 (observe _ _ _ ≠ []))
        by (by intros ?).
      rewrite (bool_decide_eq_false_2 (_ = [] ∧ _)) by tauto.
      rewrite (bool_decide_eq_true_2 (_ ≠ [] ∧ _)) by done. cbn. lia.
    + rewrite !(bool_decide_eq_true_2 (_ ≠ [])) by done.
      rewrite (bool_decide_eq_false_2 (_ = [] ∧ _)) by tauto.
      rewrite (bool_decide_eq_false_2 (_ ≠ [] ∧ _)) by tauto. cbn. lia.
Qed.

Lemma stays_nonempty_counts key s ops :
  stays_nonempty key s ops →
  becomes_nonempty key s ops
  = (if bool_decide (s = [] ∧ ops ≠ []) then 1 else 0)
  ∧ becomes_empty key s ops = 0
  ∧ (ops ≠ [] → foldl (observe key) s ops ≠ []).
Proof.
  revert s. induction ops as [|o ops IH]; intros s Hstay.
  - split_and!; [|done..].
    by rewrite bool_decide_eq_false_2 by (by intros [_ ?]).
  - destruct Hstay as [Hne Hstay].
    destruct (IH _ Hstay) as (Hopen & Hclose & Hlast).
    cbn [becomes_nonempty becomes_empty foldl]. rewrite Hopen, Hclose.
    rewrite (bool_decide_eq_false_2 (observe key s o = [] ∧ _))
      by (by intros [? _]).
    rewrite (bool_decide_eq_false_2 (s ≠ [] ∧ _)) by (by intros [_ ?]).
    split_and!; [|done|].
    + destruct (decide (s = [])) as [->|Hs].
      * by rewrite !bool_decide_eq_true_2.
      * by rewrite !bool_decide_eq_false_2 by (by intros [? _]).
    + intros _. destruct ops as [|o' ops]; [done|]. by apply Hlast.
Qed.

(** C2 (as amended).  In every state the registry reaches, a key has an
    upstream channel exactly when its set of callbacks is recorded and not
    empty, and the channels opened for the key exceed those closed by one
    when it has a channel and by none otherwise (never two at a time).
    When N pairwise distinct callbacks are subscribed in a row under a key
    that had none, exactly one channel is opened; detaching them in any
    order leaves the channel and the console untouched until the last
    detach, which closes the channel and deletes the key from both
    [subscriptions] and [callbacks].

    Whatever happens next in a state the registry reaches, a call or a
    delivery, a channel is opened for a key exactly when the key gets its
    first observer with it, and closed exactly when the key loses its
    last.  Along any history of subscribe and unsubscribe calls, however
    interleaved, the callbacks registered under a key are its observers,
    taken as a set, and the channels opened and closed for the key count
    how often that set became non-empty and empty.  So when the set is
    never empty between the first call and the last, which empties it,
    exactly one channel is opened, it stays until the last call, and the
    last call closes it and deletes the key from both maps. *)
Theorem one_upstream_subscription_per_key (env : callbacks_env) :
  (∀ (ops : list op) (online : bool) (key : string),
     let w := run env ops (initial online) in
     (is_Some (subscriptions (realtimeManager w) !! key)
      ↔ ∃ s, callbacks (realtimeManager w) !! key = Some s
             ∧ 0 < JSSet.size s)
     ∧ opened key (console w)
       = closed key (console w)
         + (if subscriptions (realtimeManager w) !! key is Some _
            then 1 else 0))
  ∧ (∀ (w : world) (table : string) (filter : option string)
       (cbs pre : list handle) (last : handle),
       let key := RealtimeManager.subscriptionKey table filter in
       registry_consistent w →
       callbacks (realtimeManager w) !! key = None →
       NoDup cbs → pre ++ [last] ≡ₚ cbs →
       let w1 := subscribe_all table filter cbs w in
       let w2 := unsubscribe_all key pre w1 in
       let w3 := RealtimeManager.unsubscribe key last w2 in
       ∃ ch,
         console w1 = console w ++ [ChannelSubscribed key ch]
         ∧ subscriptions (realtimeManager w2) !! key = Some ch
         ∧ is_Some (callbacks (realtimeManager w2) !! key)
         ∧ console w2 = console w1
         ∧ subscriptions (realtimeManager w3) !! key = None
         ∧ callbacks (realtimeManager w3) !! key = None
         ∧ console w3
           = console w ++ [ChannelSubscribed key ch; ChannelUnsubscribed key])
  ∧ (∀ (ops : list op) (online : bool) (key : string) (o : op),
       let w := run env ops (initial online) in
       let w' := step env w o in
       opened key (console w')
       = opened key (console w)
         + (if negb (has_observers key w) && has_observers key w'
            then 1 else 0)
       ∧ closed key (console w')
         = closed key (console w)
           + (if has_observers key w && negb (has_observers key w')
              then 1 else 0))
  ∧ (∀ (ops : list op) (online : bool) (key : string),
       Forall is_registry_call ops →
       let w := run env ops (initial online) in
       registered key w = observers key ops
       ∧ opened key (console w) = becomes_nonempty key [] ops
       ∧ closed key (console w) = becomes_empty key [] ops)
  ∧ (∀ (body : list op) (last : op) (online : bool) (key : string),
       Forall is_registry_call (body ++ [last]) →
       body ≠ [] → stays_nonempty key [] body →
       observers key (body ++ [last]) = [] →
       let w1 := run env body (initial online) in
       let w2 := step env w1 last in
       opened key (console w1) = 1
       ∧ closed key (console w1) = 0
       ∧ is_Some (subscriptions (realtimeManager w1) !! key)
       ∧ opened key (console w2) = 1
       ∧ closed key (console w2) = 1
       ∧ subscriptions (realtimeManager w2) !! key = None
       ∧ callbacks (realtimeManager w2) !! key = None).
Proof.
  split_and!.
  - intros ops online key w.
    destruct (consistent_run env ops (initial online)
                (consistent_initial online) key) as (Hdom & Hpos & Hcount).
    fold w in Hdom, Hpos, Hcount. split; [|done]. split.
    + intros [ch Hch].
      destruct (callbacks (realtimeManager w) !! key) as [s|] eqn:Hk.
      * exists s. split; [done|]. by apply Hpos.
      * destruct Hdom as [_ Hd]. rewrite (Hd eq_refl) in Hch. discriminate.
    + intros (s & Hs & _).
      destruct (subscriptions (realtimeManager w) !! key) eqn:Hsub;
        [by eexists|].
      destruct Hdom as [Hd _]. rewrite (Hd eq_refl) in Hs. discriminate.
  - intros w table filter cbs pre last key Hw Hk Hnd Hperm w1 w2 w3.
    assert (subscriptions (realtimeManager w) !! key = None) as Hs
      by (by apply (Hw key)).
    assert (NoDup (pre ++ [last])) as Hnd' by (by rewrite Hperm).
    apply NoDup_app in Hnd' as (_ & Hlast & _).
    assert (last ∉ pre) as Hlast'.
    { intros Hin. apply (Hlast last Hin). left. }
    assert (last ∈ cbs) as Hin.
    { rewrite <- Hperm. apply elem_of_app. right. left. }
    destruct cbs as [|cb cbs]; [by apply elem_of_nil in Hin|].
    destruct (subscribe_all_first table filter cb cbs w Hk Hs Hnd)
      as (ch & Hk1 & Hs1 & Hc1).
    fold key in Hk1, Hs1, Hc1. fold w1 in Hk1, Hs1, Hc1.
    destruct (unsubscribe_all_keep key pre w1 (Some <$> cb :: cbs) last)
      as (s2 & Hk2 & Hlive2 & Hs2 & Hc2);
      [done|by rewrite live_fmap_Some|done|].
    fold w2 in Hk2, Hs2, Hc2. rewrite live_fmap_Some in Hlive2.
    assert (JSSet.size (JSSet.delete last s2) = 0) as Hz.
    { unfold JSSet.size. rewrite live_delete, Hlive2, list_filter_filter.
      rewrite filter_none; [done|].
      intros x Hx [Hne Hnpre]. rewrite <- Hperm in Hx.
      apply elem_of_app in Hx as [?|Hx]; [done|].
      by apply list_elem_of_singleton in Hx. }
    exists ch. unfold w3. rewrite (unsubscribe_last key last w2 s2 Hk2 Hz).
    rewrite Hs2, Hs1. world_simpl.
    rewrite !lookup_delete_eq, Hc2, Hc1, <- app_assoc.
    split_and!; [done|done|by eexists|done..].
  - intros ops online key o w w'. apply step_counts.
    apply consistent_run, consistent_initial.
  - intros ops online key Hops w. by apply registry_follows_observers.
  - intros body last online key Hops Hbody Hstay Hend w1 w2.
    pose proof Hops as Hops'. apply Forall_app in Hops' as [Hb _].
    destruct (registry_follows_observers env key body online Hb)
      as (Hreg1 & Ho1 & Hc1). fold w1 in Hreg1, Ho1, Hc1.
    destruct (registry_follows_observers env key (body ++ [last]) online
                Hops) as (Hreg2 & Ho2 & Hc2).
    rewrite run_snoc in Hreg2, Ho2, Hc2. fold w1 in Hreg2, Ho2, Hc2.
    fold w2 in Hreg2, Ho2, Hc2.
    destruct (stays_nonempty_counts key [] body Hstay)
      as (Hopen & Hclose & Hlast).
    specialize (Hlast Hbody). fold (observers key body) in Hlast.
    rewrite bool_decide_eq_true_2 in Hopen by done.
    assert (registry_consistent w1) as Hw1
      by apply consistent_run, consistent_initial.
    assert (registry_consistent w2) as Hw2 by by apply consistent_step.
    assert (has_observers key w1 = true) as Hh1.
    { unfold has_observers. rewrite Hreg1. by apply bool_decide_eq_true_2. }
    assert (has_observers key w2 = false) as Hh2.
    { unfold has_observers. rewrite Hreg2, Hend.
      apply bool_decide_eq_false_2. by intros ?. }
    rewrite (has_observers_channel key w1 Hw1) in Hh1.
    rewrite (has_observers_channel key w2 Hw2) in Hh2.
    apply bool_decide_eq_true in Hh1. apply bool_decide_eq_false in Hh2.
    assert (subscriptions (realtimeManager w2) !! key = None) as Hs2.
    { destruct (subscriptions (realtimeManager w2) !! key); [|done].
      by destruct Hh2. }
    rewrite becomes_nonempty_app in Ho2. rewrite becomes_empty_app in Hc2.
    fold (observers key body) in Ho2, Hc2.
    cbn [becomes_nonempty becomes_empty] in Ho2, Hc2.
    rewrite <- observers_snoc, Hend in Ho2, Hc2.
    rewrite (bool_decide_eq_false_2 (observers key body = [] ∧ _))
      in Ho2 by (by intros [? _]).
    rewrite (bool_decide_eq_true_2 (observers key body ≠ [] ∧ _))
      in Hc2 by done.
    split_and!; [lia|lia|done|lia|lia|done|].
    by apply (Hw2 key).
Qed.

Lemma one_upstream_subscription_per_key_witness :
  (∃ ch,
     console (subscribe_all "habits" (Some "user_id=eq.u1") [1; 2; 3]
                (initial true))
     = [ChannelSubscribed SampleRegistry.key ch]
     ∧ console
         (RealtimeManager.unsubscribe SampleRegistry.key 2
            (unsubscribe_all SampleRegistry.key [3; 1]
               (subscribe_all "habits" (Some "user_id=eq.u1") [1; 2; 3]
                  (initial true))))
       = [ChannelSubscribed SampleRegistry.key ch;
          ChannelUnsubscribed SampleRegistry.key])
  ∧ opened SampleRegistry.key
      (console
         (step SampleRegistry.env
            (run SampleRegistry.env
               [Subscribe "habits" 1 (Some "user_id=eq.u1");
                Subscribe "habits" 2 (Some "user_id=eq.u1");
                Unsubscribe SampleRegistry.key 1;
                Subscribe "habits" 3 (Some "user_id=eq.u1");
                Unsubscribe SampleRegistry.key 2] (initial true))
            (Unsubscribe SampleRegistry.key 3))) = 1
  ∧ closed SampleRegistry.key
      (console
         (step SampleRegistry.env
            (run SampleRegistry.env
               [Subscribe "habits" 1 (Some "user_id=eq.u1");
                Subscribe "habits" 2 (Some "user_id=eq.u1");
                Unsubscribe SampleRegistry.key 1;
                Subscribe "habits" 3 (Some "user_id=eq.u1");
                Unsubscribe SampleRegistry.key 2] (initial true))
            (Unsubscribe SampleRegistry.key 3))) = 1.
Proof.
  destruct (one_upstream_subscription_per_key SampleRegistry.env)
    as (_ & H & _ & _ & Hone).
  split.
  - destruct (H (initial true) "habits" (Some "user_id=eq.u1") [1; 2; 3]
                [3; 1] 2) as (ch & H1 & _ & _ & _ & _ & _ & H3).
    + apply consistent_initial.
    + reflexivity.
    + apply (bool_decide_unpack _). vm_compute. exact I.
    + cbn [app]. etrans; [apply perm_swap|].
      apply perm_skip. apply perm_swap.
    + exists ch. split; [exact H1|exact H3].
  - destruct (Hone [Subscribe "habits" 1 (Some "user_id=eq.u1");
                    Subscribe "habits" 2 (Some "user_id=eq.u1");
                    Unsubscribe SampleRegistry.key 1;
                    Subscribe "habits" 3 (Some "user_id=eq.u1");
                    Unsubscribe SampleRegistry.key 2]
                   (Unsubscribe SampleRegistry.key 3) true
                   SampleRegistry.key)
      as (_ & _ & _ & Ho & Hc & _).
    + repeat constructor.
    + discriminate.
    + repeat split; vm_compute; discriminate.
    + reflexivity.
    + split; [exact Ho|exact Hc].
Defined.

(** C2, the claim as stated fails on two histories.  Two subscribe calls
    with the same key and the same callback: the first of the two
    unsubscribe calls already closes the channel and drops the key.  A
    subscribe, its unsubscribe, a second subscribe and its unsubscribe:
    two channels are opened for the key. *)
Lemma upstream_subscription_counterexamples :
  subscriptions
    (realtimeManager
       (run SampleRegistry.env
          [Subscribe "habits" 1 (Some "user_id=eq.u1");
           Subscribe "habits" 1 (Some "user_id=eq.u1");
           Unsubscribe SampleRegistry.key 1] (initial true)))
    !! SampleRegistry.key = None
  ∧ closed SampleRegistry.key
      (console
         (run SampleRegistry.env
            [Subscribe "habits" 1 (Some "user_id=eq.u1");
             Subscribe "habits" 1 (Some "user_id=eq.u1");
             Unsubscribe SampleRegistry.key 1] (initial true))) = 1
  ∧ opened SampleRegistry.key
      (console
         (run SampleRegistry.env
            [Subscribe "habits" 1 (Some "user_id=eq.u1");
             Unsubscribe SampleRegistry.key 1;
             Subscribe "habits" 2 (Some "user_id=eq.u1");
             Unsubscribe SampleRegistry.key 2] (initial true))) = 2.
Proof. split_and!; by vm_compute. Qed.


(** ** A detached callback stays detached *)

Section detached_facts.
Variables (env : callbacks_env) (key : string) (cb : handle) (n : nat).

Lemma calls_only_closes evs : only_closes evs → calls key cb evs = 0.
Proof.
  intros Hevs. unfold calls.
  rewrite only_closes_filter; [done|by intros k ?|done].
Qed.

Lemma detached_unsubscribe k c w :
  detached key cb n w → detached key cb n (RealtimeManager.unsubscribe k c w).
Proof.
  intros [Hlive Hcalls]. split.
  - destruct (callbacks (realtimeManager w) !! k) as [s|] eqn:Hk;
      [|by rewrite unsubscribe_absent].
    destruct (decide (JSSet.size (JSSet.delete c s) = 0)) as [Hz|Hnz].
    + rewrite (unsubscribe_last k c w s Hk Hz). world_simpl.
      destruct (decide (k = key)) as [->|Hne].
      * rewrite lookup_delete_eq. apply not_elem_of_nil.
      * rewrite lookup_delete_ne by done.
        by destruct (subscriptions (realtimeManager w) !! k).
    + rewrite (unsubscribe_keep k c w s Hk Hnz). world_simpl.
      destruct (decide (k = key)) as [->|Hne].
      * rewrite lookup_insert_eq. cbn. apply not_live_delete.
        by rewrite Hk in Hlive.
      * by rewrite lookup_insert_ne.
  - destruct (unsubscribe_console k c w) as (evs & Hevs & ->).
    rewrite calls_app, (calls_only_closes evs) by done. lia.
Qed.

Lemma detached_emit ev w :
  is_call key cb ev = false → detached key cb n w →
  detached key cb n (emit ev w).
Proof.
  intros Hev [Hlive Hcalls]. split; [done|]. world_simpl.
  rewrite calls_app, calls_one, Hev. lia.
Qed.




Lemma detached_forEach payload m i w :
  detached key cb n w →
  detached key cb n
    (forEach_from m i (registry_set key) (notify env key payload) w).1.
Proof.
  apply (forEach_registry_stable env (detached key cb n)).
  - intros w0 [k c|c] Hw0; cbn; [by apply detached_unsubscribe|done].
  - intros w0 msg e Hw0. by apply detached_emit.
  - intros w0 k c payload0 s j Hw0 Hread Hj. apply detached_emit; [|done].
    cbn. apply bool_decide_eq_false. intros [-> ->].
    destruct Hw0 as [Hlive _]. unfold registry_set in Hread.
    rewrite Hread in Hlive. by apply live_lookup in Hj.
Qed.

End detached_facts.

(** ** Detaching during a delivery *)

Section detach_respected_facts.
Variables (env : callbacks_env) (key : string) (cb : handle).

Local Abbreviation respected := (detach_respected env key cb).











End detach_respected_facts.



(** The in-flight case on the sample: callback 2 detaches callback 3 while
    the event is being delivered; 1 and 2 are called, 3 is not. *)
Example detach_during_delivery :
  called (console (handler SampleRegistry.env SampleRegistry.key
                     SampleRegistry.inserted SampleRegistry.subscribed).1)
  = [(SampleRegistry.key, 1); (SampleRegistry.key, 2)].
Proof. by vm_compute. Qed.


(** ** Exceptions do not change who is called *)

Lemma without_errors_app tr1 tr2 :
  without_errors (tr1 ++ tr2) = without_errors tr1 ++ without_errors tr2.
Proof. apply filter_app. Qed.

Lemma same_but_errors_refl w : same_but_errors w w.
Proof. done. Qed.

Lemma same_but_errors_emit ev w1 w2 :
  same_but_errors w1 w2 → same_but_errors (emit ev w1) (emit ev w2).
Proof.
  intros (Hm & Hc & Htr). split_and!; [done..|]. world_simpl.
  by rewrite !without_errors_app, Htr.
Qed.

Lemma same_but_errors_logged msg e w1 w2 :
  same_but_errors w1 w2 → same_but_errors (emit (ConsoleError msg e) w1) w2.
Proof.
  intros (Hm & Hc & Htr). split_and!; [done..|]. world_simpl.
  rewrite without_errors_app, Htr.
  change (without_errors [ConsoleError msg e]) with (@nil event).
  by rewrite app_nil_r.
Qed.

Lemma same_but_errors_run_action a w1 w2 :
  same_but_errors w1 w2 → same_but_errors (run_action w1 a) (run_action w2 a).
Proof.
  intros (Hm & Hc & Htr).
  destruct w1 as [m1 c1 t1], w2 as [m2 c2 t2].
  cbn [realtimeManager connectionMonitor console] in Hm, Hc, Htr. subst.
  destruct a as [key cb|cb]; cbn [run_action]; [|done].
  unfold RealtimeManager.unsubscribe. cbv zeta. world_simpl.
  case_bool_decide; [|done].
  destruct (subscriptions m2 !! key); [|done].
  split_and!; [done..|]. world_simpl. by rewrite !without_errors_app, Htr.
Qed.

Lemma same_but_errors_run_actions acts w1 w2 :
  same_but_errors w1 w2 →
  same_but_errors (foldl run_action w1 acts) (foldl run_action w2 acts).
Proof.
  revert w1 w2. induction acts as [|a acts IH]; intros w1 w2 Hw; [done|].
  cbn [foldl]. apply IH. by apply same_but_errors_run_action.
Qed.

Lemma same_but_errors_try_catch ev b msg w1 w2 :
  same_but_errors w1 w2 →
  same_but_errors (try_catch (invoke ev b) (console_error msg) w1).1
                  (try_catch (invoke ev (quiet b)) (console_error msg) w2).1.
Proof.
  intros Hw. rewrite !try_catch_logged. cbn [fst quiet throws actions].
  assert (same_but_errors (foldl run_action (emit ev w1) (actions b))
                          (foldl run_action (emit ev w2) (actions b))) as Hr.
  { apply same_but_errors_run_actions. by apply same_but_errors_emit. }
  destruct (throws b); [by apply same_but_errors_logged|done].
Qed.

Lemma forEach_from_same_but_errors read f1 f2 :
  (∀ w1 w2, same_but_errors w1 w2 → read w1 = read w2) →
  (∀ cb w1 w2, same_but_errors w1 w2 →
     same_but_errors (f1 cb w1).1 (f2 cb w2).1) →
  (∀ cb w, (f1 cb w).2 = Ok tt) → (∀ cb w, (f2 cb w).2 = Ok tt) →
  ∀ n i w1 w2, same_but_errors w1 w2 →
    same_but_errors (forEach_from n i read f1 w1).1
                    (forEach_from n i read f2 w2).1.
Proof.
  intros Hread Hf Hr1 Hr2 n. induction n as [|n IH]; intros i w1 w2 Hw;
    [done|].
  cbn [forEach_from]. rewrite <- (Hread w1 w2 Hw).
  destruct (read w1 ≫= _) as [[cb|]|]; [|by apply IH..].
  pose proof (Hf cb w1 w2 Hw) as Hw'.
  pose proof (Hr1 cb w1) as H1. pose proof (Hr2 cb w2) as H2.
  destruct (f1 cb w1) as [w1' o1], (f2 cb w2) as [w2' o2].
  cbn in H1, H2, Hw'. subst. by apply IH.
Qed.

Section isolation.
Variable env : callbacks_env.

Lemma handler_returns key payload w : (handler env key payload w).2 = Ok tt.
Proof.
  unfold handler. destruct (registry_set key w); [|done].
  apply forEach_from_returns. intros cb w0. apply notify_returns.
Qed.

Lemma setOnlineStatus_returns status w :
  (setOnlineStatus env status w).2 = Ok tt.
Proof.
  unfold setOnlineStatus. cbv zeta.
  apply forEach_from_returns. intros cb w0. apply notify_status_returns.
Qed.

Lemma handler_mute key payload w :
  same_but_errors (handler env key payload w).1
                  (handler (mute env) key payload w).1.
Proof.
  unfold handler. destruct (registry_set key w); [|done].
  apply forEach_from_same_but_errors; [| | | |done].
  - intros w1 w2 (Hm & _ & _). unfold registry_set. by rewrite Hm.
  - intros cb w1 w2 Hw. unfold notify. cbn [mute on_change].
    by apply same_but_errors_try_catch.
  - intros cb w0. apply notify_returns.
  - intros cb w0. apply notify_returns.
Qed.

Lemma setOnlineStatus_mute status w :
  same_but_errors (setOnlineStatus env status w).1
                  (setOnlineStatus (mute env) status w).1.
Proof.
  unfold setOnlineStatus. cbv zeta.
  apply forEach_from_same_but_errors; [| | | |done].
  - intros w1 w2 (_ & Hc & _). unfold monitor_set. by rewrite Hc.
  - intros cb w1 w2 Hw. unfold notify_status. cbn [mute on_status].
    by apply same_but_errors_try_catch.
  - intros cb w0. apply notify_status_returns.
  - intros cb w0. apply notify_status_returns.
Qed.

(** *** Every exception is logged *)

Lemma try_catch_console ev b msg w :
  ∃ evs, only_closes evs
    ∧ console (try_catch (invoke ev b) (console_error msg) w).1
      = console w ++ [ev] ++ evs
        ++ match throws b with
           | Some e => [ConsoleError msg e]
           | None => []
           end.
Proof.
  rewrite try_catch_logged. cbn [fst].
  destruct (run_actions_console (actions b) (emit ev w))
    as (evs & Hevs & Hc).
  exists evs. split; [done|].
  destruct (throws b); world_simpl; rewrite Hc; world_simpl;
    by rewrite <- ?app_assoc, ?app_nil_r.
Qed.

Lemma errors_logged_closes evs : only_closes evs → errors_logged evs = [].
Proof. by apply only_closes_omap. Qed.

Lemma thrown_closes evs : only_closes evs → thrown env evs = [].
Proof. by apply only_closes_omap. Qed.

Lemma accounted_notify key payload cb w :
  errors_accounted env w →
  errors_accounted env (notify env key payload cb w).1.
Proof.
  unfold errors_accounted, notify. intros Hw.
  destruct (try_catch_console (Called key cb payload)
              (on_change env cb payload) "Realtime callback error:" w)
    as (evs & Hevs & ->).
  unfold errors_logged, thrown in *. rewrite !omap_app, Hw.
  rewrite (only_closes_omap _ evs) by done.
  rewrite (only_closes_omap _ evs) by done.
  cbn. by destruct (throws (on_change env cb payload)).
Qed.

Lemma accounted_notify_status status cb w :
  errors_accounted env w →
  errors_accounted env (notify_status env status cb w).1.
Proof.
  unfold errors_accounted, notify_status. intros Hw.
  destruct (try_catch_console (StatusCalled cb status)
              (on_status env cb status)
              "Connection status callback error:" w)
    as (evs & Hevs & ->).
  unfold errors_logged, thrown in *. rewrite !omap_app, Hw.
  rewrite (only_closes_omap _ evs) by done.
  rewrite (only_closes_omap _ evs) by done.
  cbn. by destruct (throws (on_status env cb status)).
Qed.

Lemma accounted_closes evs w :
  only_closes evs → errors_accounted env w →
  errors_logged (console w ++ evs) = thrown env (console w ++ evs).
Proof.
  unfold errors_accounted. intros Hevs Hw.
  unfold errors_logged, thrown in *. rewrite !omap_app, Hw.
  rewrite (only_closes_omap _ evs) by done.
  by rewrite (only_closes_omap _ evs) by done.
Qed.

Lemma accounted_step w o :
  errors_accounted env w → errors_accounted env (step env w o).
Proof.
  intros Hw. destruct o; cbn [step].
  - unfold errors_accounted. rewrite subscribe_console.
    unfold errors_logged, thrown in *. rewrite !omap_app, Hw.
    by destruct (subscriptions (realtimeManager w) !! _).
  - unfold errors_accounted.
    destruct (unsubscribe_console key cb w) as (evs & Hevs & ->).
    by apply accounted_closes.
  - unfold handler. destruct (registry_set key w); [|done].
    apply forEach_from_invariant; [|done].
    intros cb w0 s j Hw0 _ _. by apply accounted_notify.
  - unfold errors_accounted, RealtimeManager.cleanup. cbv zeta. world_simpl.
    rewrite cleanup_console. apply accounted_closes; [|done].
    apply Forall_fmap. by apply Forall_true.
  - done.
  - done.
  - unfold setOnlineStatus. cbv zeta.
    apply forEach_from_invariant; [|done].
    intros c w0 s j Hw0 _ _. by apply accounted_notify_status.
Qed.

Lemma accounted_run ops w :
  errors_accounted env w → errors_accounted env (run env ops w).
Proof.
  unfold run. revert w. induction ops as [|o ops IH]; intros w Hw; [done|].
  cbn [foldl]. apply IH. by apply accounted_step.
Qed.

(** *** Callbacks that detach nothing are all called, in order *)

Lemma log_all_nil w : log_all [] w = w.
Proof. destruct w. unfold log_all. cbn. by rewrite app_nil_r. Qed.

Lemma log_all_app evs1 evs2 w :
  log_all evs2 (log_all evs1 w) = log_all (evs1 ++ evs2) w.
Proof. unfold log_all. cbn. by rewrite app_assoc. Qed.

Lemma forEach_from_log read f (evs_of : handle → list event) s :
  (∀ cb w, f cb w = (log_all (evs_of cb) w, Ok tt)) →
  (∀ evs w, read (log_all evs w) = read w) →
  ∀ n i w, read w = Some s → n = length s - i →
    (forEach_from n i read f w).1
    = log_all (JSSet.live (drop i s) ≫= evs_of) w.
Proof.
  intros Hf Hread n. induction n as [|n IH]; intros i w Hs Hn.
  - rewrite drop_ge by lia. cbn. by rewrite log_all_nil.
  - cbn [forEach_from]. rewrite Hs. cbn [mbind option_bind].
    destruct (lookup_lt_is_Some_2 s i ltac:(lia)) as [x Hx].
    rewrite Hx, (drop_S s x i Hx), live_cons.
    destruct x as [cb|].
    + rewrite Hf, bind_cons.
      rewrite (IH (S i) (log_all (evs_of cb) w)); [|by rewrite Hread|lia].
      by rewrite log_all_app.
    + apply IH; [done|lia].
Qed.

Lemma notify_passive key payload cb w :
  notify (passive env) key payload cb w
  = (log_all (deliveries env key payload [cb]) w, Ok tt).
Proof.
  unfold notify. rewrite try_catch_logged. cbn.
  destruct (throws (on_change env cb payload)); unfold emit, log_all; cbn;
    by rewrite <- ?app_assoc.
Qed.

Lemma notify_status_passive status cb w :
  notify_status (passive env) status cb w
  = (log_all (status_deliveries env status [cb]) w, Ok tt).
Proof.
  unfold notify_status. rewrite try_catch_logged. cbn.
  destruct (throws (on_status env cb status)); unfold emit, log_all; cbn;
    by rewrite <- ?app_assoc.
Qed.

Lemma handler_passive key payload w :
  console (handler (passive env) key payload w).1
  = console w
    ++ deliveries env key payload
         (JSSet.live (default [] (registry_set key w))).
Proof.
  unfold handler. destruct (registry_set key w) as [s|] eqn:Hs.
  - rewrite (forEach_from_log (registry_set key) _
               (λ cb, deliveries env key payload [cb]) s);
      [|apply notify_passive|done|done|lia].
    world_simpl. unfold deliveries. f_equal.
    apply list_bind_ext; [|done]. intros cb. cbn. by rewrite app_nil_r.
  - cbn. by rewrite app_nil_r.
Qed.

Lemma setOnlineStatus_passive status w :
  console (setOnlineStatus (passive env) status w).1
  = console w
    ++ status_deliveries env status
         (JSSet.live (statusCallbacks (connectionMonitor w))).
Proof.
  unfold setOnlineStatus. cbv zeta.
  rewrite (forEach_from_log monitor_set _
             (λ cb, status_deliveries env status [cb])
             (statusCallbacks (connectionMonitor w)));
    [|apply notify_status_passive|done|done|lia].
  world_simpl. unfold status_deliveries. f_equal.
  apply list_bind_ext; [|done]. intros cb. cbn. by rewrite app_nil_r.
Qed.
End isolation.

(** C4.  A change event's fan-out and a connectivity transition's fan-out
    always return to their caller, whatever the callbacks throw.  An
    exception changes nothing but the console's errors: the callbacks
    invoked, the registry and the monitor are those of the run in which no
    callback throws.  When no callback detaches anything, every registered
    callback is called once, in registration order, and the exception of a
    callback is logged right after its call.  In every history each
    exception thrown by a call is on the console. *)
Theorem callback_failures_are_isolated
    (env : callbacks_env) (w : world) (key : string)
    (payload : change_event) (status : bool) :
  (handler env key payload w).2 = Ok tt
  ∧ (setOnlineStatus env status w).2 = Ok tt
  ∧ same_but_errors (handler env key payload w).1
                    (handler (mute env) key payload w).1
  ∧ same_but_errors (setOnlineStatus env status w).1
                    (setOnlineStatus (mute env) status w).1
  ∧ console (handler (passive env) key payload w).1
    = console w
      ++ deliveries env key payload
           (JSSet.live (default [] (registry_set key w)))
  ∧ console (setOnlineStatus (passive env) status w).1
    = console w
      ++ status_deliveries env status
           (JSSet.live (statusCallbacks (connectionMonitor w)))
  ∧ ∀ (ops : list op) (online : bool),
      errors_accounted env (run env ops (initial online)).
Proof.
  split_and!.
  - apply handler_returns.
  - apply setOnlineStatus_returns.
  - apply handler_mute.
  - apply setOnlineStatus_mute.
  - apply handler_passive.
  - apply setOnlineStatus_passive.
  - intros ops online. by apply accounted_run.
Qed.

(** On the sample: callback 1 throws, the error is logged, and callbacks 2
    and 3 are still told that the connection is lost. *)
Example connectivity_fan_out_sample :
  console (setOnlineStatus SampleRegistry.env false SampleRegistry.subscribed).1
  = console SampleRegistry.subscribed
    ++ [StatusCalled 1 false;
        ConsoleError "Connection status callback error:" (TypeError "boom");
        StatusCalled 2 false; StatusCalled 3 false].
Proof. by vm_compute. Qed.

(** * Further properties *)

(** ** The ledger: removal, round trips, sweeping *)

Lemma jsmap_get_delete_eq {V} (k : string) (m : JSMap.t V) :
  JSMap.get k (JSMap.delete k m) = None.
Proof.
  apply jsmap_get_None. rewrite jsmap_keys_delete.
  rewrite list_elem_of_filter. tauto.
Qed.

Lemma jsmap_get_delete_ne {V} (k k' : string) (m : JSMap.t V) :
  k ≠ k' → JSMap.get k' (JSMap.delete k m) = JSMap.get k' m.
Proof.
  intros Hne. unfold JSMap.delete. induction m as [|[k0 v0] m IH]; [done|].
  rewrite filter_cons. cbn [fst JSMap.get].
  destruct (decide (k0 ≠ k)) as [Hk0|Hk0].
  - cbn [JSMap.get]. by rewrite IH.
  - apply dec_stable in Hk0 as ->. by rewrite decide_False.
Qed.

Lemma jsmap_get_None_keys {V} (k : string) (m : JSMap.t V) :
  JSMap.get k m = None → k ∉ m.*1.
Proof.
  induction m as [|[k0 v0] m IH]; [intros _; apply not_elem_of_nil|].
  cbn [JSMap.get]. destruct (decide (k0 = k)) as [->|Hne]; [done|].
  intros Hk. rewrite fmap_cons. apply not_elem_of_cons. split; [done|].
  by apply IH.
Qed.

Lemma jsmap_delete_absent {V} (k : string) (m : JSMap.t V) :
  JSMap.get k m = None → JSMap.delete k m = m.
Proof.
  intros Hk%jsmap_get_None_keys. unfold JSMap.delete.
  induction m as [|[k0 v0] m IH]; [done|].
  rewrite fmap_cons in Hk. apply not_elem_of_cons in Hk as [Hne Hk].
  rewrite filter_cons_True by (cbn; by intros ->). by rewrite IH.
Qed.

Lemma jsmap_set_absent {V} (k : string) (v : V) (m : JSMap.t V) :
  JSMap.get k m = None → JSMap.set k v m = m ++ [(k, v)].
Proof.
  induction m as [|[k0 v0] m IH]; [done|].
  cbn [JSMap.get JSMap.set]. destruct (decide (k0 = k)); [done|].
  intros Hk. by rewrite IH.
Qed.

Lemma jsmap_delete_set {V} (k : string) (v : V) (m : JSMap.t V) :
  JSMap.delete k (JSMap.set k v m) = JSMap.delete k m.
Proof.
  unfold JSMap.delete. induction m as [|[k0 v0] m IH].
  - cbn [JSMap.set]. by rewrite filter_cons_False by (cbn; tauto).
  - cbn [JSMap.set]. destruct (decide (k0 = k)) as [->|Hne].
    + by rewrite !filter_cons_False by (cbn; tauto).
    + rewrite !filter_cons_True by done. by rewrite IH.
Qed.

(** [removePendingUpdate] deletes the entry of its key and nothing
    else: the key has no pending update afterwards, every other key reads
    as before, and removing a key that has no entry leaves the ledger as it
    was. *)
Theorem remove_pending_update
    (m : OptimisticUpdates.t) (k : string) :
  OptimisticUpdates.getPendingUpdate k
    (OptimisticUpdates.removePendingUpdate k m) = None
  ∧ (∀ k', k ≠ k' →
       OptimisticUpdates.getPendingUpdate k'
         (OptimisticUpdates.removePendingUpdate k m)
       = OptimisticUpdates.getPendingUpdate k' m)
  ∧ (OptimisticUpdates.getPendingUpdate k m = None →
     OptimisticUpdates.removePendingUpdate k m = m).
Proof.
  unfold OptimisticUpdates.getPendingUpdate,
    OptimisticUpdates.removePendingUpdate.
  split_and!.
  - apply jsmap_get_delete_eq.
  - intros k' Hne. by apply jsmap_get_delete_ne.
  - apply jsmap_delete_absent.
Qed.

Lemma remove_pending_update_witness :
  OptimisticUpdates.getPendingUpdate "temp-1"
    (OptimisticUpdates.removePendingUpdate "habit-2" Sample.ledger)
  = OptimisticUpdates.getPendingUpdate "temp-1" Sample.ledger
  ∧ OptimisticUpdates.removePendingUpdate "nothing" Sample.ledger
    = Sample.ledger.
Proof.
  destruct (remove_pending_update Sample.ledger "habit-2") as (_ & Hother & _).
  destruct (remove_pending_update Sample.ledger "nothing") as (_ & _ & Hnone).
  split.
  - apply Hother. discriminate.
  - apply Hnone. reflexivity.
Defined.

(** X1.  Registering a pending update under a key and removing it again
    leaves the ledger as if the key had only been removed; when the key had
    no entry before, the ledger is exactly what it was (same entries, same
    order). *)
Theorem add_then_remove_pending_update
    (m : OptimisticUpdates.t) (k : string) (u : OptimisticUpdates.update)
    (now : Z) :
  OptimisticUpdates.removePendingUpdate k
    (OptimisticUpdates.addPendingUpdate k u now m)
  = OptimisticUpdates.removePendingUpdate k m
  ∧ (OptimisticUpdates.getPendingUpdate k m = None →
     OptimisticUpdates.removePendingUpdate k
       (OptimisticUpdates.addPendingUpdate k u now m) = m).
Proof.
  unfold OptimisticUpdates.getPendingUpdate,
    OptimisticUpdates.removePendingUpdate, OptimisticUpdates.addPendingUpdate.
  rewrite jsmap_delete_set. split; [done|]. apply jsmap_delete_absent.
Qed.

Lemma add_then_remove_pending_update_witness :
  OptimisticUpdates.removePendingUpdate "temp-2"
    (OptimisticUpdates.addPendingUpdate "temp-2"
       (Sample.pending "habit" "add" VUndef (Some Sample.write)) 40
       Sample.ledger)
  = Sample.ledger.
Proof.
  apply (add_then_remove_pending_update Sample.ledger "temp-2"
           (Sample.pending "habit" "add" VUndef (Some Sample.write)) 40).
  reflexivity.
Defined.

(** X2.  Sweeping twice is sweeping once at the later time: when the clock
    has not gone back between two sweeps, the second alone would have left
    the same ledger; in particular a sweep repeated at the same time changes
    nothing. *)
Theorem sweep_twice (m : OptimisticUpdates.t) (t1 t2 : Z) :
  JSMap.wf m → (t1 ≤ t2)%Z →
  OptimisticUpdates.cleanOldUpdates t2 (OptimisticUpdates.cleanOldUpdates t1 m)
  = OptimisticUpdates.cleanOldUpdates t2 m
  ∧ OptimisticUpdates.cleanOldUpdates t1
      (OptimisticUpdates.cleanOldUpdates t1 m)
    = OptimisticUpdates.cleanOldUpdates t1 m.
Proof.
  intros Hwf Ht.
  assert (∀ a b, (a ≤ b)%Z →
            OptimisticUpdates.cleanOldUpdates b
              (OptimisticUpdates.cleanOldUpdates a m)
            = OptimisticUpdates.cleanOldUpdates b m) as Hab.
  { intros a b Hle. rewrite (cleanOldUpdates_filter a m Hwf).
    rewrite cleanOldUpdates_filter by (by apply jsmap_wf_filter).
    rewrite (cleanOldUpdates_filter b m Hwf). unfold sweep_spec.
    rewrite list_filter_filter. apply list_filter_iff. intros e. lia. }
  split; [by apply Hab|]. by apply Hab.
Qed.

Lemma sweep_twice_witness :
  OptimisticUpdates.cleanOldUpdates 30025
    (OptimisticUpdates.cleanOldUpdates 30015 Sample.ledger)
  = OptimisticUpdates.cleanOldUpdates 30025 Sample.ledger.
Proof.
  apply (sweep_twice Sample.ledger 30015 30025 sample_ledger_wf).
  vm_compute. discriminate.
Defined.

(** ** The projections: what does not count *)

Lemma applyTo_run c ledger base h :
  applyTo c ledger base h = projection_result c ledger base h.
Proof.
  destruct c; cbn [applyTo].
  - apply applyToHabits_run.
  - apply applyToHabitLogs_run.
  - apply applyToTodos_run.
Qed.

Lemma run_steps_app {A} (stepf : A → list elem → outcome (list elem))
    (es1 es2 : list A) (l : list elem) :
  run_steps stepf (es1 ++ es2) l
  = match (run_steps stepf es1 l).2 with
    | Ok _ => run_steps stepf es2 (run_steps stepf es1 l).1
    | Throw err => run_steps stepf es1 l
    end.
Proof.
  revert l. induction es1 as [|e es1 IH]; intros l; [done|].
  cbn [app run_steps]. destruct (stepf e l) as [l'|err]; [apply IH|done].
Qed.

Lemma apply_one_other_class c u l :
  OptimisticUpdates.type u ≠ class_tag c → apply_one c u l = Ok l.
Proof.
  intros Hty. unfold apply_one, strict_eq. by rewrite bool_decide_false.
Qed.

Lemma apply_all_of_class c ledger l :
  apply_all c (of_class c ledger) l = apply_all c ledger l.
Proof.
  unfold apply_all, of_class. revert l.
  induction ledger as [|[k u] ledger IH]; intros l; [done|].
  rewrite filter_cons. cbn [snd run_steps].
  destruct (decide (OptimisticUpdates.type u = class_tag c)) as [Hty|Hty].
  - cbn [run_steps snd]. destruct (apply_one c u l); [apply IH|done].
  - rewrite apply_one_other_class by done. apply IH.
Qed.

(** X3.  A projection reads only the pending updates of its own class:
    those of the other classes can be dropped from the ledger without
    changing what it returns; and when the ledger has no update of the
    class (after [cleanup], say) the result is a new array with the
    elements of the base. *)
Theorem projection_reads_own_class
    (c : entity_class) (ledger : OptimisticUpdates.t) (base : loc)
    (h : store) (l : list elem) :
  applyTo c (of_class c ledger) base h = applyTo c ledger base h
  ∧ (h !! base = Some l → of_class c ledger = [] →
     applyTo c ledger base h = (<[fresh (dom h) := l]> h, Ok (fresh (dom h))))
  ∧ (h !! base = Some l →
     applyTo c (OptimisticUpdates.cleanup ledger) base h
     = (<[fresh (dom h) := l]> h, Ok (fresh (dom h)))).
Proof.
  rewrite !applyTo_run. unfold projection_result.
  split_and!.
  - destruct (h !! base); [|done]. by rewrite apply_all_of_class.
  - intros Hbase Hnone. rewrite Hbase, <- (apply_all_of_class c ledger), Hnone.
    done.
  - intros Hbase. by rewrite Hbase.
Qed.

Lemma projection_reads_own_class_witness :
  applyTo Todo Sample.ledger 0 Sample.habit_store
  = (<[fresh (dom Sample.habit_store) := Some <$> Sample.habits]>
       Sample.habit_store,
     Ok (fresh (dom Sample.habit_store))).
Proof.
  destruct (projection_reads_own_class Todo Sample.ledger 0
              Sample.habit_store (Some <$> Sample.habits)) as (_ & Hnone & _).
  apply Hnone; reflexivity.
Defined.

(** ** The projections: missing targets, cancelling updates, missing
    payloads *)

Lemma projects_to_inv c ledger base h recs :
  projects_to c ledger base h recs →
  ∃ l, h !! base = Some l ∧ apply_all c ledger l = (Some <$> recs, Ok tt).
Proof.
  unfold projects_to. rewrite applyTo_run. unfold projection_result.
  destruct (h !! base) as [l|]; [|done]. cbv zeta. intros Heq.
  exists l. split; [done|].
  injection Heq as Hstore Hout.
  apply (f_equal (λ s : store, s !! fresh (dom h))) in Hstore.
  rewrite !lookup_insert_eq in Hstore. injection Hstore as Hl.
  destruct (apply_all c ledger l) as [l' [[]|err]]; cbn in *; [|done].
  by subst.
Qed.

Lemma projects_to_intro c ledger base h l recs :
  h !! base = Some l → apply_all c ledger l = (Some <$> recs, Ok tt) →
  projects_to c ledger base h recs.
Proof.
  intros Hbase Hall. unfold projects_to. rewrite applyTo_run.
  unfold projection_result. by rewrite Hbase, Hall.
Qed.

Lemma apply_all_app c ledger1 ledger2 l :
  apply_all c (ledger1 ++ ledger2) l
  = match (apply_all c ledger1 l).2 with
    | Ok _ => apply_all c ledger2 (apply_all c ledger1 l).1
    | Throw err => apply_all c ledger1 l
    end.
Proof. apply run_steps_app. Qed.

Lemma remove_first_none (P : object → bool) (l : list object) :
  (∀ r, r ∈ l → P r = false) → remove_first P l = l.
Proof.
  induction l as [|r l IH]; intros HP; [done|]. cbn.
  rewrite (HP r) by left. rewrite IH; [done|].
  intros r' Hr'. apply HP. by right.
Qed.

Lemma replace_first_none (P : object → bool) f (l : list object) :
  (∀ r, r ∈ l → P r = false) → replace_first P f l = l.
Proof.
  induction l as [|r l IH]; intros HP; [done|]. cbn.
  rewrite (HP r) by left. rewrite IH; [done|].
  intros r' Hr'. apply HP. by right.
Qed.

Lemma remove_first_last (P : object → bool) (l : list object) (r : object) :
  (∀ r', r' ∈ l → P r' = false) → P r = true →
  remove_first P (l ++ [r]) = l.
Proof.
  intros HP Hr. induction l as [|r0 l IH]; cbn.
  - by rewrite Hr.
  - rewrite (HP r0) by left. rewrite IH; [done|].
    intros r' Hr'. apply HP. by right.
Qed.

Lemma apply_pending_add c l u r :
  OptimisticUpdates.type u = class_tag c →
  OptimisticUpdates.operation u = VStr "add" →
  OptimisticUpdates.data u = Some r →
  apply_pending c l u = l ++ [r].
Proof.
  intros Hty Hop Hdata. unfold apply_pending. rewrite Hdata.
  by rewrite !bool_decide_true by done.
Qed.

Lemma apply_pending_delete c l u :
  OptimisticUpdates.type u = class_tag c →
  OptimisticUpdates.operation u = VStr "delete" →
  apply_pending c l u = remove_first (has_identity c u) l.
Proof.
  intros Hty Hop. unfold apply_pending. rewrite Hop.
  rewrite bool_decide_true by done. by rewrite !bool_decide_false by done.
Qed.

Lemma apply_pending_update c l u :
  OptimisticUpdates.type u = class_tag c →
  OptimisticUpdates.operation u = VStr "update" →
  apply_pending c l u
  = replace_first (has_target_id u) (merge (OptimisticUpdates.data u)) l.
Proof.
  intros Hty Hop. unfold apply_pending. rewrite Hop.
  rewrite bool_decide_true by done. by rewrite bool_decide_false by done.
Qed.

Lemma scanning_without_match c u (recs : list object) :
  OptimisticUpdates.type u = class_tag c → scans c u →
  (∀ r, r ∈ recs → targets c u r = false) →
  apply_one c u (Some <$> recs) = Ok (Some <$> recs).
Proof.
  intros Hty Hscan Hnone. unfold targets in Hnone.
  rewrite apply_one_spec.
  - destruct Hscan as [Hdel|[Hc Hup]].
    + rewrite apply_pending_delete by done.
      rewrite bool_decide_true in Hnone by done.
      by rewrite remove_first_none.
    + rewrite apply_pending_update by done.
      rewrite bool_decide_false in Hnone by (rewrite Hup; done).
      by rewrite replace_first_none.
  - intros _ Hadd. destruct Hscan as [Hdel|[_ Hup]]; congruence.
  - destruct Hscan as [Hdel|[Hc Hup]]; [right; congruence|by left].
Qed.

Lemma stamp_fields u now :
  OptimisticUpdates.type (OptimisticUpdates.stamp u now)
    = OptimisticUpdates.type u
  ∧ OptimisticUpdates.operation (OptimisticUpdates.stamp u now)
    = OptimisticUpdates.operation u
  ∧ OptimisticUpdates.data (OptimisticUpdates.stamp u now)
    = OptimisticUpdates.data u.
Proof. done. Qed.

Lemma apply_one_stamp c u now l :
  apply_one c (OptimisticUpdates.stamp u now) l = apply_one c u l.
Proof. done. Qed.

Lemma apply_all_put c ledger k u now l :
  OptimisticUpdates.getPendingUpdate k ledger = None →
  apply_all c (OptimisticUpdates.addPendingUpdate k u now ledger) l
  = match (apply_all c ledger l).2 with
    | Ok _ =>
        match apply_one c u (apply_all c ledger l).1 with
        | Ok l' => (l', Ok tt)
        | Throw err => ((apply_all c ledger l).1, Throw err)
        end
    | Throw err => apply_all c ledger l
    end.
Proof.
  intros Hk. unfold OptimisticUpdates.addPendingUpdate.
  rewrite jsmap_set_absent by done. rewrite apply_all_app.
  destruct (apply_all c ledger l) as [l1 [[]|err]]; [|done].
  cbn [fst snd]. unfold apply_all at 1. cbn [run_steps snd].
  rewrite apply_one_stamp. by destruct (apply_one c u l1).
Qed.

(** X4.  A pending [delete], or a pending [update] of a habit or a todo,
    whose target is not in the collection changes nothing: the projection
    returns the same records as without it (an update of a missing record
    does not insert it). *)
Theorem pending_update_without_target
    (c : entity_class) (ledger : OptimisticUpdates.t) (base : loc)
    (h : store) (recs : list object) (k : string)
    (u : OptimisticUpdates.update) (now : Z) :
  projects_to c ledger base h recs →
  OptimisticUpdates.getPendingUpdate k ledger = None →
  OptimisticUpdates.type u = class_tag c → scans c u →
  (∀ r, r ∈ recs → targets c u r = false) →
  projects_to c (OptimisticUpdates.addPendingUpdate k u now ledger) base h
    recs.
Proof.
  intros (l & Hbase & Hall)%projects_to_inv Hk Hty Hscan Hnone.
  apply (projects_to_intro c _ base h l recs Hbase).
  rewrite apply_all_put by done. rewrite Hall. cbn [fst snd].
  by rewrite scanning_without_match.
Qed.

(** X5.  A pending [add] followed by a pending [delete] of the record it
    adds cancel each other: when no record of the collection has the
    deleted identity, the projection returns the records it returned
    without the two. *)
Theorem pending_add_then_delete_cancel
    (c : entity_class) (ledger : OptimisticUpdates.t) (base : loc)
    (h : store) (recs : list object) (k1 k2 : string)
    (added deleted : OptimisticUpdates.update) (r : object) (t1 t2 : Z) :
  projects_to c ledger base h recs →
  OptimisticUpdates.getPendingUpdate k1 ledger = None →
  OptimisticUpdates.getPendingUpdate k2 ledger = None → k1 ≠ k2 →
  OptimisticUpdates.type added = class_tag c →
  OptimisticUpdates.operation added = VStr "add" →
  OptimisticUpdates.data added = Some r →
  OptimisticUpdates.type deleted = class_tag c →
  OptimisticUpdates.operation deleted = VStr "delete" →
  has_identity c deleted r = true →
  (∀ r', r' ∈ recs → has_identity c deleted r' = false) →
  projects_to c
    (OptimisticUpdates.addPendingUpdate k2 deleted t2
       (OptimisticUpdates.addPendingUpdate k1 added t1 ledger))
    base h recs.
Proof.
  intros (l & Hbase & Hall)%projects_to_inv Hk1 Hk2 Hne Hty1 Hop1 Hdata
    Hty2 Hop2 Hr Hnone.
  apply (projects_to_intro c _ base h l recs Hbase).
  rewrite apply_all_put.
  2:{ unfold OptimisticUpdates.getPendingUpdate,
        OptimisticUpdates.addPendingUpdate.
      by rewrite jsmap_get_set_ne. }
  rewrite apply_all_put by done. rewrite Hall. cbn [fst snd].
  rewrite apply_one_spec; [|by rewrite Hdata|right; congruence].
  cbn [fst snd]. rewrite apply_one_spec; [|congruence|right; congruence].
  do 2 f_equal. rewrite (apply_pending_add c recs added r) by done.
  rewrite apply_pending_delete by done.
  by apply remove_first_last.
Qed.

Lemma identity_test_undefined c u :
  identity_test c u None
  = Throw (TypeError "Cannot read properties of undefined")
  ∧ id_test u None = Throw (TypeError "Cannot read properties of undefined").
Proof. by destruct c. Qed.

Lemma findIndex_reaches_undefined (p : elem → outcome bool)
    (recs : list object) (rest : list elem) (i : Z) (err : error) :
  (∀ r, r ∈ recs → p (Some r) = Ok false) → p None = Throw err →
  findIndex_from i p ((Some <$> recs) ++ None :: rest) = Throw err.
Proof.
  intros Hrecs Hnone. revert i. induction recs as [|r recs IH]; intros i.
  - cbn. by rewrite Hnone.
  - cbn. rewrite (Hrecs r) by left. apply IH.
    intros r' Hr'. apply Hrecs. by right.
Qed.

(** X6.  A pending [add] without [data] puts [undefined] into the
    projected array; a later pending [delete] (or [update] of a habit or a
    todo) of the same class whose target is not found before it reads a
    property of [undefined]: the projection throws a [TypeError] instead of
    returning, leaving the base untouched. *)
Theorem pending_add_without_payload_throws
    (c : entity_class) (ledger : OptimisticUpdates.t) (base : loc)
    (h : store) (recs : list object) (k1 k2 : string)
    (added scanning : OptimisticUpdates.update) (t1 t2 : Z) :
  projects_to c ledger base h recs →
  OptimisticUpdates.getPendingUpdate k1 ledger = None →
  OptimisticUpdates.getPendingUpdate k2 ledger = None → k1 ≠ k2 →
  OptimisticUpdates.type added = class_tag c →
  OptimisticUpdates.operation added = VStr "add" →
  OptimisticUpdates.data added = None →
  OptimisticUpdates.type scanning = class_tag c → scans c scanning →
  (∀ r, r ∈ recs → targets c scanning r = false) →
  applyTo c
    (OptimisticUpdates.addPendingUpdate k2 scanning t2
       (OptimisticUpdates.addPendingUpdate k1 added t1 ledger))
    base h
  = (<[fresh (dom h) := (Some <$> recs) ++ [None]]> h,
     Throw (TypeError "Cannot read properties of undefined")).
Proof.
  intros (l & Hbase & Hall)%projects_to_inv Hk1 Hk2 Hne Hty1 Hop1 Hdata
    Hty2 Hscan Hnone.
  rewrite applyTo_run. unfold projection_result. rewrite Hbase. cbv zeta.
  rewrite apply_all_put.
  2:{ unfold OptimisticUpdates.getPendingUpdate,
        OptimisticUpdates.addPendingUpdate.
      by rewrite jsmap_get_set_ne. }
  rewrite apply_all_put by done. rewrite Hall. cbn [fst snd].
  assert (apply_one c added (Some <$> recs)
          = Ok ((Some <$> recs) ++ [None])) as ->.
  { unfold apply_one, strict_eq. rewrite !bool_decide_true by done.
    by rewrite Hdata. }
  cbn [fst snd].
  assert (apply_one c scanning ((Some <$> recs) ++ [None])
          = Throw (TypeError "Cannot read properties of undefined")) as ->.
  { unfold apply_one, strict_eq. rewrite bool_decide_true by done.
    unfold targets in Hnone.
    destruct Hscan as [Hdel|[Hc Hup]].
    - rewrite Hdel in *. rewrite bool_decide_false by done.
      rewrite bool_decide_true by done.
      rewrite bool_decide_true in Hnone by done.
      rewrite (findIndex_reaches_undefined _ recs [] 0
                 (TypeError "Cannot read properties of undefined")); [done| |].
      + intros r Hr. rewrite identity_test_record. f_equal. by apply Hnone.
      + apply identity_test_undefined.
    - rewrite Hup, Hc in *. rewrite !bool_decide_false by done.
      rewrite bool_decide_true by done. cbn [andb].
      rewrite bool_decide_false in Hnone by done.
      rewrite (findIndex_reaches_undefined _ recs [] 0
                 (TypeError "Cannot read properties of undefined")); [done| |].
      + intros r Hr. rewrite id_test_record. f_equal. by apply Hnone.
      + done. }
  done.
Qed.

Lemma sample_projects_to :
  projects_to Habit Sample.ledger 0 Sample.habit_store SampleMore.projected.
Proof. by vm_compute. Qed.

Ltac sample_members Hr :=
  repeat (apply elem_of_cons in Hr as [->|Hr]; [by vm_compute|]);
  by apply elem_of_nil in Hr.

Lemma pending_update_without_target_witness :
  projects_to Habit
    (OptimisticUpdates.addPendingUpdate "delete-9"
       (Sample.pending "habit" "delete" (VNum 9) None) 40 Sample.ledger)
    0 Sample.habit_store SampleMore.projected.
Proof.
  apply pending_update_without_target.
  - exact sample_projects_to.
  - reflexivity.
  - reflexivity.
  - left. reflexivity.
  - intros r Hr. sample_members Hr.
Defined.

Lemma pending_add_then_delete_cancel_witness :
  projects_to Habit
    (OptimisticUpdates.addPendingUpdate "delete-9"
       (Sample.pending "habit" "delete" (VNum 9) None) 50
       (OptimisticUpdates.addPendingUpdate "temp-9"
          (Sample.pending "habit" "add" VUndef (Some SampleMore.swim)) 40
          Sample.ledger))
    0 Sample.habit_store SampleMore.projected.
Proof.
  apply (pending_add_then_delete_cancel Habit Sample.ledger 0
           Sample.habit_store SampleMore.projected "temp-9" "delete-9"
           (Sample.pending "habit" "add" VUndef (Some SampleMore.swim))
           (Sample.pending "habit" "delete" (VNum 9) None)
           SampleMore.swim 40 50); try reflexivity.
  - discriminate.
  - intros r Hr. sample_members Hr.
Defined.

Lemma pending_add_without_payload_throws_witness :
  applyTo Habit
    (OptimisticUpdates.addPendingUpdate "delete-9"
       (Sample.pending "habit" "delete" (VNum 9) None) 50
       (OptimisticUpdates.addPendingUpdate "temp-9"
          (Sample.pending "habit" "add" VUndef None) 40 Sample.ledger))
    0 Sample.habit_store
  = (<[fresh (dom Sample.habit_store)
       := (Some <$> SampleMore.projected) ++ [None]]> Sample.habit_store,
     Throw (TypeError "Cannot read properties of undefined")).
Proof.
  apply (pending_add_without_payload_throws Habit Sample.ledger 0
           Sample.habit_store SampleMore.projected "temp-9" "delete-9"
           (Sample.pending "habit" "add" VUndef None)
           (Sample.pending "habit" "delete" (VNum 9) None) 40 50);
    try reflexivity.
  - discriminate.
  - left. reflexivity.
  - intros r Hr. sample_members Hr.
Defined.

(** ** The read cache: overwriting, other keys, the sweep *)

Lemma cache_get_miss k now c :
  DataCache.cache c !! k = None → DataCache.get k now c = (c, null).
Proof. intros Hk. unfold DataCache.get. by rewrite Hk. Qed.

Lemma cache_get_live k now c item :
  DataCache.cache c !! k = Some item →
  (now - DataCache.timestamp item ≤ DataCache.ttl c)%Z →
  DataCache.get k now c = (c, DataCache.value item).
Proof.
  intros Hk Hlive. unfold DataCache.get. rewrite Hk.
  by rewrite bool_decide_false by lia.
Qed.

Lemma cache_get_expired k now c item :
  DataCache.cache c !! k = Some item →
  (now - DataCache.timestamp item > DataCache.ttl c)%Z →
  DataCache.get k now c
  = ({| DataCache.cache := delete k (DataCache.cache c);
        DataCache.ttl := DataCache.ttl c |}, null).
Proof.
  intros Hk Hold. unfold DataCache.get. rewrite Hk.
  by rewrite bool_decide_true by lia.
Qed.

(** X7.  A second [set] of a key replaces the first entirely, value and
    timestamp: the cache is the one the second [set] alone would have
    produced, so the value stays readable for a full time-to-live counted
    from the second [set]. *)
Theorem cache_set_overwrites
    (c : DataCache.t) (k : string) (v1 v2 : jsval) (t1 t2 now : Z) :
  DataCache.set k v2 t2 (DataCache.set k v1 t1 c) = DataCache.set k v2 t2 c
  ∧ ((now - t2 ≤ DataCache.ttl c)%Z →
     (DataCache.get k now (DataCache.set k v2 t2 (DataCache.set k v1 t1 c))).2
     = v2).
Proof.
  assert (DataCache.set k v2 t2 (DataCache.set k v1 t1 c)
          = DataCache.set k v2 t2 c) as Heq.
  { unfold DataCache.set. cbn. by rewrite insert_insert_eq. }
  split; [done|]. intros Hlive. rewrite Heq.
  rewrite (cache_get_live k now _ {| DataCache.value := v2;
                                     DataCache.timestamp := t2 |}); [done| |done].
  unfold DataCache.set. cbn [DataCache.cache]. apply lookup_insert_eq.
Qed.

Lemma cache_set_overwrites_witness :
  (DataCache.get "k" 400000
     (DataCache.set "k" (JPrim (VNum 2)) 200000
        (DataCache.set "k" (JPrim (VNum 1)) 0 (DataCache.new None)))).2
  = JPrim (VNum 2).
Proof.
  apply (cache_set_overwrites (DataCache.new None) "k" (JPrim (VNum 1))
           (JPrim (VNum 2)) 0 200000 400000).
  vm_compute. discriminate.
Defined.

(** Entries of different keys do not interfere: a [set] of one key
    and a [get] of another commute, the [get] returning what it would have
    returned before the [set]. *)
Theorem cache_keys_independent
    (c : DataCache.t) (k k' : string) (v : jsval) (t now : Z) :
  k ≠ k' →
  DataCache.get k' now (DataCache.set k v t c)
  = (DataCache.set k v t (DataCache.get k' now c).1,
     (DataCache.get k' now c).2).
Proof.
  intros Hne. unfold DataCache.get, DataCache.set. cbn.
  rewrite lookup_insert_ne by done.
  destruct (DataCache.cache c !! k') as [item|]; [|done].
  case_bool_decide; [|done]. cbn. by rewrite delete_insert_ne.
Qed.

Lemma cache_keys_independent_witness :
  DataCache.get "b" 5 (DataCache.set "a" null 0 (DataCache.new None))
  = (DataCache.set "a" null 0 (DataCache.get "b" 5 (DataCache.new None)).1,
     (DataCache.get "b" 5 (DataCache.new None)).2).
Proof.
  apply (cache_keys_independent (DataCache.new None) "a" "b" null 0 5).
  discriminate.
Defined.

Lemma fold_delete_lookup (now ttl : Z) (m0 m : gmap string DataCache.item)
    (k : string) :
  map_fold (λ key item acc,
              if bool_decide (now - DataCache.timestamp item > ttl)%Z
              then delete key acc else acc) m0 m !! k
  = match m !! k with
    | Some item =>
        if bool_decide (now - DataCache.timestamp item > ttl)%Z
        then None else m0 !! k
    | None => m0 !! k
    end.
Proof.
  apply (map_fold_weak_ind
           (λ (r : gmap string DataCache.item) m',
              r !! k
              = match m' !! k with
                | Some item =>
                    if bool_decide (now - DataCache.timestamp item > ttl)%Z
                    then None else m0 !! k
                | None => m0 !! k
                end)).
  - by rewrite lookup_empty.
  - intros i x m' r Hi IH. destruct (decide (i = k)) as [->|Hne].
    + rewrite lookup_insert_eq. rewrite Hi in IH.
      case_bool_decide; [apply lookup_delete_eq|done].
    + rewrite lookup_insert_ne by done.
      case_bool_decide; [by rewrite lookup_delete_ne|done].
Qed.

Lemma cache_cleanup_lookup now c k :
  DataCache.cache (DataCache.cleanup now c) !! k
  = match DataCache.cache c !! k with
    | Some item =>
        if bool_decide (now - DataCache.timestamp item > DataCache.ttl c)%Z
        then None else Some item
    | None => None
    end.
Proof.
  unfold DataCache.cleanup. cbn [DataCache.cache].
  rewrite fold_delete_lookup.
  by destruct (DataCache.cache c !! k) eqn:Hk.
Qed.

(** X8.  [cleanup] removes exactly the expired entries and is invisible
    to readers: an entry stays iff its age is at most the time-to-live, and
    a [get] at the time of the sweep or later (the clock not going back)
    returns what it would have returned without the sweep. *)
Theorem cache_cleanup_sweeps_expired
    (c : DataCache.t) (now now' : Z) (k : string) :
  (∀ item, DataCache.cache (DataCache.cleanup now c) !! k = Some item
     ↔ DataCache.cache c !! k = Some item
       ∧ (now - DataCache.timestamp item ≤ DataCache.ttl c)%Z)
  ∧ DataCache.ttl (DataCache.cleanup now c) = DataCache.ttl c
  ∧ ((now ≤ now')%Z →
     (DataCache.get k now' (DataCache.cleanup now c)).2
     = (DataCache.get k now' c).2).
Proof.
  split_and!.
  - intros item. rewrite cache_cleanup_lookup.
    destruct (DataCache.cache c !! k) as [item'|];
      [|split; [done|by intros [? _]]].
    case_bool_decide; split.
    + done.
    + intros [[= ->] ?]. lia.
    + intros [= ->]. split; [done|lia].
    + by intros [[= ->] _].
  - done.
  - intros Hle. unfold DataCache.get.
    rewrite cache_cleanup_lookup. cbn [DataCache.ttl DataCache.cleanup].
    destruct (DataCache.cache c !! k) as [item|]; [|done].
    case_bool_decide as Hold.
    + by rewrite bool_decide_true by lia.
    + by case_bool_decide.
Qed.

Lemma cache_cleanup_sweeps_expired_witness :
  (DataCache.get "k" 300002
     (DataCache.cleanup 300001
        (DataCache.set "k" null 0 (DataCache.new None)))).2
  = (DataCache.get "k" 300002
       (DataCache.set "k" null 0 (DataCache.new None))).2.
Proof.
  apply (cache_cleanup_sweeps_expired
           (DataCache.set "k" null 0 (DataCache.new None)) 300001 300002 "k").
  vm_compute. discriminate.
Defined.

(** X9.  Reading does not change what later reads return: a [get] neither
    refreshes the timestamp of a live entry nor removes anything a later
    [get] (of the same or another key, the clock not going back) would
    still have returned. *)
Theorem cache_read_does_not_refresh
    (c : DataCache.t) (k k' : string) (t1 t2 : Z) :
  (t1 ≤ t2)%Z →
  (DataCache.get k' t2 (DataCache.get k t1 c).1).2 = (DataCache.get k' t2 c).2.
Proof.
  intros Hle. unfold DataCache.get at 2.
  destruct (DataCache.cache c !! k) as [item|] eqn:Hk; [|done].
  case_bool_decide as Hold; [|done]. cbn [fst].
  unfold DataCache.get. cbn [DataCache.cache DataCache.ttl].
  destruct (decide (k = k')) as [<-|Hne].
  - rewrite lookup_delete_eq, Hk. by rewrite bool_decide_true by lia.
  - rewrite lookup_delete_ne by done.
    by destruct (DataCache.cache c !! k') as [item'|]; [case_bool_decide|].
Qed.

Lemma cache_read_does_not_refresh_witness :
  (DataCache.get "k" 300000
     (DataCache.get "k" 299999
        (DataCache.set "k" (JPrim (VNum 1)) 0 (DataCache.new None))).1).2
  = (DataCache.get "k" 300000
       (DataCache.set "k" (JPrim (VNum 1)) 0 (DataCache.new None))).2.
Proof.
  apply (cache_read_does_not_refresh
           (DataCache.set "k" (JPrim (VNum 1)) 0 (DataCache.new None))
           "k" "k" 299999 300000).
  vm_compute. discriminate.
Defined.

(** ** The registry: keys, repeated calls, cleanup *)

Lemma world_eta w :
  with_manager
    {| subscriptions := subscriptions (realtimeManager w);
       callbacks := callbacks (realtimeManager w) |} w = w.
Proof. by destruct w as [[] ? ?]. Qed.

Lemma jsset_add_add cb (s : JSSet.t) :
  JSSet.add cb (JSSet.add cb s) = JSSet.add cb s.
Proof.
  unfold JSSet.add at 1. unfold JSSet.has. rewrite bool_decide_true; [done|].
  rewrite live_add. destruct (decide (cb ∈ JSSet.live s)); [done|].
  apply elem_of_app. right. left.
Qed.

Lemma jsset_delete_delete cb (s : JSSet.t) :
  JSSet.delete cb (JSSet.delete cb s) = JSSet.delete cb s.
Proof.
  unfold JSSet.delete. rewrite <- list_fmap_compose. apply list_fmap_ext.
  intros i e _. cbn. destruct (decide (e = Some cb)) as [->|Hne].
  - by rewrite decide_False.
  - by rewrite decide_False.
Qed.

Lemma jsset_delete_absent cb (s : JSSet.t) :
  cb ∉ JSSet.live s → JSSet.delete cb s = s.
Proof.
  intros Hcb. unfold JSSet.delete. rewrite <- (list_fmap_id s) at 2.
  apply list_fmap_ext. intros i e Hi. cbn.
  destruct (decide (e = Some cb)) as [->|Hne]; [|done].
  exfalso. apply Hcb. by apply live_lookup in Hi.
Qed.

(** X10.  An empty filter is no filter: [subscribe(table, cb, '')] does
    exactly what [subscribe(table, cb)] does.  And the filter ['all'] has
    the key of the unfiltered subscription: subscribed after it, it opens
    no channel of its own and shares the unfiltered one. *)
Theorem falsy_and_all_filters
    (table : string) (cb cb' : handle) (w : world) :
  RealtimeManager.subscribe table cb (Some "") w
  = RealtimeManager.subscribe table cb None w
  ∧ RealtimeManager.subscriptionKey table (Some "all")
    = RealtimeManager.subscriptionKey table None
  ∧ console
      (RealtimeManager.subscribe table cb' (Some "all")
         (RealtimeManager.subscribe table cb None w).1).1
    = console (RealtimeManager.subscribe table cb None w).1
  ∧ subscriptions
      (realtimeManager
         (RealtimeManager.subscribe table cb' (Some "all")
            (RealtimeManager.subscribe table cb None w).1).1)
    = subscriptions
        (realtimeManager (RealtimeManager.subscribe table cb None w).1).
Proof.
  split_and!; [done|done| |].
  - rewrite (subscribe_console table cb' (Some "all")).
    change (RealtimeManager.subscriptionKey table (Some "all"))
      with (RealtimeManager.subscriptionKey table None).
    rewrite (subscribe_subscriptions table cb None).
    destruct (subscriptions (realtimeManager w) !! _) eqn:Hs.
    + by rewrite Hs, app_nil_r.
    + by rewrite lookup_insert_eq, app_nil_r.
  - rewrite (subscribe_subscriptions table cb' (Some "all")).
    change (RealtimeManager.subscriptionKey table (Some "all"))
      with (RealtimeManager.subscriptionKey table None).
    rewrite (subscribe_subscriptions table cb None).
    destruct (subscriptions (realtimeManager w) !! _) eqn:Hs.
    + by rewrite Hs.
    + by rewrite lookup_insert_eq.
Qed.

(** X11.  Subscribing the same callback under the same key a second time
    changes nothing: the set of callbacks keeps one entry for it and no
    channel is opened. *)
Theorem subscribe_twice_is_once
    (table : string) (cb : handle) (filter : option string) (w : world) :
  (RealtimeManager.subscribe table cb filter
     (RealtimeManager.subscribe table cb filter w).1).1
  = (RealtimeManager.subscribe table cb filter w).1.
Proof.
  set (w1 := (RealtimeManager.subscribe table cb filter w).1).
  set (key := RealtimeManager.subscriptionKey table filter).
  assert (callbacks (realtimeManager w1) !! key
          = Some (JSSet.add cb
                    (default JSSet.empty
                       (callbacks (realtimeManager w) !! key)))) as Hk.
  { unfold w1. rewrite subscribe_callbacks. apply lookup_insert_eq. }
  assert (is_Some (subscriptions (realtimeManager w1) !! key)) as [ch Hs].
  { unfold w1. rewrite subscribe_subscriptions. fold key.
    destruct (subscriptions (realtimeManager w) !! key) eqn:Hs.
    - rewrite Hs. by eexists.
    - rewrite lookup_insert_eq. by eexists. }
  unfold RealtimeManager.subscribe at 1. cbv zeta. fold key.
  rewrite Hk, Hs. cbn [fst].
  rewrite alter_id; [apply world_eta|].
  intros s Hs'. rewrite Hk in Hs'. injection Hs' as <-.
  apply jsset_add_add.
Qed.

(** Calling an unsubscribe function a second time changes nothing. *)
Theorem unsubscribe_twice_is_once
    (key : string) (cb : handle) (w : world) :
  RealtimeManager.unsubscribe key cb (RealtimeManager.unsubscribe key cb w)
  = RealtimeManager.unsubscribe key cb w.
Proof.
  destruct (callbacks (realtimeManager w) !! key) as [s|] eqn:Hk.
  - destruct (decide (JSSet.size (JSSet.delete cb s) = 0)) as [Hz|Hnz].
    + apply unsubscribe_absent.
      rewrite (unsubscribe_last key cb w s Hk Hz). cbn.
      apply lookup_delete_eq.
    + rewrite (unsubscribe_keep key cb w s Hk Hnz).
      rewrite (unsubscribe_keep key cb _ (JSSet.delete cb s)).
      * cbn. by rewrite jsset_delete_delete, insert_insert_eq.
      * cbn. apply lookup_insert_eq.
      * by rewrite jsset_delete_delete.
  - rewrite (unsubscribe_absent key cb w Hk).
    apply (unsubscribe_absent key cb w Hk).
Qed.

(** X12.  An unsubscribe function whose callback is not registered under
    its key (already detached, or dropped by [cleanup]) does nothing: the
    other callbacks of the key and its channel stay. *)
Theorem unsubscribe_without_registration
    (key : string) (cb : handle) (w : world) :
  registry_consistent w →
  cb ∉ JSSet.live (default [] (callbacks (realtimeManager w) !! key)) →
  RealtimeManager.unsubscribe key cb w = w.
Proof.
  intros Hw Hcb.
  destruct (callbacks (realtimeManager w) !! key) as [s|] eqn:Hk;
    [|by apply unsubscribe_absent].
  cbn in Hcb. destruct (Hw key) as (_ & Hpos & _). specialize (Hpos s Hk).
  rewrite (unsubscribe_keep key cb w s Hk);
    rewrite jsset_delete_absent by done; [|lia].
  rewrite insert_id by done. apply world_eta.
Qed.

Lemma unsubscribe_without_registration_witness :
  RealtimeManager.unsubscribe SampleRegistry.key 7
    (run SampleRegistry.env
       [Subscribe "habits" 1 (Some "user_id=eq.u1")] (initial true))
  = run SampleRegistry.env
      [Subscribe "habits" 1 (Some "user_id=eq.u1")] (initial true).
Proof.
  apply unsubscribe_without_registration.
  - apply consistent_run. apply consistent_initial.
  - vm_compute. intros Hin. inversion Hin as [|? ? ? Hin']. inversion Hin'.
Defined.

(** X13.  After [cleanup], in any state the registry reaches: both maps
    are empty, every channel ever opened for a key has been closed, an
    unsubscribe function handed out before does nothing, and an event
    that still arrives calls nobody. *)
Theorem cleanup_closes_everything
    (env : callbacks_env) (ops : list op) (online : bool)
    (key : string) (cb : handle) (payload : change_event) :
  let w := RealtimeManager.cleanup (run env ops (initial online)) in
  subscriptions (realtimeManager w) = ∅
  ∧ callbacks (realtimeManager w) = ∅
  ∧ opened key (console w) = closed key (console w)
  ∧ RealtimeManager.unsubscribe key cb w = w
  ∧ handler env key payload w = (w, Ok tt).
Proof.
  intros w.
  assert (registry_consistent w) as Hw.
  { apply consistent_cleanup, consistent_run, consistent_initial. }
  assert (callbacks (realtimeManager w) !! key = None) as Hk by done.
  split_and!; [done|done| | |].
  - destruct (Hw key) as (_ & _ & Hcount).
    assert (subscriptions (realtimeManager w) !! key = None) as Hs by done.
    rewrite Hs in Hcount. lia.
  - by apply unsubscribe_absent.
  - unfold handler, registry_set. by rewrite Hk.
Qed.

(** ** The helper subscriptions *)

Lemma user_filter_truthy userId :
  RealtimeManager.truthy (Some ("user_id=eq." +:+ userId))
  = Some ("user_id=eq." +:+ userId).
Proof. done. Qed.

(** X14.  The three helper subscriptions never share a channel, whatever
    the user ids: their keys are pairwise distinct.  On a registry that has
    none of the three, [subscribeToHabits], [subscribeToHabitLogs] and
    [subscribeToTodos] for a user open three channels, on the tables
    [habits], [habit_logs] and [todos], each filtered by
    [user_id=eq.<id>]. *)
Theorem helper_subscriptions_open_three_channels
    (userId u1 u2 : string) (cbh cbl cbt : handle) (w : world) :
  user_key "habits" u1 ≠ user_key "habit_logs" u2
  ∧ user_key "habits" u1 ≠ user_key "todos" u2
  ∧ user_key "habit_logs" u1 ≠ user_key "todos" u2
  ∧ (subscriptions (realtimeManager w) !! user_key "habits" userId = None →
     subscriptions (realtimeManager w) !! user_key "habit_logs" userId = None →
     subscriptions (realtimeManager w) !! user_key "todos" userId = None →
     console
       (RealtimeManager.subscribeToTodos cbt userId
          (RealtimeManager.subscribeToHabitLogs cbl userId
             (RealtimeManager.subscribeToHabits cbh userId w).1).1).1
     = console w
       ++ [ChannelSubscribed (user_key "habits" userId)
             (user_channel "habits" userId);
           ChannelSubscribed (user_key "habit_logs" userId)
             (user_channel "habit_logs" userId);
           ChannelSubscribed (user_key "todos" userId)
             (user_channel "todos" userId)]).
Proof.
  assert (∀ a b, user_key "habits" a ≠ user_key "habit_logs" b) as Hhl.
  { intros a b. unfold user_key, RealtimeManager.subscriptionKey.
    rewrite !user_filter_truthy. cbn. discriminate. }
  assert (∀ a b, user_key "habits" a ≠ user_key "todos" b) as Hht.
  { intros a b. unfold user_key, RealtimeManager.subscriptionKey.
    rewrite !user_filter_truthy. cbn. discriminate. }
  assert (∀ a b, user_key "habit_logs" a ≠ user_key "todos" b) as Hlt.
  { intros a b. unfold user_key, RealtimeManager.subscriptionKey.
    rewrite !user_filter_truthy. cbn. discriminate. }
  split_and!; [done..|]. intros Hh Hl Ht.
  unfold RealtimeManager.subscribeToTodos, RealtimeManager.subscribeToHabitLogs,
    RealtimeManager.subscribeToHabits.
  rewrite !subscribe_console, !subscribe_subscriptions.
  fold (user_key "habits" userId) (user_key "habit_logs" userId)
    (user_key "todos" userId).
  rewrite Hh. rewrite (lookup_insert_ne _ (user_key "habits" userId)) by done.
  rewrite Hl.
  rewrite (lookup_insert_ne _ (user_key "habit_logs" userId)) by done.
  rewrite (lookup_insert_ne _ (user_key "habits" userId)) by done.
  rewrite Ht. rewrite <- !app_assoc. done.
Qed.

Lemma helper_subscriptions_open_three_channels_witness :
  console
    (RealtimeManager.subscribeToTodos 3 "u1"
       (RealtimeManager.subscribeToHabitLogs 2 "u1"
          (RealtimeManager.subscribeToHabits 1 "u1" (initial true)).1).1).1
  = [ChannelSubscribed (user_key "habits" "u1") (user_channel "habits" "u1");
     ChannelSubscribed (user_key "habit_logs" "u1")
       (user_channel "habit_logs" "u1");
     ChannelSubscribed (user_key "todos" "u1") (user_channel "todos" "u1")].
Proof.
  apply (helper_subscriptions_open_three_channels "u1" "" "" 1 2 3
           (initial true)); reflexivity.
Defined.

(** ** Invariants of histories, with the monitor *)

Section histories.
Variable env : callbacks_env.
Variable P : world → Prop.
Variable allowed : op → Prop.
Hypothesis Hact : ∀ w a, P w → P (run_action w a).
Hypothesis Herr : ∀ w msg e, P w → P (emit (ConsoleError msg e) w).
Hypothesis Hcall : ∀ w key cb payload s i,
  P w → registry_set key w = Some s → s !! i = Some (Some cb) →
  P (emit (Called key cb payload) w).
Hypothesis Hstatus : ∀ w cb status s i,
  P w → monitor_set w = Some s → s !! i = Some (Some cb) →
  P (emit (StatusCalled cb status) w).
Hypothesis Honline : ∀ w status,
  P w →
  P (with_monitor
       {| isOnline := status;
          statusCallbacks := statusCallbacks (connectionMonitor w) |} w).
Hypothesis Hsub : ∀ w table cb filter,
  allowed (Subscribe table cb filter) → P w →
  P (RealtimeManager.subscribe table cb filter w).1.
Hypothesis Hstatsub : ∀ w cb,
  allowed (StatusSubscribe cb) → P w → P (ConnectionMonitor.subscribe cb w).1.
Hypothesis Hclean : ∀ w, P w → P (RealtimeManager.cleanup w).

Lemma handler_keeps key payload w : P w → P (handler env key payload w).1.
Proof.
  intros Hw. unfold handler. destruct (registry_set key w); [|done].
  apply forEach_from_invariant; [|done].
  intros cb w0 s j Hw0 Hread Hj. unfold notify.
  apply try_catch_invariant; eauto.
Qed.

Lemma setOnlineStatus_keeps status w :
  P w → P (setOnlineStatus env status w).1.
Proof.
  intros Hw. unfold setOnlineStatus. cbv zeta.
  apply forEach_from_invariant; [|by apply Honline].
  intros cb w0 s j Hw0 Hread Hj. unfold notify_status.
  apply try_catch_invariant; eauto.
Qed.

Lemma step_keeps w o : allowed o → P w → P (step env w o).
Proof.
  intros Ho Hw. destruct o; cbn [step].
  - by apply Hsub.
  - by apply (Hact w (Detach key cb)).
  - by apply handler_keeps.
  - by apply Hclean.
  - by apply Hstatsub.
  - by apply (Hact w (DetachStatus cb)).
  - by apply setOnlineStatus_keeps.
Qed.

Lemma run_keeps ops w : Forall allowed ops → P w → P (run env ops w).
Proof.
  unfold run. revert w. induction ops as [|o ops IH]; intros w Hops Hw;
    [done|].
  apply Forall_cons in Hops as [Ho Hops]. cbn [foldl].
  apply IH; [done|]. by apply step_keeps.
Qed.
End histories.

(** ** Sets hold a callback once *)

Lemma live_NoDup_add cb (s : JSSet.t) :
  NoDup (JSSet.live s) → NoDup (JSSet.live (JSSet.add cb s)).
Proof.
  intros Hs. rewrite live_add. destruct (decide (cb ∈ JSSet.live s)); [done|].
  apply NoDup_app. split_and!; [done| |apply NoDup_singleton].
  intros x Hx ->%list_elem_of_singleton. done.
Qed.

Lemma live_NoDup_delete cb (s : JSSet.t) :
  NoDup (JSSet.live s) → NoDup (JSSet.live (JSSet.delete cb s)).
Proof. intros Hs. rewrite live_delete. by apply NoDup_filter. Qed.

Lemma sets_nodup_unsubscribe key cb w :
  sets_nodup w → sets_nodup (RealtimeManager.unsubscribe key cb w).
Proof.
  intros [Hreg Hmon].
  destruct (callbacks (realtimeManager w) !! key) as [s|] eqn:Hk;
    [|by rewrite unsubscribe_absent].
  destruct (decide (JSSet.size (JSSet.delete cb s) = 0)) as [Hz|Hnz].
  - rewrite (unsubscribe_last key cb w s Hk Hz). split.
    + intros k s'. cbn. intros [_ Hs']%lookup_delete_Some. by eapply Hreg.
    + by destruct (subscriptions (realtimeManager w) !! key).
  - rewrite (unsubscribe_keep key cb w s Hk Hnz). split; [|done].
    intros k s'. cbn. destruct (decide (key = k)) as [<-|Hne].
    + rewrite lookup_insert_eq. intros [= <-].
      apply live_NoDup_delete. by eapply Hreg.
    + rewrite lookup_insert_ne by done. apply Hreg.
Qed.

Lemma cleanup_monitor w :
  connectionMonitor (RealtimeManager.cleanup w) = connectionMonitor w.
Proof.
  unfold RealtimeManager.cleanup. cbv zeta. cbn [with_manager connectionMonitor].
  generalize (map_to_list (subscriptions (realtimeManager w))). intros l.
  revert w. induction l as [|kc l IH]; intros w; [done|].
  cbn [foldl]. by rewrite IH.
Qed.

Lemma sets_nodup_run env ops w : sets_nodup w → sets_nodup (run env ops w).
Proof.
  apply (run_keeps env sets_nodup (λ _, True)).
  - intros w0 [key cb|cb] Hw0; cbn [run_action].
    + by apply sets_nodup_unsubscribe.
    + destruct Hw0 as [Hreg Hmon]. split; [done|]. cbn.
      by apply live_NoDup_delete.
  - by intros w0 msg e Hw0.
  - by intros w0 key cb payload s i Hw0 _ _.
  - by intros w0 cb status s i Hw0 _ _.
  - by intros w0 status Hw0.
  - intros w0 table cb filter _ [Hreg Hmon]. split.
    + intros k s. rewrite subscribe_callbacks.
      destruct (decide (RealtimeManager.subscriptionKey table filter = k))
        as [<-|Hne].
      * rewrite lookup_insert_eq. intros [= <-]. apply live_NoDup_add.
        destruct (callbacks (realtimeManager w0) !! _) as [s0|] eqn:Hk.
        -- by eapply Hreg.
        -- apply NoDup_nil_2.
      * rewrite lookup_insert_ne by done. apply Hreg.
    + by rewrite subscribe_monitor.
  - intros w0 cb _ [Hreg Hmon]. split; [done|]. cbn.
    by apply live_NoDup_add.
  - intros w0 [Hreg Hmon]. split; [|by rewrite cleanup_monitor].
    intros k s. cbn. by rewrite lookup_empty.
  - by apply Forall_true.
Qed.

Lemma sets_nodup_initial online : sets_nodup (initial online).
Proof.
  split; [|apply NoDup_nil_2]. intros k s. cbn. by rewrite lookup_empty.
Qed.

(** ** A callback is called at most once per event *)

Lemma shrunk_refl (s : JSSet.t) : shrunk s s.
Proof. split; [done|]. intros j. by left. Qed.

Lemma shrunk_delete c (s s0 : JSSet.t) :
  shrunk s s0 → shrunk (JSSet.delete c s) s0.
Proof.
  intros [Hlen Hslots]. unfold JSSet.delete. split.
  - by rewrite length_fmap.
  - intros j. rewrite list_lookup_fmap.
    destruct (Hslots j) as [Hj|Hj]; rewrite Hj.
    + destruct (s0 !! j) as [e|]; [|by left]. cbn.
      destruct (decide (e = Some c)); [by right|by left].
    + right. cbn. by rewrite decide_False.
Qed.

Lemma live_drop_S (s : JSSet.t) (i : nat) (c : handle) :
  s !! i = Some (Some c) →
  JSSet.live (drop i s) = c :: JSSet.live (drop (S i) s).
Proof. intros Hi. by rewrite (drop_S s (Some c) i Hi). Qed.

Lemma live_drop_mono (s : JSSet.t) (i : nat) (c : handle) :
  c ∈ JSSet.live (drop (S i) s) → c ∈ JSSet.live (drop i s).
Proof.
  destruct (s !! i) as [e|] eqn:Hi.
  - rewrite (drop_S s e i Hi), live_cons. destruct e; [by right|done].
  - apply lookup_ge_None in Hi. rewrite !drop_ge by lia. done.
Qed.

Lemma live_drop_NoDup (s : JSSet.t) (i : nat) :
  NoDup (JSSet.live s) → NoDup (JSSet.live (drop i s)).
Proof.
  intros Hs. rewrite <- (take_drop i s), live_app in Hs.
  by apply NoDup_app in Hs as (_ & _ & Hs).
Qed.

Section at_most_once.
Variables (env : callbacks_env) (key : string) (payload : change_event).
Variables (cb : handle) (s0 : JSSet.t).
Hypothesis Hs0 : NoDup (JSSet.live s0).

Local Abbreviation within w :=
  (match callbacks (realtimeManager w) !! key with
   | Some s => shrunk s s0
   | None => True
   end).

Lemma within_run_action w a : within w → within (run_action w a).
Proof.
  intros Hw. destruct a as [k c|c]; cbn [run_action]; [|done].
  destruct (callbacks (realtimeManager w) !! k) as [s|] eqn:Hk;
    [|by rewrite unsubscribe_absent].
  destruct (decide (JSSet.size (JSSet.delete c s) = 0)) as [Hz|Hnz].
  - rewrite (unsubscribe_last k c w s Hk Hz).
    cbn [with_manager realtimeManager callbacks].
    destruct (decide (k = key)) as [->|Hne].
    + by rewrite lookup_delete_eq.
    + rewrite lookup_delete_ne by done.
      by destruct (subscriptions (realtimeManager w) !! k).
  - rewrite (unsubscribe_keep k c w s Hk Hnz).
    cbn [with_manager realtimeManager callbacks].
    destruct (decide (k = key)) as [->|Hne].
    + rewrite lookup_insert_eq. rewrite Hk in Hw. by apply shrunk_delete.
    + by rewrite lookup_insert_ne.
Qed.

Lemma within_notify c w : within w → within (notify env key payload c w).1.
Proof.
  intros Hw. unfold notify.
  apply (try_catch_invariant (λ w, within w)); [|done..].
  intros w0 a. apply within_run_action.
Qed.

Lemma calls_notify c w :
  calls key cb (console (notify env key payload c w).1)
  = calls key cb (console w) + (if decide (c = cb) then 1 else 0).
Proof.
  unfold notify.
  destruct (try_catch_console (Called key c payload)
              (on_change env c payload) "Realtime callback error:" w)
    as (evs & Hevs & ->).
  rewrite !calls_app, calls_one, (calls_only_closes key cb evs) by done.
  cbn [is_call].
  assert (calls key cb
            match throws (on_change env c payload) with
            | Some e => [ConsoleError "Realtime callback error:" e]
            | None => []
            end = 0) as -> by (by destruct (throws _)).
  destruct (decide (c = cb)) as [->|Hne].
  - rewrite bool_decide_true by done. lia.
  - rewrite bool_decide_false by (by intros [_ ?]). lia.
Qed.

Lemma forEach_calls_at_most_once n i w :
  within w →
  calls key cb
    (console
       (forEach_from n i (registry_set key) (notify env key payload) w).1)
  ≤ calls key cb (console w)
    + (if decide (cb ∈ JSSet.live (drop i s0)) then 1 else 0).
Proof.
  revert i w. induction n as [|n IH]; intros i w Hw; [cbn; lia|].
  assert (∀ w', within w' → calls key cb (console w') = calls key cb (console w) →
            calls key cb
              (console
                 (forEach_from n (S i) (registry_set key)
                    (notify env key payload) w').1)
            ≤ calls key cb (console w)
              + (if decide (cb ∈ JSSet.live (drop i s0)) then 1 else 0))
    as Hskip.
  { intros w' Hw' Hcalls. etrans; [by apply IH|]. rewrite Hcalls.
    destruct (decide (cb ∈ JSSet.live (drop (S i) s0))) as [Hin|]; [|lia].
    rewrite decide_True; [done|]. by apply live_drop_mono. }
  assert (∀ s, callbacks (realtimeManager w) !! key = Some s → shrunk s s0)
    as Hsome.
  { intros s Hs. by rewrite Hs in Hw. }
  cbn [forEach_from]. unfold registry_set at 1.
  destruct (callbacks (realtimeManager w) !! key) as [s|] eqn:Hk;
    cbn [mbind option_bind]; [|apply Hskip; [by rewrite Hk|done]].
  destruct (s !! i) as [[c|]|] eqn:Hi;
    [|apply Hskip; [rewrite Hk; by apply Hsome|done]..].
  assert (s0 !! i = Some (Some c)) as Hi0.
  { destruct (Hsome s eq_refl) as [_ Hslots].
    destruct (Hslots i) as [Hj|Hj]; congruence. }
  assert (within (notify env key payload c w).1) as Hw'.
  { apply within_notify. rewrite Hk. by apply Hsome. }
  pose proof (calls_notify c w) as Hcalls.
  pose proof (notify_returns env key payload c w) as Hret.
  destruct (notify env key payload c w) as [w' o]. cbn [fst snd] in *.
  subst o. etrans; [by apply IH|]. rewrite Hcalls.
  rewrite (live_drop_S s0 i c Hi0).
  destruct (decide (c = cb)) as [->|Hne].
  - pose proof (live_drop_NoDup s0 i Hs0) as Hnd.
    rewrite (live_drop_S s0 i cb Hi0) in Hnd.
    apply NoDup_cons in Hnd as [Hnot _].
    destruct (decide (cb ∈ JSSet.live (drop (S i) s0))); [done|].
    destruct (decide (cb ∈ cb :: JSSet.live (drop (S i) s0))) as [|Hnin];
      [lia|]. exfalso. apply Hnin. left.
  - destruct (decide (cb ∈ JSSet.live (drop (S i) s0))) as [Hin|]; [|lia].
    destruct (decide (cb ∈ c :: JSSet.live (drop (S i) s0))) as [|Hnin];
      [lia|]. exfalso. apply Hnin. by right.
Qed.
End at_most_once.

Lemma other_key_calls_notify env key payload c k cb w :
  k ≠ key →
  calls k cb (console (notify env key payload c w).1) = calls k cb (console w).
Proof.
  intros Hne. unfold notify.
  destruct (try_catch_console (Called key c payload)
              (on_change env c payload) "Realtime callback error:" w)
    as (evs & Hevs & ->).
  rewrite !calls_app, calls_one, (calls_only_closes k cb evs) by done.
  cbn [is_call]. rewrite bool_decide_false by (by intros [? _]).
  assert (calls k cb
            match throws (on_change env c payload) with
            | Some e => [ConsoleError "Realtime callback error:" e]
            | None => []
            end = 0) as -> by (by destruct (throws _)).
  lia.
Qed.

(** X15.  With callbacks that do not subscribe while they are being
    called (they may detach themselves and others, and throw): in every
    state the registry reaches, the fan-out of one change event calls a
    callback at most once for the event's key, calls only callbacks
    registered under that key when the event arrives, and records no call
    for any other key.  (A callback that subscribes during the fan-out is
    outside the model: [Set.forEach] would visit what it adds.) *)
Theorem event_delivered_at_most_once
    (env : callbacks_env) (ops : list op) (online : bool)
    (key k : string) (payload : change_event) (cb : handle) :
  let w := run env ops (initial online) in
  let w' := (handler env key payload w).1 in
  calls key cb (console w') ≤ calls key cb (console w) + 1
  ∧ (cb ∉ JSSet.live (default [] (registry_set key w)) →
     calls key cb (console w') = calls key cb (console w))
  ∧ (k ≠ key → calls k cb (console w') = calls k cb (console w)).
Proof.
  intros w w'. split_and!.
  - unfold w', handler. unfold registry_set at 1.
    destruct (callbacks (realtimeManager w) !! key) as [s|] eqn:Hk;
      [|cbn; lia].
    etrans.
    { apply (forEach_calls_at_most_once env key payload cb s).
      - destruct (sets_nodup_run env ops (initial online)
                    (sets_nodup_initial online)) as [Hreg _].
        by apply (Hreg key).
      - fold w. rewrite Hk. apply shrunk_refl. }
    destruct (decide _); lia.
  - intros Hcb. unfold w', handler.
    destruct (registry_set key w) as [s|] eqn:Hk; [|done].
    apply (detached_forEach env key cb (calls key cb (console w))).
    split; [|done]. unfold registry_set in Hk. by rewrite Hk.
  - intros Hne. unfold w', handler.
    destruct (registry_set key w) as [s|] eqn:Hk; [|done].
    apply (forEach_from_invariant
             (λ w0, calls k cb (console w0) = calls k cb (console w)));
      [|done].
    intros c w0 s' j Hw0 _ _. by rewrite other_key_calls_notify.
Qed.

Lemma event_delivered_at_most_once_witness :
  calls SampleRegistry.key 7
    (console (handler SampleRegistry.env SampleRegistry.key
                SampleRegistry.inserted SampleRegistry.subscribed).1)
  = calls SampleRegistry.key 7 (console SampleRegistry.subscribed).
Proof.
  destruct (event_delivered_at_most_once SampleRegistry.env
              [Subscribe "habits" 1 (Some "user_id=eq.u1");
               Subscribe "habits" 2 (Some "user_id=eq.u1");
               Subscribe "habits" 3 (Some "user_id=eq.u1");
               StatusSubscribe 1; StatusSubscribe 2; StatusSubscribe 3]
              true SampleRegistry.key "todos-all" SampleRegistry.inserted 7)
    as (_ & Habsent & _).
  apply Habsent. vm_compute.
  intros Hin. repeat (apply elem_of_cons in Hin as [Hin|Hin];
                      [discriminate Hin|]).
  by apply elem_of_nil in Hin.
Defined.

(** ** The connectivity monitor *)

Lemma unsubscribe_monitor key cb w :
  connectionMonitor (RealtimeManager.unsubscribe key cb w)
  = connectionMonitor w.
Proof.
  destruct (callbacks (realtimeManager w) !! key) as [s|] eqn:Hk;
    [|by rewrite unsubscribe_absent].
  destruct (decide (JSSet.size (JSSet.delete cb s) = 0)) as [Hz|Hnz].
  - rewrite (unsubscribe_last key cb w s Hk Hz).
    by destruct (subscriptions (realtimeManager w) !! key).
  - by rewrite (unsubscribe_keep key cb w s Hk Hnz).
Qed.

Lemma run_action_isOnline w a :
  isOnline (connectionMonitor (run_action w a))
  = isOnline (connectionMonitor w).
Proof.
  destruct a as [key cb|cb]; cbn [run_action]; [|done].
  by rewrite unsubscribe_monitor.
Qed.

(** X16.  [setOnlineStatus] records the new status whatever the callbacks
    do: after the fan-out, with callbacks that throw or detach themselves
    or others, [getStatus] returns the status that was set. *)
Theorem status_recorded_whatever_callbacks_do
    (env : callbacks_env) (status : bool) (w : world) :
  ConnectionMonitor.getStatus (setOnlineStatus env status w).1 = status.
Proof.
  unfold ConnectionMonitor.getStatus, setOnlineStatus. cbv zeta.
  apply (forEach_from_invariant
           (λ w0, isOnline (connectionMonitor w0) = status)); [|done].
  intros cb w0 s j Hw0 _ _. unfold notify_status.
  apply (try_catch_invariant
           (λ w0, isOnline (connectionMonitor w0) = status)); [| |done].
  - intros w1 a Hw1. by rewrite run_action_isOnline.
  - done.
Qed.

Lemma status_calls_app cb tr1 tr2 :
  status_calls cb (tr1 ++ tr2) = status_calls cb tr1 + status_calls cb tr2.
Proof. unfold status_calls. by rewrite filter_app, length_app. Qed.

Lemma status_calls_one cb ev :
  status_calls cb [ev] = if is_status_call cb ev then 1 else 0.
Proof.
  unfold status_calls. rewrite filter_cons.
  by destruct (is_status_call cb ev).
Qed.

Lemma status_calls_only_closes cb evs :
  only_closes evs → status_calls cb evs = 0.
Proof.
  intros Hevs. unfold status_calls.
  rewrite only_closes_filter; [done|by intros k ?|done].
Qed.

Section status_detached_facts.
Variables (env : callbacks_env) (cb : handle) (n : nat).

Lemma status_detached_emit ev w :
  is_status_call cb ev = false → status_detached cb n w →
  status_detached cb n (emit ev w).
Proof.
  intros Hev [Hlive Hcalls]. split; [done|]. cbn [emit console].
  rewrite status_calls_app, status_calls_one, Hev. lia.
Qed.

Lemma status_detached_closes w w' evs :
  connectionMonitor w' = connectionMonitor w →
  console w' = console w ++ evs → only_closes evs →
  status_detached cb n w → status_detached cb n w'.
Proof.
  intros Hm Hc Hevs [Hlive Hcalls]. split; [by rewrite Hm|].
  rewrite Hc, status_calls_app, (status_calls_only_closes cb evs) by done.
  lia.
Qed.

Lemma status_detached_run ops w :
  Forall (λ o, o ≠ StatusSubscribe cb) ops →
  status_detached cb n w → status_detached cb n (run env ops w).
Proof.
  apply (run_keeps env (status_detached cb n) (λ o, o ≠ StatusSubscribe cb)).
  - intros w0 [key c|c] Hw0; cbn [run_action].
    + destruct (unsubscribe_console key c w0) as (evs & Hevs & Hc).
      by apply (status_detached_closes w0 _ evs (unsubscribe_monitor key c w0)).
    + destruct Hw0 as [Hlive Hcalls]. split; [|done]. cbn.
      by apply not_live_delete.
  - intros w0 msg e Hw0. by apply status_detached_emit.
  - intros w0 key c payload s i Hw0 _ _. by apply status_detached_emit.
  - intros w0 c status s i Hw0 Hread Hi. apply status_detached_emit; [|done].
    cbn. apply bool_decide_eq_false. intros ->.
    destruct Hw0 as [Hlive _]. injection Hread as <-.
    by apply live_lookup in Hi.
  - by intros w0 status Hw0.
  - intros w0 table c filter _ [Hlive Hcalls]. split.
    + by rewrite subscribe_monitor.
    + rewrite subscribe_console, status_calls_app, Hcalls.
      destruct (subscriptions (realtimeManager w0) !! _).
      * change (status_calls cb []) with 0. lia.
      * rewrite status_calls_one. cbn [is_status_call]. lia.
  - intros w0 c Hallowed [Hlive Hcalls]. split; [|done]. cbn.
    rewrite live_add. destruct (decide (c ∈ _)); [done|].
    rewrite elem_of_app, list_elem_of_singleton. intros [?|Heq]; [done|].
    apply Hallowed. by rewrite Heq.
  - intros w0 Hw0.
    apply (status_detached_closes w0 _
             ((λ kc, ChannelUnsubscribed kc.1)
                <$> map_to_list (subscriptions (realtimeManager w0))));
      [apply cleanup_monitor| |apply Forall_fmap; by apply Forall_true|done].
    unfold RealtimeManager.cleanup. cbv zeta. cbn [with_manager console].
    apply cleanup_console.
Qed.
End status_detached_facts.

(** X17.  Once the function returned by the monitor's [subscribe] has been
    called, the callback is not told of any later connectivity transition,
    in any history in which it is not subscribed to the monitor again. *)
Theorem no_status_after_unsubscribe
    (env : callbacks_env) (cb : handle) (w : world) (ops : list op) :
  Forall (λ o, o ≠ StatusSubscribe cb) ops →
  status_calls cb
    (console (run env ops (ConnectionMonitor.unsubscribe cb w)))
  = status_calls cb (console w).
Proof.
  intros Hops.
  apply (status_detached_run env cb _ ops _ Hops).
  split; [|done]. cbn. apply not_live_deleted.
Qed.

Lemma no_status_after_unsubscribe_witness :
  status_calls 2
    (console
       (run SampleRegistry.env [Connectivity false; Connectivity true]
          (ConnectionMonitor.unsubscribe 2 SampleRegistry.subscribed)))
  = status_calls 2 (console SampleRegistry.subscribed).
Proof.
  apply (no_status_after_unsubscribe SampleRegistry.env 2
           SampleRegistry.subscribed).
  repeat apply Forall_cons_2; try apply Forall_nil_2; discriminate.
Defined.

(** ** Timers: [debounce] *)

Section debounce_facts.
Context {A : Type}.
Variable wait : Z.

Lemma debounce_run_snoc (tr : list (timer_event A)) ev :
  Debounce.run wait (tr ++ [ev])
  = Debounce.step wait (Debounce.run wait tr) ev.
Proof. unfold Debounce.run. by rewrite foldl_app. Qed.

Lemma invocations_snoc_invoke (tr : list (timer_event A)) now args :
  invocations (tr ++ [Invoke now args]) = invocations tr ++ [(now, args)].
Proof. unfold invocations. by rewrite omap_app. Qed.

Lemma invocations_snoc_timer (tr : list (timer_event A)) now id :
  invocations (tr ++ [TimerRuns now id]) = invocations tr.
Proof. unfold invocations. rewrite omap_app. cbn. by rewrite app_nil_r. Qed.

Lemma debounce_inv_run (tr : list (timer_event A)) :
  debounce_inv wait tr (Debounce.run wait tr).
Proof.
  induction tr as [|ev tr IH] using rev_ind.
  - split; [done|]. split; [done|]. intros id due args H.
    cbn in H. by rewrite lookup_empty in H.
  - rewrite debounce_run_snoc. destruct IH as (Hn & Hlt & Hp).
    destruct ev as [now args|now id]; cbn [Debounce.step].
    + unfold debounce_inv.
      rewrite invocations_snoc_invoke, length_app, last_snoc.
      cbn [Debounce.executedFunction Debounce.next_id Debounce.timeout
           Debounce.timers length].
      split; [lia|]. split; [intros id [= <-]; lia|].
      intros id due args' H.
      destruct (decide (id = Debounce.next_id (Debounce.run wait tr)))
        as [->|Hne].
      * rewrite lookup_insert_eq in H. injection H as <- <-.
        split; [done|]. by exists now.
      * rewrite lookup_insert_ne in H; [|done].
        exfalso. destruct (Debounce.timeout (Debounce.run wait tr))
          as [i|] eqn:Ht; cbn [clearTimeout] in H.
        -- destruct (decide (id = i)) as [->|Hi].
           ++ by rewrite lookup_delete_eq in H.
           ++ rewrite lookup_delete_ne in H; [|done].
              apply Hp in H as [H' _]. congruence.
        -- apply Hp in H as [H' _]. congruence.
    + unfold debounce_inv, Debounce.later.
      rewrite invocations_snoc_timer.
      destruct (Debounce.timers (Debounce.run wait tr) !! id)
        as [[due args]|] eqn:Hid; [|done].
      case_bool_decide; [|done].
      cbn [Debounce.next_id Debounce.timeout Debounce.timers].
      split; [done|]. split; [done|].
      intros id' due' args' Hl. exfalso.
      pose proof Hid as Hid'. apply Hp in Hid' as [Ht _].
      rewrite Ht in Hl. cbn [clearTimeout] in Hl.
      destruct (decide (id' = id)) as [->|Hi].
      * by rewrite lookup_delete_eq in Hl.
      * rewrite !lookup_delete_ne in Hl; [|done..].
        apply Hp in Hl as [Hl' _]. congruence.
Qed.

Lemma debounce_timers_named (tr : list (timer_event A)) id d :
  Debounce.timers (Debounce.run wait tr) !! id = Some d →
  Debounce.timeout (Debounce.run wait tr) = Some id.
Proof.
  destruct d as [due args]. intros H.
  destruct (debounce_inv_run tr) as (_ & _ & Hp). by apply Hp in H as [? _].
Qed.

End debounce_facts.

(** A debounced function has at most one timer pending, whatever the
    calls and whatever timers the host runs. *)
Theorem debounce_one_pending_timer {A} (wait : Z)
    (tr : list (timer_event A)) :
  size (Debounce.timers (Debounce.run wait tr)) ≤ 1.
Proof.
  set (st := Debounce.run wait tr).
  assert (Hnamed : ∀ id d, Debounce.timers st !! id = Some d →
                           Debounce.timeout st = Some id)
    by apply debounce_timers_named.
  destruct (Debounce.timeout st) as [i|] eqn:Ht.
  - destruct (Debounce.timers st !! i) as [d|] eqn:Hi.
    + assert (Debounce.timers st = {[i := d]}) as ->.
      { apply map_eq. intros k. destruct (decide (k = i)) as [->|Hk].
        - by rewrite lookup_singleton_eq.
        - rewrite lookup_singleton_ne; [|done].
          destruct (Debounce.timers st !! k) eqn:Hk'; [|done].
          apply Hnamed in Hk'. congruence. }
      by rewrite map_size_singleton.
    + assert (Debounce.timers st = ∅) as ->.
      { apply map_empty. intros k.
        destruct (Debounce.timers st !! k) eqn:Hk'; [|done].
        pose proof (Hnamed _ _ Hk'). congruence. }
      rewrite map_size_empty. lia.
  - assert (Debounce.timers st = ∅) as ->.
    { apply map_empty. intros k.
      destruct (Debounce.timers st !! k) eqn:Hk'; [|done].
      pose proof (Hnamed _ _ Hk'). congruence. }
    rewrite map_size_empty. lia.
Qed.

(** X18.  A debounced function calls [func] only from a timer, with the
    arguments of the latest call of the wrapper, and not before [wait] has
    passed since that call: every event of a history leaves the calls of
    [func] as they are, or is a timer that adds one such call. *)
Theorem debounce_calls_latest_arguments {A} (wait : Z)
    (tr : list (timer_event A)) (ev : timer_event A) :
  Debounce.funcCalls (Debounce.run wait (tr ++ [ev]))
  = Debounce.funcCalls (Debounce.run wait tr)
  ∨ ∃ now id t0 args,
      ev = TimerRuns now id
      ∧ last (invocations tr) = Some (t0, args)
      ∧ (t0 + Z.max 0 wait ≤ now)%Z
      ∧ Debounce.funcCalls (Debounce.run wait (tr ++ [ev]))
        = Debounce.funcCalls (Debounce.run wait tr) ++ [(now, args)].
Proof.
  rewrite debounce_run_snoc.
  destruct (debounce_inv_run wait tr) as (_ & _ & Hp).
  destruct ev as [now args|now id]; cbn [Debounce.step]; [by left|].
  unfold Debounce.later.
  destruct (Debounce.timers (Debounce.run wait tr) !! id)
    as [[due args]|] eqn:Hid; [|by left].
  case_bool_decide as Hdue; [|by left].
  right. exists now, id.
  apply Hp in Hid as (_ & t0 & Hlast & ->).
  by exists t0, args.
Qed.

(** X19.  When the wrapper has been called and its timer runs after [wait]
    has passed, with no call in between, [func] is called once with the
    arguments of that call. *)
Theorem debounce_fires_after_quiet {A} (wait : Z)
    (tr : list (timer_event A)) (t0 now : Z) (args : A) :
  (t0 + Z.max 0 wait ≤ now)%Z →
  Debounce.funcCalls
    (Debounce.run wait
       (tr ++ [Invoke t0 args; TimerRuns now (length (invocations tr))]))
  = Debounce.funcCalls (Debounce.run wait tr) ++ [(now, args)].
Proof.
  intros Hdue.
  change (tr ++ [Invoke t0 args; TimerRuns now (length (invocations tr))])
    with (tr ++ [Invoke t0 args] ++ [TimerRuns now (length (invocations tr))]).
  rewrite app_assoc, !debounce_run_snoc.
  destruct (debounce_inv_run wait tr) as (Hn & _ & _).
  cbn [Debounce.step]. unfold Debounce.later.
  cbn [Debounce.executedFunction Debounce.timers Debounce.timeout
       Debounce.next_id Debounce.funcCalls].
  rewrite <- Hn, lookup_insert_eq.
  by rewrite bool_decide_eq_true_2.
Qed.

Lemma debounce_fires_after_quiet_witness :
  (0 + Z.max 0 300 ≤ 300)%Z
  ∧ Debounce.funcCalls
      (Debounce.run 300
         ([Invoke (-50) "a"; TimerRuns 100 0]
          ++ [Invoke 0 "b";
              TimerRuns 300 (length (invocations
                                       [Invoke (-50) "a";
                                        TimerRuns 100 0]))]))
    = Debounce.funcCalls
        (Debounce.run 300 [Invoke (-50) "a"; TimerRuns 100 0])
      ++ [(300%Z, "b")].
Proof.
  split; [lia|].
  apply (debounce_fires_after_quiet 300
           [Invoke (-50)%Z "a"; TimerRuns 100 0] 0 300 "b"). lia.
Defined.

(** X20.  A debounced function calls [func] at most once for each call of
    the wrapper: the calls of [func] and the pending timer together never
    outnumber the calls of the wrapper. *)
Theorem debounce_at_most_once_per_call {A} (wait : Z)
    (tr : list (timer_event A)) :
  length (Debounce.funcCalls (Debounce.run wait tr))
  + size (Debounce.timers (Debounce.run wait tr))
  ≤ length (invocations tr).
Proof.
  induction tr as [|ev tr IH] using rev_ind.
  - cbn. rewrite map_size_empty. lia.
  - pose proof (debounce_timers_named wait tr) as Hnamed.
    rewrite debounce_run_snoc.
    destruct ev as [now args|now id]; cbn [Debounce.step].
    + rewrite invocations_snoc_invoke, length_app.
      cbn [Debounce.executedFunction Debounce.timers Debounce.funcCalls
           length].
      pose proof (map_size_insert (Debounce.next_id (Debounce.run wait tr))
                    ((now + Z.max 0 wait)%Z, args)
                    (clearTimeout (Debounce.timeout (Debounce.run wait tr))
                       (Debounce.timers (Debounce.run wait tr)))) as Hs.
      assert (size (clearTimeout (Debounce.timeout (Debounce.run wait tr))
                      (Debounce.timers (Debounce.run wait tr)))
              ≤ size (Debounce.timers (Debounce.run wait tr))) as Hc.
      { destruct (Debounce.timeout (Debounce.run wait tr));
          cbn [clearTimeout]; [|done].
        apply map_subseteq_size, delete_subseteq. }
      destruct (clearTimeout _ _ !! _) in Hs; unfold id in Hs; lia.
    + rewrite invocations_snoc_timer. unfold Debounce.later.
      destruct (Debounce.timers (Debounce.run wait tr) !! id)
        as [[due args]|] eqn:Hid; [|done].
      case_bool_decide; [|done].
      cbn [Debounce.timers Debounce.funcCalls Debounce.timeout].
      rewrite length_app. cbn [length].
      pose proof (map_size_delete id (Debounce.timers (Debounce.run wait tr)))
        as Hs. rewrite Hid in Hs.
      change (Init.Nat.pred ?n) with (pred n) in Hs.
      assert (size (clearTimeout (Debounce.timeout (Debounce.run wait tr))
                      (delete id (Debounce.timers (Debounce.run wait tr))))
              ≤ size (delete id (Debounce.timers (Debounce.run wait tr))))
        as Hc.
      { destruct (Debounce.timeout (Debounce.run wait tr));
          cbn [clearTimeout]; [|done].
        apply map_subseteq_size, delete_subseteq. }
      assert (0 < size (Debounce.timers (Debounce.run wait tr))).
      { destruct (decide (size (Debounce.timers (Debounce.run wait tr)) = 0))
          as [Hz|]; [|lia].
        apply map_size_empty_inv in Hz. rewrite Hz in Hid.
        by rewrite lookup_empty in Hid. }
      lia.
Qed.

(** ** Timers: [throttle] *)

Lemma throttle_run_snoc {A} (limit : Z) (tr : list (Throttle.event A)) ev :
  Throttle.run limit (tr ++ [ev])
  = Throttle.step limit (Throttle.run limit tr) ev.
Proof. unfold Throttle.run. by rewrite foldl_app. Qed.

Lemma wrapper_calls_snoc_call {A} (tr : list (Throttle.event A)) now args :
  Throttle.wrapper_calls (tr ++ [Throttle.Call now args])
  = Throttle.wrapper_calls tr ++ [(now, args)].
Proof. unfold Throttle.wrapper_calls. by rewrite omap_app. Qed.

Lemma wrapper_calls_snoc_ends {A} (tr : list (Throttle.event A)) now b :
  Throttle.wrapper_calls (tr ++ [Throttle.Ends now b])
  = Throttle.wrapper_calls tr.
Proof.
  unfold Throttle.wrapper_calls. rewrite omap_app. cbn. by rewrite app_nil_r.
Qed.

Lemma wrapper_calls_snoc_timer {A} (tr : list (Throttle.event A)) now id :
  Throttle.wrapper_calls (tr ++ [Throttle.TimerRuns now id])
  = Throttle.wrapper_calls tr.
Proof.
  unfold Throttle.wrapper_calls. rewrite omap_app. cbn. by rewrite app_nil_r.
Qed.

Lemma clock_monotone_snoc {A} (tr : list (Throttle.event A)) ev :
  clock_monotone (tr ++ [ev]) →
  clock_monotone tr
  ∧ ∀ e, e ∈ tr → (Throttle.time e ≤ Throttle.time ev)%Z.
Proof.
  intros Hm. split.
  - intros i j ei ej Hij Hi Hj.
    apply (Hm i j); [done|by apply lookup_app_l_Some..].
  - intros e [i Hi]%list_elem_of_lookup.
    apply (Hm i (length tr)).
    + apply lookup_lt_Some in Hi. lia.
    + by apply lookup_app_l_Some.
    + by rewrite list_lookup_middle.
Qed.

Lemma not_reentered_from_snoc {A} (limit : Z)
    (st : Throttle.state (A:=A)) (tr : list (Throttle.event A)) ev :
  Throttle.not_reentered_from limit st (tr ++ [ev]) →
  Throttle.not_reentered_from limit st tr
  ∧ match ev with
    | Throttle.Call _ _ =>
        Throttle.running (foldl (Throttle.step limit) st tr) = 0
    | _ => True
    end.
Proof.
  revert st. induction tr as [|e tr IH]; intros st.
  - cbn. tauto.
  - cbn [app Throttle.not_reentered_from foldl]. intros [He Htr].
    destruct (IH _ Htr) as [Htr' Hev]. done.
Qed.

Lemma spaced_snoc {A} (gap : Z) (l : list (Z * A)) t' a' :
  spaced gap l →
  (∀ t a, last l = Some (t, a) → (t + gap ≤ t')%Z) →
  spaced gap (l ++ [(t', a')]).
Proof.
  induction l as [|[t1 a1] l IH]; [done|].
  intros Hs Hl. destruct l as [|[t2 a2] l].
  - cbn. split; [|done]. by apply (Hl t1 a1).
  - destruct Hs as [H12 Hs]. split; [done|].
    apply IH; [done|]. intros t a Hlast. by apply (Hl t a).
Qed.

Lemma throttle_inv_run {A} (limit : Z) (tr : list (Throttle.event A)) :
  clock_monotone tr → Throttle.func_returns tr →
  Throttle.not_reentered limit tr →
  throttle_inv limit tr (Throttle.run limit tr).
Proof.
  induction tr as [|ev tr IH] using rev_ind; [by split|].
  intros [Hm Hle]%clock_monotone_snoc [Hret Hev]%Forall_app
    [Hre Hcall]%not_reentered_from_snoc.
  apply (proj1 (Forall_singleton _ _)) in Hev.
  specialize (IH Hm Hret Hre). fold (Throttle.run limit tr) in Hcall.
  rewrite throttle_run_snoc. unfold throttle_inv in *.
  assert (∀ e, e ∈ tr → e ∈ tr ++ [ev]) as Hin
    by (intros e He; apply elem_of_app; by left).
  assert (ev ∈ tr ++ [ev]) as Hlast
    by (apply elem_of_app; right; by apply list_elem_of_singleton).
  destruct ev as [now args|now throws|now id]; cbn [Throttle.step].
  - unfold Throttle.called. rewrite Hcall in IH.
    destruct (Throttle.inThrottle (Throttle.run limit tr)) eqn:Hin'.
    + by rewrite Hcall, Hin'.
    + cbn [Throttle.running Throttle.inThrottle Throttle.timers
           Throttle.funcCalls].
      rewrite Hcall. destruct IH as [Ht _]. split_and!; [done..|].
      intros t a. rewrite last_snoc. intros [= <- <-].
      exists (Throttle.Call now args). by split.
  - unfold Throttle.ended.
    destruct (Throttle.running (Throttle.run limit tr)) as [|[|n]] eqn:Hrun;
      [|destruct throws; [done|]|done].
    + rewrite Hrun.
      destruct (Throttle.inThrottle (Throttle.run limit tr)); [done|].
      destruct IH as [Ht Hl]. split; [done|]. intros t a Hta.
      destruct (Hl t a Hta) as (e & He & Hte). exists e. by split; [apply Hin|].
    + cbn [Throttle.running Throttle.inThrottle Throttle.timers
           Throttle.funcCalls].
      destruct IH as (_ & Ht & Hl). rewrite Ht, insert_empty.
      exists (Throttle.next_id (Throttle.run limit tr)), now.
      split; [done|]. intros t a Hta.
      destruct (Hl t a Hta) as (e & He & Hte).
      specialize (Hle e He). cbn [Throttle.time] in Hle. lia.
  - unfold Throttle.release.
    destruct (Throttle.running (Throttle.run limit tr)) as [|[|n]] eqn:Hrun;
      [|rewrite Hrun|done].
    + destruct (Throttle.inThrottle (Throttle.run limit tr)) eqn:Hin'.
      * destruct IH as (i & t' & Ht & Hl). rewrite Ht.
        destruct (decide (id = i)) as [->|Hne].
        -- rewrite lookup_singleton_eq. case_bool_decide as Hdue.
           ++ cbn [Throttle.running Throttle.inThrottle Throttle.timers
                   Throttle.funcCalls].
              split; [by rewrite delete_singleton_eq|].
              intros t a Hta. specialize (Hl t a Hta).
              exists (Throttle.TimerRuns now i). split; [done|].
              cbn [Throttle.time]. lia.
           ++ rewrite Hrun, Hin'. by exists i, t'.
        -- rewrite lookup_singleton_ne by done. rewrite Hrun, Hin'.
           by exists i, t'.
      * destruct IH as [Ht Hl]. rewrite Ht, lookup_empty, Hrun, Hin'.
        split; [done|]. intros t a Hta.
        destruct (Hl t a Hta) as (e & He & Hte). exists e.
        by split; [apply Hin|].
    + destruct IH as (Hf & Ht & Hl). split_and!; [done..|].
      intros t a Hta. destruct (Hl t a Hta) as (e & He & Hte).
      exists e. by split; [apply Hin|].
Qed.

(** X21.  While time does not go back, a throttled function whose [func]
    returns normally and does not call the wrapper itself calls [func] at
    most once in every window of [limit]: consecutive calls of [func] are
    at least [limit] apart. *)
Theorem throttle_spacing {A} (limit : Z) (tr : list (Throttle.event A)) :
  clock_monotone tr → Throttle.func_returns tr →
  Throttle.not_reentered limit tr →
  spaced (Z.max 0 limit) (Throttle.funcCalls (Throttle.run limit tr)).
Proof.
  induction tr as [|ev tr IH] using rev_ind; [done|].
  intros Hm Hret Hre.
  pose proof Hm as [Hm' Hle]%clock_monotone_snoc.
  pose proof Hret as [Hret' _]%Forall_app.
  pose proof Hre as [Hre' Hcall]%not_reentered_from_snoc.
  fold (Throttle.run limit tr) in Hcall.
  specialize (IH Hm' Hret' Hre').
  pose proof (throttle_inv_run limit tr Hm' Hret' Hre') as Hinv.
  unfold throttle_inv in Hinv.
  rewrite throttle_run_snoc.
  destruct ev as [now args|now throws|now id]; cbn [Throttle.step].
  - unfold Throttle.called. rewrite Hcall in Hinv.
    destruct (Throttle.inThrottle (Throttle.run limit tr)); [done|].
    cbn [Throttle.funcCalls]. apply spaced_snoc; [done|].
    intros t a Hlast. destruct Hinv as [_ Hl].
    destruct (Hl t a Hlast) as (e & He & Ht).
    specialize (Hle e He). cbn [Throttle.time] in Hle. lia.
  - unfold Throttle.ended.
    destruct (Throttle.running (Throttle.run limit tr)); [done|].
    by destruct throws.
  - unfold Throttle.release.
    destruct (Throttle.running (Throttle.run limit tr)); [|done].
    destruct (Throttle.timers (Throttle.run limit tr) !! id); [|done].
    by case_bool_decide.
Qed.

(** Two calls 10 apart, the second dropped; the timer runs and a third
    call goes through. *)
Lemma throttle_spacing_witness :
  clock_monotone
    [Throttle.Call 0 "a"; Throttle.Ends 5 false; Throttle.Call 10 "b";
     Throttle.TimerRuns 120 0; Throttle.Call 130 "c"]
  ∧ Throttle.func_returns
      [Throttle.Call 0 "a"; Throttle.Ends 5 false; Throttle.Call 10 "b";
       Throttle.TimerRuns 120 0; Throttle.Call 130 "c"]
  ∧ Throttle.not_reentered 100
      [Throttle.Call 0 "a"; Throttle.Ends 5 false; Throttle.Call 10 "b";
       Throttle.TimerRuns 120 0; Throttle.Call 130 "c"]
  ∧ spaced (Z.max 0 100)
      (Throttle.funcCalls
         (Throttle.run 100
            [Throttle.Call 0 "a"; Throttle.Ends 5 false;
             Throttle.Call 10 "b"; Throttle.TimerRuns 120 0;
             Throttle.Call 130 "c"])).
Proof.
  assert (Hm : clock_monotone
                 [Throttle.Call 0 "a"; Throttle.Ends 5 false;
                  Throttle.Call 10 "b"; Throttle.TimerRuns 120 0;
                  Throttle.Call 130 "c"]).
  { intros i j ei ej Hij Hi Hj.
    destruct i as [|[|[|[|[|i]]]]]; try done;
      destruct j as [|[|[|[|[|j]]]]]; try done; try lia;
      injection Hi as <-; injection Hj as <-; cbn; lia. }
  assert (Hret : Throttle.func_returns
                   [Throttle.Call 0 "a"; Throttle.Ends 5 false;
                    Throttle.Call 10 "b"; Throttle.TimerRuns 120 0;
                    Throttle.Call 130 "c"])
    by (repeat constructor).
  assert (Hre : Throttle.not_reentered 100
                  [Throttle.Call 0 "a"; Throttle.Ends 5 false;
                   Throttle.Call 10 "b"; Throttle.TimerRuns 120 0;
                   Throttle.Call 130 "c"])
    by (by vm_compute).
  split; [exact Hm|]. split; [exact Hret|]. split; [exact Hre|].
  exact (throttle_spacing 100 _ Hm Hret Hre).
Defined.

(** Without the two provisos the calls of [func] can be as close as the
    calls of the wrapper: a [func] that throws leaves [inThrottle] unset,
    so that the next call goes through at once; and a call of the wrapper
    by [func] itself goes through as well. *)
Lemma throttle_open_while_func_throws_or_runs {A} (limit : Z)
    (t t' : Z) (a b : A) :
  Throttle.funcCalls
    (Throttle.run limit
       [Throttle.Call t a; Throttle.Ends t true; Throttle.Call t' b])
  = [(t, a); (t', b)]
  ∧ Throttle.funcCalls
      (Throttle.run limit [Throttle.Call t a; Throttle.Call t' b])
    = [(t, a); (t', b)].
Proof. done. Qed.

(** X22.  A throttled function calls [func] only at the moment the wrapper
    is called and with the arguments of that call: the calls of [func]
    are, in order, some of the calls of the wrapper, however [func] ends
    and whether or not it calls the wrapper itself. *)
Theorem throttle_calls_synchronously {A} (limit : Z)
    (tr : list (Throttle.event A)) :
  Throttle.funcCalls (Throttle.run limit tr)
    `sublist_of` Throttle.wrapper_calls tr.
Proof.
  induction tr as [|ev tr IH] using rev_ind; [done|].
  rewrite throttle_run_snoc.
  destruct ev as [now args|now throws|now id]; cbn [Throttle.step].
  - rewrite wrapper_calls_snoc_call. unfold Throttle.called.
    destruct (Throttle.inThrottle (Throttle.run limit tr)).
    + by apply sublist_inserts_r.
    + cbn [Throttle.funcCalls]. by apply sublist_app.
  - rewrite wrapper_calls_snoc_ends. unfold Throttle.ended.
    destruct (Throttle.running (Throttle.run limit tr)); [done|].
    by destruct throws.
  - rewrite wrapper_calls_snoc_timer. unfold Throttle.release.
    destruct (Throttle.running (Throttle.run limit tr)); [|done].
    destruct (Throttle.timers (Throttle.run limit tr) !! id); [|done].
    by case_bool_decide.
Qed.

(** X23.  The first call of a throttled function always goes through at
    once (the leading edge): the first call of [func] is the first call of
    the wrapper, however [func] ends. *)
Theorem throttle_leading_call {A} (limit : Z)
    (tr : list (Throttle.event A)) :
  head (Throttle.funcCalls (Throttle.run limit tr))
  = head (Throttle.wrapper_calls tr).
Proof.
  cut (head (Throttle.funcCalls (Throttle.run limit tr))
       = head (Throttle.wrapper_calls tr)
       ∧ (Throttle.funcCalls (Throttle.run limit tr) = [] →
          Throttle.inThrottle (Throttle.run limit tr) = false
          ∧ Throttle.running (Throttle.run limit tr) = 0));
    [by intros [? _]|].
  induction tr as [|ev tr [IHh IHg]] using rev_ind; [done|].
  rewrite throttle_run_snoc.
  destruct ev as [now args|now throws|now id]; cbn [Throttle.step].
  - rewrite wrapper_calls_snoc_call. unfold Throttle.called.
    destruct (Throttle.funcCalls (Throttle.run limit tr)) as [|c cs] eqn:Hc.
    + destruct (IHg eq_refl) as [-> _].
      cbn [Throttle.funcCalls app head].
      split; [|done].
      destruct (Throttle.wrapper_calls tr); [done|discriminate].
    + destruct (Throttle.inThrottle (Throttle.run limit tr)).
      * rewrite Hc. split; [|done].
        destruct (Throttle.wrapper_calls tr); [discriminate|done].
      * cbn [Throttle.funcCalls app head]. split; [|done].
        destruct (Throttle.wrapper_calls tr); [discriminate|done].
  - rewrite wrapper_calls_snoc_ends. unfold Throttle.ended.
    destruct (Throttle.running (Throttle.run limit tr)) eqn:Hrun;
      [split; [exact IHh|intros Hnil; destruct (IHg Hnil); by split]|].
    destruct throws; cbn [Throttle.funcCalls Throttle.inThrottle
                          Throttle.running];
      (split; [done|]); intros Hnil;
      destruct (IHg Hnil) as [_ Hz]; discriminate Hz.
  - rewrite wrapper_calls_snoc_timer. unfold Throttle.release.
    destruct (Throttle.running (Throttle.run limit tr)) eqn:Hrun;
      [|rewrite Hrun; split; [exact IHh|intros Hnil; destruct (IHg Hnil); by split]].
    destruct (Throttle.timers (Throttle.run limit tr) !! id);
      [|rewrite Hrun; split; [exact IHh|intros Hnil; destruct (IHg Hnil); by split]].
    case_bool_decide; [|rewrite Hrun; split; [exact IHh|intros Hnil; destruct (IHg Hnil); by split]].
    by cbn [Throttle.funcCalls Throttle.inThrottle Throttle.running].
Qed.
(** ** The component [Tracker]: lists under realtime events and actions *)

Lemma strict_eq_true a b : strict_eq a b = true ↔ a = b.
Proof. unfold strict_eq. by rewrite bool_decide_eq_true. Qed.

Lemma strict_eq_false a b : strict_eq a b = false ↔ a ≠ b.
Proof. unfold strict_eq. by rewrite bool_decide_eq_false. Qed.

Lemma remove_id_app id l1 l2 :
  Tracker.remove_id id (l1 ++ l2)
  = Tracker.remove_id id l1 ++ Tracker.remove_id id l2.
Proof. unfold Tracker.remove_id. by rewrite filter_app. Qed.

Lemma remove_id_fresh id l :
  (∀ h, h ∈ l → prop h "id" ≠ id) → Tracker.remove_id id l = l.
Proof.
  intros Hfresh. unfold Tracker.remove_id.
  induction l as [|h l IH]; [done|].
  rewrite filter_cons_True by (apply Hfresh; left).
  f_equal. apply IH. intros h' Hh'. apply Hfresh. by right.
Qed.

Lemma replace_id_fresh id r l :
  (∀ h, h ∈ l → prop h "id" ≠ id) → Tracker.replace_id id r l = l.
Proof.
  intros Hfresh. unfold Tracker.replace_id.
  induction l as [|h l IH]; [done|]. cbn [fmap list_fmap].
  assert (strict_eq (prop h "id") id = false) as ->
    by (apply strict_eq_false, Hfresh; left).
  f_equal. apply IH. intros h' Hh'. apply Hfresh. by right.
Qed.

Lemma remove_id_comm id1 id2 l :
  Tracker.remove_id id1 (Tracker.remove_id id2 l)
  = Tracker.remove_id id2 (Tracker.remove_id id1 l).
Proof.
  unfold Tracker.remove_id. induction l as [|h l IH]; [done|].
  destruct (decide (prop h "id" = id1)) as [H1|H1];
    destruct (decide (prop h "id" = id2)) as [H2|H2];
    repeat (first [rewrite filter_cons_True by done
                  |rewrite filter_cons_False by (by intros ?)]);
    by rewrite ?IH.
Qed.

Lemma remove_id_replace_id tempId new l :
  Tracker.remove_id tempId (Tracker.replace_id (prop new "id") new l)
  = Tracker.replace_id (prop new "id") new (Tracker.remove_id tempId l).
Proof.
  unfold Tracker.remove_id, Tracker.replace_id.
  induction l as [|h l IH]; [done|]. cbn [fmap list_fmap].
  destruct (decide (prop h "id" = tempId)) as [Ht|Ht].
  - rewrite (filter_cons_False _ h) by (by intros ?).
    destruct (strict_eq (prop h "id") (prop new "id")) eqn:Hn.
    + apply strict_eq_true in Hn.
      rewrite filter_cons_False by (intros ?; congruence). apply IH.
    + rewrite filter_cons_False by (by intros ?). apply IH.
  - rewrite (filter_cons_True _ h) by done. cbn [fmap list_fmap].
    destruct (strict_eq (prop h "id") (prop new "id")) eqn:Hn.
    + apply strict_eq_true in Hn.
      rewrite filter_cons_True by congruence. f_equal. apply IH.
    + rewrite filter_cons_True by done. f_equal. apply IH.
Qed.

(** Dropping the rows of an id commutes with a realtime event of habits,
    unless the event inserts a row of that id. *)
Lemma remove_id_onHabits tempId ev l :
  (∀ new, ev = INSERT new → prop new "id" ≠ tempId) →
  Tracker.remove_id tempId (Tracker.onHabits ev l)
  = Tracker.onHabits ev (Tracker.remove_id tempId l).
Proof.
  intros Hins. destruct ev as [new|new|old]; cbn [Tracker.onHabits].
  - rewrite remove_id_app. f_equal.
    apply remove_id_fresh. intros h ->%list_elem_of_singleton. by apply Hins.
  - apply remove_id_replace_id.
  - apply remove_id_comm.
Qed.

Lemma remove_id_deliver tempId evs l :
  (∀ new, INSERT new ∈ evs → prop new "id" ≠ tempId) →
  Tracker.remove_id tempId (Tracker.deliver Tracker.onHabits evs l)
  = Tracker.deliver Tracker.onHabits evs (Tracker.remove_id tempId l).
Proof.
  unfold Tracker.deliver. revert l.
  induction evs as [|ev evs IH]; intros l Hins; [done|]. cbn [foldl].
  rewrite IH by (intros new Hnew; apply Hins; by right).
  f_equal. apply remove_id_onHabits. intros new ->. apply Hins. by left.
Qed.

(** X24.  A rejected [addHabit] leaves no trace, whatever realtime events of
    habits arrive while the database is asked: when the temporary id is
    not in the list and no event inserts a row of that id, the list ends
    as the events alone would have left it. *)
Theorem failed_addHabit_leaves_no_trace (tempId name userId : string)
    (evs : list change_event) (prev : list object) :
  (∀ h, h ∈ prev → prop h "id" ≠ VStr tempId) →
  (∀ new, INSERT new ∈ evs → prop new "id" ≠ VStr tempId) →
  Tracker.addHabit_settled tempId None
    (Tracker.deliver Tracker.onHabits evs
       (Tracker.addHabit_optimistic (Tracker.tempHabit tempId name userId)
          prev))
  = Tracker.deliver Tracker.onHabits evs prev.
Proof.
  intros Hfresh Hins. cbn [Tracker.addHabit_settled].
  rewrite remove_id_deliver by done. f_equal.
  unfold Tracker.addHabit_optimistic. rewrite remove_id_app.
  rewrite remove_id_fresh by done.
  unfold Tracker.remove_id. rewrite filter_cons_False, app_nil_r; [done|].
  intros Hne. by apply Hne.
Qed.

Lemma failed_addHabit_leaves_no_trace_witness :
  (∀ h, h ∈ [Sample.read] → prop h "id" ≠ VStr "temp-1700000000000")
  ∧ (∀ new, INSERT new ∈ [UPDATE Sample.read; INSERT SampleMore.swim;
                          DELETE Sample.read] →
            prop new "id" ≠ VStr "temp-1700000000000")
  ∧ Tracker.addHabit_settled "temp-1700000000000" None
      (Tracker.deliver Tracker.onHabits
         [UPDATE Sample.read; INSERT SampleMore.swim; DELETE Sample.read]
         (Tracker.addHabit_optimistic
            (Tracker.tempHabit "temp-1700000000000" "Run" "u1")
            [Sample.read]))
    = Tracker.deliver Tracker.onHabits
        [UPDATE Sample.read; INSERT SampleMore.swim; DELETE Sample.read]
        [Sample.read].
Proof.
  assert (H1 : ∀ h, h ∈ [Sample.read] →
                    prop h "id" ≠ VStr "temp-1700000000000").
  { intros h ->%list_elem_of_singleton. by vm_compute. }
  assert (H2 : ∀ new, INSERT new ∈ [UPDATE Sample.read; INSERT SampleMore.swim;
                                    DELETE Sample.read] →
                      prop new "id" ≠ VStr "temp-1700000000000").
  { intros new Hin. repeat apply elem_of_cons in Hin as [Hin|Hin];
      try discriminate; [|by apply elem_of_nil in Hin].
    injection Hin as ->. by vm_compute. }
  split; [exact H1|]. split; [exact H2|].
  exact (failed_addHabit_leaves_no_trace "temp-1700000000000" "Run" "u1"
           _ _ H1 H2).
Defined.

(** X25.  When [addHabit] is confirmed and the insert event of the same row
    arrives as well, the row is in the list twice, in whichever order the
    two come: the insert handler appends without looking for the row. *)
Theorem confirmed_addHabit_and_insert_event_duplicate
    (tempId name userId : string) (newHabit : object)
    (prev : list object) :
  (∀ h, h ∈ prev → prop h "id" ≠ VStr tempId) →
  Tracker.addHabit_settled tempId (Some newHabit)
    (Tracker.onHabits (INSERT newHabit)
       (Tracker.addHabit_optimistic (Tracker.tempHabit tempId name userId)
          prev))
  = prev ++ [newHabit; newHabit]
  ∧ Tracker.onHabits (INSERT newHabit)
      (Tracker.addHabit_settled tempId (Some newHabit)
         (Tracker.addHabit_optimistic (Tracker.tempHabit tempId name userId)
            prev))
    = prev ++ [newHabit; newHabit].
Proof.
  intros Hfresh.
  assert (Htemp : strict_eq (prop (Tracker.tempHabit tempId name userId) "id")
                    (VStr tempId) = true) by by apply strict_eq_true.
  cbn [Tracker.addHabit_settled Tracker.onHabits].
  unfold Tracker.addHabit_optimistic. split.
  - rewrite <- app_assoc. unfold Tracker.replace_id at 1.
    rewrite fmap_app. fold (Tracker.replace_id (VStr tempId) newHabit prev).
    rewrite replace_id_fresh by done. f_equal.
    cbn [app fmap list_fmap]. rewrite Htemp.
    by destruct (strict_eq (prop newHabit "id") (VStr tempId)).
  - unfold Tracker.replace_id at 1.
    rewrite fmap_app. fold (Tracker.replace_id (VStr tempId) newHabit prev).
    rewrite replace_id_fresh by done. rewrite <- app_assoc. f_equal.
    cbn [app fmap list_fmap]. by rewrite Htemp.
Qed.

Lemma confirmed_addHabit_and_insert_event_duplicate_witness :
  (∀ h, h ∈ [Sample.read] → prop h "id" ≠ VStr "temp-1700000000000")
  ∧ Tracker.addHabit_settled "temp-1700000000000" (Some SampleMore.swim)
      (Tracker.onHabits (INSERT SampleMore.swim)
         (Tracker.addHabit_optimistic
            (Tracker.tempHabit "temp-1700000000000" "Swim" "u1")
            [Sample.read]))
    = [Sample.read] ++ [SampleMore.swim; SampleMore.swim].
Proof.
  assert (H1 : ∀ h, h ∈ [Sample.read] →
                    prop h "id" ≠ VStr "temp-1700000000000").
  { intros h ->%list_elem_of_singleton. by vm_compute. }
  split; [exact H1|].
  exact (proj1 (confirmed_addHabit_and_insert_event_duplicate
                  "temp-1700000000000" "Swim" "u1" SampleMore.swim
                  [Sample.read] H1)).
Defined.

Lemma remove_id_unique id k h (l : list object) :
  NoDup ((λ h, prop h "id") <$> l) →
  l !! k = Some h → prop h "id" = id →
  Tracker.remove_id id l = delete k l.
Proof.
  unfold Tracker.remove_id. revert k.
  induction l as [|x l IH]; intros k Hnd Hk Hid; [done|].
  rewrite fmap_cons in Hnd. apply NoDup_cons in Hnd as [Hx Hnd].
  destruct k as [|k]; cbn in Hk.
  - injection Hk as ->. rewrite filter_cons_False by (by intros ?).
    cbn [delete list_delete].
    change (filter (λ h, prop h "id" ≠ id) l) with (Tracker.remove_id id l).
    apply remove_id_fresh. intros h' Hh' Heq. apply Hx.
    rewrite Hid, <- Heq. apply list_elem_of_fmap. by exists h'.
  - rewrite filter_cons_True.
    + cbn [delete list_delete]. f_equal. by apply (IH k).
    + intros Heq. apply Hx. rewrite Heq, <- Hid.
      apply list_elem_of_fmap. exists h. split; [done|].
      by apply list_elem_of_lookup_2 in Hk.
Qed.

Lemma find_id_unique id k h (l : list object) :
  NoDup ((λ h, prop h "id") <$> l) →
  l !! k = Some h → prop h "id" = id →
  Tracker.find_id id l = Some h.
Proof.
  intros Hnd Hk Hid. unfold Tracker.find_id.
  destruct (list_find (λ h, prop h "id" = id) l) as [[i x]|] eqn:Hf.
  - apply list_find_Some in Hf as (Hi & Hx & _). cbn. f_equal.
    assert (i = k) as ->; [|congruence].
    apply (NoDup_lookup _ i k (prop h "id") Hnd).
    + by rewrite list_lookup_fmap, Hi; cbn; rewrite Hx, Hid.
    + by rewrite list_lookup_fmap, Hk.
  - apply list_find_None in Hf. exfalso.
    apply (proj1 (Forall_forall _ _) Hf h); [|done].
    by apply list_elem_of_lookup_2 in Hk.
Qed.

(** X26.  A rejected [deleteHabit] does not put the habit back where it was:
    with distinct ids in the list, the habit found is the one at its
    position, and after the rollback it is the last of the list, the
    others keeping their order. *)
Theorem failed_deleteHabit_moves_habit_to_end (id : value) (k : nat)
    (h : object) (habits : list object) :
  NoDup ((λ h, prop h "id") <$> habits) →
  habits !! k = Some h → prop h "id" = id →
  Tracker.find_id id habits = Some h
  ∧ Tracker.deleteHabit_rollback h (Tracker.deleteHabit_optimistic id habits)
    = delete k habits ++ [h].
Proof.
  intros Hnd Hk Hid. split; [by apply (find_id_unique id k)|].
  unfold Tracker.deleteHabit_rollback, Tracker.deleteHabit_optimistic.
  by rewrite (remove_id_unique id k h).
Qed.

Lemma failed_deleteHabit_moves_habit_to_end_witness :
  NoDup ((λ h, prop h "id") <$> [Sample.read; SampleMore.swim])
  ∧ [Sample.read; SampleMore.swim] !! 0 = Some Sample.read
  ∧ Tracker.deleteHabit_rollback Sample.read
      (Tracker.deleteHabit_optimistic (prop Sample.read "id")
         [Sample.read; SampleMore.swim])
    = delete 0 [Sample.read; SampleMore.swim] ++ [Sample.read].
Proof.
  assert (Hnd : NoDup ((λ h, prop h "id") <$> [Sample.read; SampleMore.swim])).
  { apply (bool_decide_unpack _). vm_compute. exact I. }
  split; [exact Hnd|]. split; [reflexivity|].
  exact (proj2 (failed_deleteHabit_moves_habit_to_end
                  (prop Sample.read "id") 0 Sample.read
                  [Sample.read; SampleMore.swim] Hnd eq_refl eq_refl)).
Defined.

Lemma flipped_id t : prop (Tracker.flipped t) "id" = prop t "id".
Proof. unfold Tracker.flipped, prop. by rewrite lookup_insert_ne. Qed.

Lemma flipped_twice t b :
  t !! "completed" = Some (VBool b) →
  Tracker.flipped (Tracker.flipped t) = t.
Proof.
  intros Hc. unfold Tracker.flipped at 1.
  assert (prop (Tracker.flipped t) "completed" = VBool (negb b)) as ->.
  { unfold Tracker.flipped, prop. rewrite lookup_insert_eq. cbn.
    unfold prop. by rewrite Hc. }
  unfold Tracker.flipped. rewrite insert_insert_eq. cbn [Tracker.truthy_value].
  rewrite negb_involutive. by apply insert_id.
Qed.

(** X27.  [toggleTask] undone by its rollback gives the list back when the
    tasks of that id carry a boolean [completed]: the same updater runs
    twice. *)
Theorem toggleTask_rollback_restores (id : value) (prev : list object) :
  (∀ t, t ∈ prev → prop t "id" = id →
        ∃ b, t !! "completed" = Some (VBool b)) →
  Tracker.toggleTask_update id (Tracker.toggleTask_update id prev) = prev.
Proof.
  unfold Tracker.toggleTask_update. intros Hbool.
  induction prev as [|t prev IH]; [done|]. cbn [fmap list_fmap].
  rewrite IH by (intros t' Ht'; apply Hbool; by right). f_equal.
  destruct (strict_eq (prop t "id") id) eqn:Hid.
  - rewrite flipped_id, Hid. apply strict_eq_true in Hid.
    destruct (Hbool t) as [b Hb]; [by left|done|].
    by apply (flipped_twice t b).
  - by rewrite Hid.
Qed.

Lemma toggleTask_rollback_restores_witness :
  (∀ t, t ∈ [({[ "id" := VNum 7; "title" := VStr "Buy milk";
                 "completed" := VBool false ]} : object)] →
        prop t "id" = VNum 7 →
        ∃ b, t !! "completed" = Some (VBool b))
  ∧ Tracker.toggleTask_update (VNum 7)
      (Tracker.toggleTask_update (VNum 7)
         [({[ "id" := VNum 7; "title" := VStr "Buy milk";
              "completed" := VBool false ]} : object)])
    = [({[ "id" := VNum 7; "title" := VStr "Buy milk";
           "completed" := VBool false ]} : object)].
Proof.
  assert (H : ∀ t, t ∈ [({[ "id" := VNum 7; "title" := VStr "Buy milk";
                            "completed" := VBool false ]} : object)] →
                   prop t "id" = VNum 7 →
                   ∃ b, t !! "completed" = Some (VBool b)).
  { intros t ->%list_elem_of_singleton _. by exists false. }
  split; [exact H|].
  exact (toggleTask_rollback_restores (VNum 7) _ H).
Defined.

Lemma not_same_log_filter habitId logDate (l : list object) :
  ¬ Exists (Tracker.same_log habitId logDate)
      (filter (λ log, ¬ Tracker.same_log habitId logDate log) l).
Proof.
  rewrite Exists_exists. intros (x & Hx & Hs).
  apply list_elem_of_filter in Hx as [Hn _]. by apply Hn.
Qed.

Lemma same_log_entry habitId logDate :
  Tracker.same_log habitId logDate (Tracker.logEntry habitId logDate).
Proof.
  unfold Tracker.same_log, Tracker.logEntry, prop. split.
  - by rewrite lookup_insert_eq.
  - rewrite lookup_insert_ne by done. by rewrite lookup_singleton_eq.
Qed.

(** X28.  [toggleHabit] flips the mark of the day when the database accepts,
    and leaves the mark as it was when the database rejects. *)
Theorem toggleHabit_mark (habitId logDate : value) (ok : bool)
    (habitLogs : list object) :
  Tracker.isHabitCompleted habitId logDate
    (Tracker.toggleHabit habitId logDate ok habitLogs)
  = if ok then negb (Tracker.isHabitCompleted habitId logDate habitLogs)
    else Tracker.isHabitCompleted habitId logDate habitLogs.
Proof.
  unfold Tracker.toggleHabit.
  destruct (Tracker.isHabitCompleted habitId logDate habitLogs) eqn:Hc;
    destruct ok;
    cbn [Tracker.toggleHabit_optimistic Tracker.toggleHabit_rollback negb];
    unfold Tracker.isHabitCompleted.
  - apply bool_decide_eq_false, not_same_log_filter.
  - apply bool_decide_eq_true, Exists_app. right.
    apply Exists_cons_hd, same_log_entry.
  - apply bool_decide_eq_true, Exists_app. right.
    apply Exists_cons_hd, same_log_entry.
  - apply bool_decide_eq_false, not_same_log_filter.
Qed.

(** ** The component [Tracker]: [loadData] and the cache *)

Lemma cache_get_ttl key now c :
  DataCache.ttl (DataCache.get key now c).1 = DataCache.ttl c.
Proof.
  unfold DataCache.get. destruct (DataCache.cache c !! key); [|done].
  by case_bool_decide.
Qed.

(** X29.  After a load that asked the server and got rows, a load for the
    same key while online, within the time to live of the write, shows
    the same lists without asking the server and leaves the cache as it
    is, whatever the server would have answered. *)
Theorem loadData_served_from_cache (cacheKey : string) (online : bool)
    (t0 t1 t2 t3 : Z) (hs ts ls : option (list object))
    (server : Tracker.fetched) (c c1 : DataCache.t) (shown : Tracker.lists) :
  Tracker.loadData cacheKey online t0 t1 (Tracker.Rows hs ts ls) c
  = (c1, shown, true) →
  (t2 - t1 ≤ DataCache.ttl c)%Z →
  Tracker.loadData cacheKey true t2 t3 server c1 = (c1, shown, false).
Proof.
  unfold Tracker.loadData at 1. intros Hload Hlive.
  pose proof (cache_get_ttl cacheKey t0 c) as Httl.
  destruct (DataCache.get cacheKey t0 c) as [c' cachedData].
  cbn [fst] in Httl.
  destruct (Tracker.truthy_jsval cachedData && online); [done|].
  injection Hload as <- <-.
  unfold Tracker.loadData, DataCache.get, DataCache.set.
  cbn [DataCache.cache DataCache.ttl DataCache.timestamp DataCache.value].
  rewrite lookup_insert_eq.
  cbn [DataCache.cache DataCache.ttl DataCache.timestamp DataCache.value].
  rewrite bool_decide_eq_false_2 by lia.
  done.
Qed.

Lemma loadData_served_from_cache_witness :
  Tracker.loadData "data-u1-2024-05" true 1000 1200
    (Tracker.Rows (Some [Sample.read]) None None) (DataCache.new None)
  = (DataCache.set "data-u1-2024-05"
       (JData [("habits", [Some Sample.read]); ("tasks", []);
               ("habitLogs", [])]) 1200 (DataCache.new None),
     {| Tracker.habits := JArr [Some Sample.read];
        Tracker.tasks := JArr []; Tracker.habitLogs := JArr [] |}, true)
  ∧ (301200 - 1200 ≤ DataCache.ttl (DataCache.new None))%Z
  ∧ Tracker.loadData "data-u1-2024-05" true 301200 301300 Tracker.Rejected
      (DataCache.set "data-u1-2024-05"
         (JData [("habits", [Some Sample.read]); ("tasks", []);
                 ("habitLogs", [])]) 1200 (DataCache.new None))
    = (DataCache.set "data-u1-2024-05"
         (JData [("habits", [Some Sample.read]); ("tasks", []);
                 ("habitLogs", [])]) 1200 (DataCache.new None),
       {| Tracker.habits := JArr [Some Sample.read];
          Tracker.tasks := JArr []; Tracker.habitLogs := JArr [] |}, false).
Proof.
  assert (H1 : Tracker.loadData "data-u1-2024-05" true 1000 1200
                 (Tracker.Rows (Some [Sample.read]) None None)
                 (DataCache.new None)
               = (DataCache.set "data-u1-2024-05"
                    (JData [("habits", [Some Sample.read]); ("tasks", []);
                            ("habitLogs", [])]) 1200 (DataCache.new None),
                  {| Tracker.habits := JArr [Some Sample.read];
                     Tracker.tasks := JArr [];
                     Tracker.habitLogs := JArr [] |}, true))
    by reflexivity.
  assert (H2 : (301200 - 1200 ≤ DataCache.ttl (DataCache.new None))%Z)
    by (cbn; lia).
  split; [exact H1|]. split; [exact H2|].
  exact (loadData_served_from_cache "data-u1-2024-05" true 1000 1200 301200
           301300 _ _ _ Tracker.Rejected _ _ _ H1 H2).
Defined.

(** Offline, [loadData] never shows what the cache holds: the lists it
    sets depend on the answer of the server alone, and are empty when the
    fetch is rejected. *)
Theorem loadData_offline_ignores_cache (cacheKey : string) (t0 t1 : Z)
    (server : Tracker.fetched) (c c' : DataCache.t) :
  (Tracker.loadData cacheKey false t0 t1 server c).1.2
  = (Tracker.loadData cacheKey false t0 t1 server c').1.2
  ∧ (Tracker.loadData cacheKey false t0 t1 Tracker.Rejected c).1.2
    = {| Tracker.habits := JArr []; Tracker.tasks := JArr [];
         Tracker.habitLogs := JArr [] |}.
Proof.
  unfold Tracker.loadData.
  destruct (DataCache.get cacheKey t0 c) as [d cached].
  destruct (DataCache.get cacheKey t0 c') as [d' cached'].
  rewrite !andb_false_r. split; [|done]. by destruct server.
Qed.

(** ** The component [Tracker]: the effect and its cleanup *)

Lemma subscribe_fresh table cb filter w :
  unregistered (RealtimeManager.subscriptionKey table filter) w →
  RealtimeManager.subscribe table cb filter w
  = (with_manager
       {| subscriptions :=
            <[RealtimeManager.subscriptionKey table filter :=
                {| channel_name :=
                     "realtime:"
                     +:+ RealtimeManager.subscriptionKey table filter;
                   channel_table := table;
                   channel_filter := RealtimeManager.truthy filter |}]>
              (subscriptions (realtimeManager w));
          callbacks :=
            <[RealtimeManager.subscriptionKey table filter := [Some cb]]>
              (callbacks (realtimeManager w)) |}
       (emit (ChannelSubscribed
                (RealtimeManager.subscriptionKey table filter)
                {| channel_name :=
                     "realtime:"
                     +:+ RealtimeManager.subscriptionKey table filter;
                   channel_table := table;
                   channel_filter := RealtimeManager.truthy filter |}) w),
     (RealtimeManager.subscriptionKey table filter, cb)).
Proof.
  intros [Hs Hc]. unfold RealtimeManager.subscribe. rewrite Hs, Hc.
  by rewrite alter_insert_eq.
Qed.

Lemma unsubscribe_sole key cb q w :
  subscriptions (realtimeManager w) !! key = Some q →
  callbacks (realtimeManager w) !! key = Some [Some cb] →
  RealtimeManager.unsubscribe key cb w
  = with_manager
      {| subscriptions := delete key (subscriptions (realtimeManager w));
         callbacks := delete key (callbacks (realtimeManager w)) |}
      (emit (ChannelUnsubscribed key) w).
Proof.
  intros Hs Hc. rewrite (unsubscribe_last key cb w [Some cb] Hc).
  - by rewrite Hs.
  - unfold JSSet.size, JSSet.delete. cbn. by rewrite decide_True.
Qed.

Lemma user_keys_differ (a b : string) :
  user_key "habits" a ≠ user_key "habit_logs" b
  ∧ user_key "habits" a ≠ user_key "todos" b
  ∧ user_key "habit_logs" a ≠ user_key "todos" b.
Proof.
  unfold user_key, RealtimeManager.subscriptionKey.
  rewrite !user_filter_truthy. cbn. split_and!; discriminate.
Qed.

Lemma live_add_delete cb (s : JSSet.t) :
  cb ∉ JSSet.live s →
  JSSet.live (JSSet.delete cb (JSSet.add cb s)) = JSSet.live s.
Proof.
  intros Hcb. rewrite live_delete, live_add, decide_False by done.
  rewrite filter_app, filter_cons_False, app_nil_r by (by intros ?).
  induction (JSSet.live s) as [|c l IH]; [done|].
  rewrite filter_cons_True.
  - f_equal. apply IH. intros ?. apply Hcb. by right.
  - intros ->. apply Hcb. by left.
Qed.

(** X30.  The effect of the component and its cleanup are a round trip: when
    nothing is registered under the three keys of the user and the status
    callback is new, subscribing and then running the cleanup gives back
    the registry and the callbacks of the monitor, and the three channels
    that were opened are closed. *)
Theorem effect_cleanup_round_trip (userId : string)
    (setIsOnline habitsCb logsCb todosCb : handle) (w : world) :
  unregistered (user_key "habits" userId) w →
  unregistered (user_key "habit_logs" userId) w →
  unregistered (user_key "todos" userId) w →
  setIsOnline ∉ JSSet.live (statusCallbacks (connectionMonitor w)) →
  let mounted :=
    Tracker.subscribeAll userId setIsOnline habitsCb logsCb todosCb w in
  let w' := Tracker.unsubscribeAll mounted.2 mounted.1 in
  realtimeManager w' = realtimeManager w
  ∧ isOnline (connectionMonitor w') = isOnline (connectionMonitor w)
  ∧ JSSet.live (statusCallbacks (connectionMonitor w'))
    = JSSet.live (statusCallbacks (connectionMonitor w))
  ∧ console w'
    = console w
      ++ [ChannelSubscribed (user_key "habits" userId)
            (user_channel "habits" userId);
          ChannelSubscribed (user_key "habit_logs" userId)
            (user_channel "habit_logs" userId);
          ChannelSubscribed (user_key "todos" userId)
            (user_channel "todos" userId);
          ChannelUnsubscribed (user_key "habits" userId);
          ChannelUnsubscribed (user_key "habit_logs" userId);
          ChannelUnsubscribed (user_key "todos" userId)].
Proof.
  intros [Hhs Hhc] [Hls Hlc] [Hts Htc] Hnew.
  destruct (user_keys_differ userId userId) as (Hhl & Hht & Hlt).
  cbv zeta. rewrite <- (live_add_delete setIsOnline _ Hnew). unfold Tracker.subscribeAll, Tracker.unsubscribeAll,
    ConnectionMonitor.subscribe,
    RealtimeManager.subscribeToHabits, RealtimeManager.subscribeToHabitLogs,
    RealtimeManager.subscribeToTodos.
  rewrite (subscribe_fresh "habits") by done.
  fold (user_key "habits" userId).
  rewrite (subscribe_fresh "habit_logs")
    by (split; cbn; fold (user_key "habit_logs" userId);
        by rewrite lookup_insert_ne).
  fold (user_key "habit_logs" userId).
  rewrite (subscribe_fresh "todos")
    by (split; cbn; fold (user_key "todos" userId);
        by rewrite !lookup_insert_ne).
  fold (user_key "todos" userId).
  cbn [fst snd Tracker.unsubscribeConnection Tracker.unsubscribeHabits
       Tracker.unsubscribeHabitLogs Tracker.unsubscribeTodos].
  unfold ConnectionMonitor.unsubscribe.
  destruct w as [[subs cbs] [on sc] con].
  cbn [with_manager emit with_monitor realtimeManager connectionMonitor
       console subscriptions callbacks isOnline statusCallbacks] in *.
  rewrite (unsubscribe_sole (user_key "habits" userId) habitsCb
             (user_channel "habits" userId));
    cbn [with_manager emit with_monitor realtimeManager connectionMonitor
         console subscriptions callbacks isOnline statusCallbacks];
    [|by rewrite !lookup_insert_ne, lookup_insert_eq by done..].
  rewrite (unsubscribe_sole (user_key "habit_logs" userId) logsCb
             (user_channel "habit_logs" userId));
    cbn [with_manager emit with_monitor realtimeManager connectionMonitor
         console subscriptions callbacks isOnline statusCallbacks];
    [|by rewrite lookup_delete_ne, lookup_insert_ne, lookup_insert_eq
        by done..].
  rewrite (unsubscribe_sole (user_key "todos" userId) todosCb
             (user_channel "todos" userId));
    cbn [with_manager emit with_monitor realtimeManager connectionMonitor
         console subscriptions callbacks isOnline statusCallbacks];
    [|by rewrite !lookup_delete_ne, lookup_insert_eq by done..].
  split_and!; [|done|done|by rewrite <- !app_assoc].
  f_equal; apply map_eq; intros k.
  - destruct (decide (k = user_key "todos" userId)) as [->|];
      [by rewrite lookup_delete_eq|rewrite lookup_delete_ne by done].
    destruct (decide (k = user_key "habit_logs" userId)) as [->|];
      [by rewrite lookup_delete_eq|rewrite lookup_delete_ne by done].
    destruct (decide (k = user_key "habits" userId)) as [->|];
      [by rewrite lookup_delete_eq|rewrite lookup_delete_ne by done].
    by rewrite !lookup_insert_ne.
  - destruct (decide (k = user_key "todos" userId)) as [->|];
      [by rewrite lookup_delete_eq|rewrite lookup_delete_ne by done].
    destruct (decide (k = user_key "habit_logs" userId)) as [->|];
      [by rewrite lookup_delete_eq|rewrite lookup_delete_ne by done].
    destruct (decide (k = user_key "habits" userId)) as [->|];
      [by rewrite lookup_delete_eq|rewrite lookup_delete_ne by done].
    by rewrite !lookup_insert_ne.
Qed.

Lemma effect_cleanup_round_trip_witness :
  console
    (Tracker.unsubscribeAll
       (Tracker.subscribeAll "u1" 0 1 2 3 (initial true)).2
       (Tracker.subscribeAll "u1" 0 1 2 3 (initial true)).1)
  = console (initial true)
    ++ [ChannelSubscribed (user_key "habits" "u1")
          (user_channel "habits" "u1");
        ChannelSubscribed (user_key "habit_logs" "u1")
          (user_channel "habit_logs" "u1");
        ChannelSubscribed (user_key "todos" "u1")
          (user_channel "todos" "u1");
        ChannelUnsubscribed (user_key "habits" "u1");
        ChannelUnsubscribed (user_key "habit_logs" "u1");
        ChannelUnsubscribed (user_key "todos" "u1")].
Proof.
  apply (effect_cleanup_round_trip "u1" 0 1 2 3 (initial true)).
  - by split.
  - by split.
  - by split.
  - cbn. apply not_elem_of_nil.
Defined.

